(** * The resolved-AST rewrite driver of ZetaSQL

    A shallow embedding of
    - [zetasql/analyzer/rewrite_resolved_ast.cc] (the fixed-point driver and
      the options builder), and
    - [zetasql/analyzer/rewriters/nulliferror_function_rewriter.cc]
      (the NULLIFERROR rewriter),
    - [zetasql/parser/parser_runtime_info.h] (the choice of the parsers and
      the token count), and
    - [zetasql/tools/execute_query/execute_query_writer.h] (the writers),
    together with the properties of the specification that concern them
    and further properties of the code.

    The C++ code mutates the analyzer output in place and leaves through
    early returns ([ZETASQL_RET_CHECK], [ZETASQL_ASSIGN_OR_RETURN]); the
    embedding threads the mutable objects through a small state monad whose
    state survives an early return. *)

From Stdlib Require Import ZArith String List Lia.
From stdpp Require Import gmap strings list pretty.

Local Set Warnings "-register-all".

Local Open Scope string_scope.
Local Open Scope list_scope.
Local Open Scope Z_scope.

(** ** absl::Status and absl::StatusOr *)

Inductive StatusCode :=
| kOk | kCancelled | kUnknown | kInvalidArgument | kDeadlineExceeded
| kNotFound | kAlreadyExists | kPermissionDenied | kResourceExhausted
| kFailedPrecondition | kAborted | kOutOfRange | kUnimplemented
| kInternal | kUnavailable | kDataLoss | kUnauthenticated.

Global Instance StatusCode_eq_dec : EqDecision StatusCode.
Proof. solve_decision. Defined.

(** A status carries its code, its message and, as the only payload the
    driver's callers look at, an internal error location (a byte offset into
    the SQL text). *)
Record Status := mkStatus {
  code : StatusCode;
  message : string;
  internal_error_location : option Z
}.

Global Instance Status_eq_dec : EqDecision Status.
Proof. solve_decision. Defined.

Definition OkStatus : Status := mkStatus kOk EmptyString None.
Definition status_ok (s : Status) : bool := bool_decide (code s = kOk).

Definition ResourceExhaustedError (msg : string) : Status :=
  mkStatus kResourceExhausted msg None.
Definition UnimplementedError (msg : string) : Status :=
  mkStatus kUnimplemented msg None.
(** What a failed [ZETASQL_RET_CHECK] returns: an internal error whose
    message holds the text streamed into the check. *)
Definition RetCheckFailure (msg : string) : Status :=
  mkStatus kInternal msg None.

Inductive StatusOr (T : Type) :=
| Value (v : T)
| Error (s : Status).
Arguments Value {T} v.
Arguments Error {T} s.

(** ** Rule identifiers and language features

    [options.pb.h] is not among the sources: the enumerations keep the
    constants the code names and one constructor for all the others. *)

Inductive ResolvedASTRewrite :=
| REWRITE_ANONYMIZATION
| REWRITE_NULLIFERROR_FUNCTION
| REWRITE_OTHER (tag : positive).

Global Instance ResolvedASTRewrite_eq_dec : EqDecision ResolvedASTRewrite.
Proof. solve_decision. Defined.

Global Instance ResolvedASTRewrite_countable : Countable ResolvedASTRewrite.
Proof.
  refine (inj_countable'
    (fun r => match r with
              | REWRITE_ANONYMIZATION => inl false
              | REWRITE_NULLIFERROR_FUNCTION => inl true
              | REWRITE_OTHER p => inr p
              end)
    (fun x => match x with
              | inl false => REWRITE_ANONYMIZATION
              | inl true => REWRITE_NULLIFERROR_FUNCTION
              | inr p => REWRITE_OTHER p
              end) _).
  by intros [].
Defined.

Inductive LanguageFeature :=
| FEATURE_V_1_4_WITH_EXPRESSION
| FEATURE_OTHER (tag : positive).

Global Instance LanguageFeature_eq_dec : EqDecision LanguageFeature.
Proof. solve_decision. Defined.

Global Instance LanguageFeature_countable : Countable LanguageFeature.
Proof.
  refine (inj_countable'
    (fun f => match f with
              | FEATURE_V_1_4_WITH_EXPRESSION => None
              | FEATURE_OTHER p => Some p
              end)
    (fun x => match x with
              | None => FEATURE_V_1_4_WITH_EXPRESSION
              | Some p => FEATURE_OTHER p
              end) _).
  by intros [].
Defined.

Inductive NameResolutionMode := NAME_RESOLUTION_DEFAULT | NAME_RESOLUTION_STRICT.
Inductive ParameterMode := PARAMETER_NAMED | PARAMETER_POSITIONAL | PARAMETER_NONE.
Inductive StatementContext := CONTEXT_DEFAULT | CONTEXT_MODULE.
Inductive ErrorMessageMode :=
| ERROR_MESSAGE_WITH_PAYLOAD
| ERROR_MESSAGE_ONE_LINE
| ERROR_MESSAGE_MULTI_LINE_WITH_CARET.
Inductive FieldsAccessedMode := LEGACY_FIELDS_ACCESSED_MODE | CLEAR_FIELDS.

(** ** The column-id sequence *)

Definition wrap64 (z : Z) : Z := (z + 2 ^ 63) mod 2 ^ 64 - 2 ^ 63.
Definition in_int64 (z : Z) : Prop := - 2 ^ 63 <= z < 2 ^ 63.

(** Modelled from the spec: [zetasql_base::SequenceNumber]
    ([atomic_sequence_num.h] is not among the sources), the "monotonically
    increasing 64-bit counter that hands out globally unique column ids".
    [GetNext] hands out the current value and steps the counter by one; a
    new counter starts at 0. *)
Record SequenceNumber := mkSequenceNumber { word : Z }.

Global Instance SequenceNumber_eq_dec : EqDecision SequenceNumber.
Proof. solve_decision. Defined.

Definition fresh_sequence : SequenceNumber := mkSequenceNumber 0.

Definition GetNext (s : SequenceNumber) : Z * SequenceNumber :=
  (word s, mkSequenceNumber (wrap64 (word s + 1))).

(** The sequence objects a driver call can reach: the one the caller's
    options point to (when they point to one) and the driver's local
    [fallback_sequence_number]. Options hold a pointer, not a copy. *)
Inductive SequenceNumberPtr := CallerSequence | FallbackSequence.

Global Instance SequenceNumberPtr_eq_dec : EqDecision SequenceNumberPtr.
Proof. solve_decision. Defined.

Record SequenceStore := mkSequenceStore {
  caller_sequence : SequenceNumber;
  fallback_sequence_number : SequenceNumber
}.

Definition deref_sequence (p : SequenceNumberPtr) (h : SequenceStore)
  : SequenceNumber :=
  match p with
  | CallerSequence => caller_sequence h
  | FallbackSequence => fallback_sequence_number h
  end.

(** [while (fallback_sequence_number.GetNext() < max_column_id) {}].
    The loop draws until the drawn value is not below [max_column_id]; it
    returns the last value drawn with the counter. [fuel] bounds the number
    of draws; [advance_draws] below is the number the loop needs. *)
Fixpoint advance_loop (fuel : nat) (s : SequenceNumber) (max_column_id : Z)
  : option (Z * SequenceNumber) :=
  match fuel with
  | O => None
  | S fuel' =>
      let '(drawn, s') := GetNext s in
      if drawn <? max_column_id then advance_loop fuel' s' max_column_id
      else Some (drawn, s')
  end.

Definition advance_draws (s : SequenceNumber) (max_column_id : Z) : nat :=
  S (Z.to_nat (max_column_id - word s)).

(** The counter after the loop. [advance_loop_exits] below shows that the
    loop leaves through its test within [advance_draws] draws for every
    counter and every [max_column_id] of the 64-bit range, so that the
    second case is not taken there. *)
Definition advance_past (s : SequenceNumber) (max_column_id : Z)
  : SequenceNumber :=
  match advance_loop (advance_draws s max_column_id) s max_column_id with
  | Some (_, s') => s'
  | None => s
  end.

(** ** The resolved AST

    [resolved_ast.h] is generated and not among the sources. The tree keeps
    the node kinds the rewriter looks at (literals and function calls) and a
    generic node for every other kind, with its children. Children are owned
    and never null. *)

Inductive SqlType :=
| TYPE_INT64 | TYPE_BOOL | TYPE_STRING | TYPE_DOUBLE
| TYPE_ARRAY (element : SqlType).

Global Instance SqlType_eq_dec : EqDecision SqlType.
Proof. solve_decision. Defined.

Inductive SqlValue :=
| NullValue (type : SqlType)
| Int64Value (v : Z)
| BoolValue (v : bool)
| StringValue (v : string).

Global Instance SqlValue_eq_dec : EqDecision SqlValue.
Proof. solve_decision. Defined.

Inductive FunctionSignatureId :=
| FN_NULLIFERROR
| FN_IFERROR
| FN_OTHER (id : Z).

Global Instance FunctionSignatureId_eq_dec : EqDecision FunctionSignatureId.
Proof. solve_decision. Defined.

Record Function := mkFunction {
  FunctionName : string;
  IsZetaSQLBuiltin : bool
}.

Global Instance Function_eq_dec : EqDecision Function.
Proof. solve_decision. Defined.

Inductive ErrorMode := DEFAULT_ERROR_MODE | SAFE_ERROR_MODE.

Global Instance ErrorMode_eq_dec : EqDecision ErrorMode.
Proof. solve_decision. Defined.

Inductive NodeClass := StatementNode | ExpressionNode | OtherNode.

Global Instance NodeClass_eq_dec : EqDecision NodeClass.
Proof. solve_decision. Defined.

(** [ResolvedOther] stands for every node kind that is neither a literal
    nor a function call; its [type] is read for expression nodes only. *)
Inductive ResolvedNode :=
| ResolvedLiteral (type : SqlType) (value : SqlValue) (has_explicit_type : bool)
| ResolvedFunctionCall (type : SqlType) (function : Function)
    (signature : FunctionSignatureId)
    (argument_list : list ResolvedNode) (hint_list : list ResolvedNode)
    (error_mode : ErrorMode)
| ResolvedOther (node_kind : string) (class : NodeClass) (type : SqlType)
    (children : list ResolvedNode).

Definition IsStatement (n : ResolvedNode) : bool :=
  match n with
  | ResolvedOther _ StatementNode _ _ => true
  | _ => false
  end.

Definition node_type (n : ResolvedNode) : SqlType :=
  match n with
  | ResolvedLiteral t _ _ => t
  | ResolvedFunctionCall t _ _ _ _ _ => t
  | ResolvedOther _ _ t _ => t
  end.

(** ** The NULLIFERROR rewriter
    ([zetasql/analyzer/rewriters/nulliferror_function_rewriter.cc]) *)

(** Modelled from the spec: [IsBuiltInFunctionIdEq] of [rewrite_utils.h]
    (not among the sources): the call is to a built-in function and its
    signature id is the given one. *)
Definition IsBuiltInFunctionIdEq (function : Function)
    (signature : FunctionSignatureId) (id : FunctionSignatureId) : bool :=
  bool_decide (signature = id) && IsZetaSQLBuiltin function.

(** Modelled from the spec: [FunctionCallBuilder::IfError] of
    [rewrite_utils.h] (not among the sources) builds the call
    [IFERROR(try_expr, handle_expr)], of the type of [try_expr]. *)
Definition iferror_function : Function := mkFunction "iferror" true.

Definition IfError (try_expr handle_expr : ResolvedNode)
  : StatusOr ResolvedNode :=
  Value (ResolvedFunctionCall (node_type try_expr) iferror_function FN_IFERROR
           [try_expr; handle_expr] [] DEFAULT_ERROR_MODE).

(** [ResolvedLiteralBuilder().set_type(t).set_value(Value::Null(t))
    .set_has_explicit_type(true).Build()] *)
Definition null_literal_of (t : SqlType) : ResolvedNode :=
  ResolvedLiteral t (NullValue t) true.

(** [RewriteNullIfError]; the node is passed as its fields. The check
    [argument_list_size() == 1] and the read of [argument_list[0]] are one
    match; a child is never null, so the check [try_expr != nullptr] has no
    failing case. *)
Definition RewriteNullIfError (type : SqlType) (function : Function)
    (signature : FunctionSignatureId)
    (argument_list hint_list : list ResolvedNode) (error_mode : ErrorMode)
  : StatusOr ResolvedNode :=
  match argument_list with
  | [try_expr] =>
      let null_literal := null_literal_of (node_type try_expr) in
      IfError try_expr null_literal
  | _ =>
      Error (RetCheckFailure
               "NULLIFERROR should have 1 expression argument.")
  end.

(** [PostVisitResolvedFunctionCall] *)
Definition PostVisitResolvedFunctionCall (type : SqlType) (function : Function)
    (signature : FunctionSignatureId)
    (argument_list hint_list : list ResolvedNode) (error_mode : ErrorMode)
  : StatusOr ResolvedNode :=
  if negb (IsBuiltInFunctionIdEq function signature FN_NULLIFERROR) then
    Value (ResolvedFunctionCall type function signature argument_list
             hint_list error_mode)
  else if (0 <? Z.of_nat (length hint_list)) then
    Error (UnimplementedError
             "The NULLIFERROR() operator does not support hints.")
  else
    RewriteNullIfError type function signature argument_list hint_list
      error_mode.

(** Visiting a list of children in order; the first error ends the visit. *)
Definition visit_children (visit : ResolvedNode -> StatusOr ResolvedNode)
  : list ResolvedNode -> StatusOr (list ResolvedNode) :=
  fix go (l : list ResolvedNode) : StatusOr (list ResolvedNode) :=
    match l with
    | [] => Value []
    | c :: l' =>
        match visit c with
        | Error e => Error e
        | Value c' =>
            match go l' with
            | Error e => Error e
            | Value l'' => Value (c' :: l'')
            end
        end
    end.

(** Modelled from the spec: [ResolvedASTRewriteVisitor::VisitAll] of
    [resolved_ast_rewrite_visitor.h] (not among the sources), the post-order
    transform of the design notes: "recurse, then optionally replace the
    current node", with the identity as the default post-visit of every kind
    the visitor does not override. *)
Fixpoint VisitAll (n : ResolvedNode) : StatusOr ResolvedNode :=
  match n with
  | ResolvedLiteral t v e => Value (ResolvedLiteral t v e)
  | ResolvedFunctionCall t f s args hints em =>
      match visit_children VisitAll args with
      | Error e => Error e
      | Value args' =>
          match visit_children VisitAll hints with
          | Error e => Error e
          | Value hints' => PostVisitResolvedFunctionCall t f s args' hints' em
          end
      end
  | ResolvedOther k c t ch =>
      match visit_children VisitAll ch with
      | Error e => Error e
      | Value ch' => Value (ResolvedOther k c t ch')
      end
  end.

(** Whether a built-in NULLIFERROR call occurs anywhere in the tree. *)
Fixpoint has_nulliferror (n : ResolvedNode) : bool :=
  match n with
  | ResolvedLiteral _ _ _ => false
  | ResolvedFunctionCall _ f s args hints _ =>
      IsBuiltInFunctionIdEq f s FN_NULLIFERROR
      || existsb has_nulliferror args || existsb has_nulliferror hints
  | ResolvedOther _ _ _ ch => existsb has_nulliferror ch
  end.

(** ** Analyzer output and analyzer options *)

(** Wall-clock durations are outside the model: a timed value counts the
    timed intervals accumulated into it. *)
Record TimedValue := mkTimedValue { accumulated_intervals : nat }.

Definition Accumulate (t : TimedValue) : TimedValue :=
  mkTimedValue (S (accumulated_intervals t)).

Record RewriterDetails := mkRewriterDetails {
  timed_value : TimedValue;
  count : nat
}.

Definition no_details : RewriterDetails := mkRewriterDetails (mkTimedValue 0) 0.

Record AnalyzerRuntimeInfo := mkAnalyzerRuntimeInfo {
  rewriters_timed_value : TimedValue;
  rewriters_details_map : gmap ResolvedASTRewrite RewriterDetails;
  validator_timed_value : TimedValue
}.

(** [runtime_info.rewriters_details(rule)]: the entry of the rule, created
    empty at the first access. *)
Definition rewriters_details (info : AnalyzerRuntimeInfo)
    (rule : ResolvedASTRewrite) : RewriterDetails :=
  default no_details (rewriters_details_map info !! rule).

Record AnalyzerOutputProperties := mkAnalyzerOutputProperties {
  relevant_rewrites : gset ResolvedASTRewrite;
  other_properties : gset string
}.

Definition ArenaPtr := nat.
Definition IdStringPoolPtr := nat.
Definition Catalog := nat.
Definition TypeFactory := nat.
Definition RewriterPtr := nat.

Record AnalyzerOutput := mkAnalyzerOutput {
  resolved_statement : option ResolvedNode;
  resolved_expr : option ResolvedNode;
  output_id_string_pool : option IdStringPoolPtr;
  output_arena : option ArenaPtr;
  max_column_id : Z;
  output_properties : AnalyzerOutputProperties;
  runtime_info : AnalyzerRuntimeInfo
}.

Record LanguageOptions := mkLanguageOptions {
  name_resolution_mode : NameResolutionMode;
  enabled_language_features : gset LanguageFeature
}.

Record AnalyzerOptions := mkAnalyzerOptions {
  language : LanguageOptions;
  enabled_rewrites : gset ResolvedASTRewrite;
  leading_rewriters : list RewriterPtr;
  trailing_rewriters : list RewriterPtr;
  allow_undeclared_parameters : bool;
  parameter_mode : ParameterMode;
  statement_context : StatementContext;
  arena : option ArenaPtr;
  id_string_pool : option IdStringPoolPtr;
  expression_columns : list (string * SqlType);
  column_id_sequence_number : option SequenceNumberPtr;
  error_message_mode : ErrorMessageMode;
  attach_error_location_payload : bool;
  fields_accessed_mode : FieldsAccessedMode;
  validate_resolved_ast : bool;
  allowed_hints_and_options : list string;
  pre_rewrite_callback : option (AnalyzerOutput -> Status)
}.

(** The rewriter interface ([rewriter_interface.h]): a name and [Rewrite].
    [Rewrite] consumes the input root, may change the output properties and
    may draw column ids from the sequence its options point to. *)
Record Rewriter := mkRewriter {
  Name : string;
  Rewrite :
    AnalyzerOptions -> option ResolvedNode -> Catalog -> TypeFactory ->
    AnalyzerOutputProperties -> SequenceStore ->
    StatusOr (option ResolvedNode) * AnalyzerOutputProperties * SequenceStore
}.

(** [NullIfErrorFunctionRewriter::Rewrite] *)
Definition NullIfErrorFunctionRewriter : Rewriter :=
  mkRewriter "NullIfErrorFunctionRewriter"
    (fun options input catalog type_factory output_properties sequences =>
       let result :=
         if negb (bool_decide (is_Some (id_string_pool options))) then
           Error (RetCheckFailure "options.id_string_pool() != nullptr")
         else if negb (bool_decide
                         (is_Some (column_id_sequence_number options))) then
           Error (RetCheckFailure
                    "options.column_id_sequence_number() != nullptr")
         else
           match input with
           | Some root =>
               match VisitAll root with
               | Value root' => Value (Some root')
               | Error e => Error e
               end
           | None => Error (RetCheckFailure "input != nullptr")
           end in
       (result, output_properties, sequences)).

(** ** The options builder *)

Definition set_name_resolution_mode (m : NameResolutionMode)
    (l : LanguageOptions) : LanguageOptions :=
  mkLanguageOptions m (enabled_language_features l).

Definition EnableLanguageFeature (f : LanguageFeature)
    (l : LanguageOptions) : LanguageOptions :=
  mkLanguageOptions (name_resolution_mode l)
    ({[ f ]} ∪ enabled_language_features l).

(** [AnalyzerOptionsForRewrite]: the options for the rewriters, with the
    fallback sequence as the call leaves it. *)
Definition AnalyzerOptionsForRewrite (analyzer_options : AnalyzerOptions)
    (analyzer_output : AnalyzerOutput)
    (fallback_sequence_number : SequenceNumber)
  : AnalyzerOptions * SequenceNumber :=
  let rewrite_language :=
    EnableLanguageFeature FEATURE_V_1_4_WITH_EXPRESSION
      (set_name_resolution_mode NAME_RESOLUTION_STRICT
         (language analyzer_options)) in
  let options_with (seq : option SequenceNumberPtr) :=
    mkAnalyzerOptions
      rewrite_language
      (enabled_rewrites analyzer_options)
      (leading_rewriters analyzer_options)
      (trailing_rewriters analyzer_options)
      false
      PARAMETER_NAMED
      CONTEXT_DEFAULT
      (output_arena analyzer_output)
      (output_id_string_pool analyzer_output)
      []
      seq
      (error_message_mode analyzer_options)
      (attach_error_location_payload analyzer_options)
      (fields_accessed_mode analyzer_options)
      (validate_resolved_ast analyzer_options)
      (allowed_hints_and_options analyzer_options)
      (pre_rewrite_callback analyzer_options) in
  match column_id_sequence_number analyzer_options with
  | None =>
      (options_with (Some FallbackSequence),
       advance_past fallback_sequence_number (max_column_id analyzer_output))
  | Some p => (options_with (Some p), fallback_sequence_number)
  end.

(** ** Collaborators of the driver

    The registry, the relevance scanner, the validator and the
    error-location conversion are not among the sources; the driver takes
    them, with the build's debug mode and the process flag, as one record.
    Options hold rewriters by pointer: [rewriter_at] reads the object. *)
Record Collaborators := mkCollaborators {
  ZETASQL_DEBUG_MODE : bool;
  FLAGS_zetasql_disable_rewriter_checker : bool;
  registration_order : list ResolvedASTRewrite;
  registry_Get : ResolvedASTRewrite -> option RewriterPtr;
  rewriter_at : RewriterPtr -> Rewriter;
  FindRelevantRewriters :
    option ResolvedNode -> StatusOr (gset ResolvedASTRewrite);
  ValidateResolvedStatement :
    LanguageOptions -> list string -> ResolvedNode -> Status;
  ValidateStandaloneResolvedExpr :
    LanguageOptions -> list string -> ResolvedNode -> Status;
  ConvertInternalErrorLocationAndAdjustErrorString :
    ErrorMessageMode -> bool -> string -> Status -> Status
}.

(** ** Driver state

    What a driver call can write: the caller's analyzer output, the sequence
    objects, and its locals [options_for_rewrite] and [last_rewrite_result].
    [trace] records, in order, the calls made to the collaborators. *)

Inductive Invocation :=
| LeadingRewriter (p : RewriterPtr)
| BuiltinRewriter (rule : ResolvedASTRewrite)
| TrailingRewriter (p : RewriterPtr).

Inductive Event :=
| EvPreRewriteCallback
| EvFindRelevantRewriters (root : option ResolvedNode)
| EvRewrite (who : Invocation)
| EvUpdate
| EvValidate
| EvMarkFieldsAccessed.

Definition is_rewrite_event (e : Event) : bool :=
  match e with EvRewrite _ => true | _ => false end.

Definition is_builtin_invocation (rule : ResolvedASTRewrite) (e : Event)
  : bool :=
  match e with
  | EvRewrite (BuiltinRewriter r) => bool_decide (r = rule)
  | _ => false
  end.

Definition is_update_event (e : Event) : bool :=
  match e with EvUpdate => true | _ => false end.

Record DriverState := mkDriverState {
  analyzer_output : AnalyzerOutput;
  sequences : SequenceStore;
  options_for_rewrite : option AnalyzerOptions;
  last_rewrite_result : option ResolvedNode;
  trace : list Event
}.

(** The state at entry: the locals are a fresh fallback sequence and two
    null pointers. *)
Definition entry_state (output : AnalyzerOutput)
    (caller_sequence : SequenceNumber) : DriverState :=
  mkDriverState output (mkSequenceStore caller_sequence fresh_sequence)
    None None [].

(** ** The monad of the driver: state, and early return with a status *)

Inductive Outcome (A : Type) :=
| Normal (a : A)
| Return (s : Status).
Arguments Normal {A} a.
Arguments Return {A} s.

Definition M (A : Type) : Type := DriverState -> Outcome A * DriverState.

Definition ret {A} (a : A) : M A := fun st => (Normal a, st).

Definition bind {A B} (m : M A) (k : A -> M B) : M B :=
  fun st =>
    match m st with
    | (Normal a, st') => k a st'
    | (Return s, st') => (Return s, st')
    end.

Declare Scope driver_scope.
Delimit Scope driver_scope with driver.
Notation "x <- m ;; k" := (bind m (fun x => k))
  (at level 100, m at next level, right associativity) : driver_scope.
Notation "m ;; k" := (bind m (fun _ => k))
  (at level 100, right associativity) : driver_scope.
Local Open Scope driver_scope.

Definition return_status {A} (s : Status) : M A := fun st => (Return s, st).
Definition get : M DriverState := fun st => (Normal st, st).
Definition put (st : DriverState) : M unit := fun _ => (Normal tt, st).

(** [ZETASQL_RET_CHECK(cond) << msg] *)
Definition RET_CHECK (cond : bool) (msg : string) : M unit :=
  if cond then ret tt else return_status (RetCheckFailure msg).

(** [ZETASQL_RETURN_IF_ERROR(status)] *)
Definition RETURN_IF_ERROR (s : Status) : M unit :=
  if status_ok s then ret tt else return_status s.

(** The status of a [StatusOr] that holds no value. absl turns an OK status
    given to the constructor of a [StatusOr] into an internal error, so the
    status of an error is never OK. *)
Definition status_of_error (e : Status) : Status :=
  if status_ok e then
    RetCheckFailure
      "An OK status is not a valid constructor argument to StatusOr<T>"
  else e.

(** [ZETASQL_ASSIGN_OR_RETURN(lhs, status_or)] *)
Definition ASSIGN_OR_RETURN {T} (r : StatusOr T) : M T :=
  match r with
  | Value v => ret v
  | Error e => return_status (status_of_error e)
  end.

(** The status a function body hands back, by its last [return] or by an
    early one. *)
Definition returned (o : Outcome Status) : Status :=
  match o with
  | Normal s => s
  | Return s => s
  end.

Definition log (e : Event) : M unit :=
  fun st =>
    (Normal tt,
     mkDriverState (analyzer_output st) (sequences st)
       (options_for_rewrite st) (last_rewrite_result st) (trace st ++ [e])).

Definition set_analyzer_output (o : AnalyzerOutput) : M unit :=
  fun st =>
    (Normal tt,
     mkDriverState o (sequences st) (options_for_rewrite st)
       (last_rewrite_result st) (trace st)).

Definition set_last_rewrite_result (r : option ResolvedNode) : M unit :=
  fun st =>
    (Normal tt,
     mkDriverState (analyzer_output st) (sequences st)
       (options_for_rewrite st) r (trace st)).

Definition with_runtime_info (i : AnalyzerRuntimeInfo) (o : AnalyzerOutput)
  : AnalyzerOutput :=
  mkAnalyzerOutput (resolved_statement o) (resolved_expr o)
    (output_id_string_pool o) (output_arena o) (max_column_id o)
    (output_properties o) i.

Definition with_output_properties (p : AnalyzerOutputProperties)
    (o : AnalyzerOutput) : AnalyzerOutput :=
  mkAnalyzerOutput (resolved_statement o) (resolved_expr o)
    (output_id_string_pool o) (output_arena o) (max_column_id o)
    p (runtime_info o).

(** ** The output mutator *)

(** Modelled from the spec: [AnalyzerOutputMutator::release_output_node]
    ([analyzer_output_mutator.h] is not among the sources) "transfers root
    ownership out": the root leaves the output, whose slot becomes null. *)
Definition release_output_node (o : AnalyzerOutput)
  : option ResolvedNode * AnalyzerOutput :=
  match resolved_statement o with
  | Some s =>
      (Some s,
       mkAnalyzerOutput None (resolved_expr o) (output_id_string_pool o)
         (output_arena o) (max_column_id o) (output_properties o)
         (runtime_info o))
  | None =>
      (resolved_expr o,
       mkAnalyzerOutput None None (output_id_string_pool o)
         (output_arena o) (max_column_id o) (output_properties o)
         (runtime_info o))
  end.

(** Modelled from the spec: [AnalyzerOutputMutator::Update]
    ([analyzer_output_mutator.h] is not among the sources) "re-installs
    root, updates max_column_id": the root goes to the statement slot or to
    the expression slot by its kind, and [max_column_id] becomes the last
    value the sequence handed out. A null root is an error. *)
Definition Update (node : option ResolvedNode) (seq : SequenceNumber)
    (o : AnalyzerOutput) : Status * AnalyzerOutput :=
  match node with
  | None => (RetCheckFailure "node != nullptr", o)
  | Some n =>
      let max_id := wrap64 (word seq - 1) in
      if IsStatement n then
        (OkStatus,
         mkAnalyzerOutput (Some n) (resolved_expr o)
           (output_id_string_pool o) (output_arena o) max_id
           (output_properties o) (runtime_info o))
      else
        (OkStatus,
         mkAnalyzerOutput (resolved_statement o) (Some n)
           (output_id_string_pool o) (output_arena o) max_id
           (output_properties o) (runtime_info o))
  end.

(** [NodeFromAnalyzerOutput] *)
Definition NodeFromAnalyzerOutput (output : AnalyzerOutput)
  : option ResolvedNode :=
  match resolved_statement output with
  | Some s => Some s
  | None => resolved_expr output
  end.

(** ** The driver ([zetasql/analyzer/rewrite_resolved_ast.cc]) *)

Definition kMaxIterations : Z := 25.

Definition max_iterations_message : string :=
  "Query exceeded configured maximum number of rewriter iterations ("
  +:+ pretty kMaxIterations +:+ ") without converging.".

Section Driver.

Variable env : Collaborators.
Variable analyzer_options : AnalyzerOptions.
Variable catalog : Catalog.
Variable type_factory : TypeFactory.

(** [runtime_info.rewriters_timed_value().Accumulate(rewriter_timer)] *)
Definition accumulate_rewriter_timer : M unit :=
  st <- get;;
  let info := runtime_info (analyzer_output st) in
  set_analyzer_output
    (with_runtime_info
       (mkAnalyzerRuntimeInfo (Accumulate (rewriters_timed_value info))
          (rewriters_details_map info) (validator_timed_value info))
       (analyzer_output st)).

(** The scoped timer on [runtime_info.validator_timed_value()]. *)
Definition accumulate_validator_timer : M unit :=
  st <- get;;
  let info := runtime_info (analyzer_output st) in
  set_analyzer_output
    (with_runtime_info
       (mkAnalyzerRuntimeInfo (rewriters_timed_value info)
          (rewriters_details_map info)
          (Accumulate (validator_timed_value info)))
       (analyzer_output st)).

(** Lines 252-256: the details of the rule get a scoped timer, which
    accumulates into their timed value when the loop body is left, and
    their count is incremented. *)
Definition record_rewriter_details (ast_rewrite : ResolvedASTRewrite)
  : M unit :=
  st <- get;;
  let info := runtime_info (analyzer_output st) in
  let details := rewriters_details info ast_rewrite in
  set_analyzer_output
    (with_runtime_info
       (mkAnalyzerRuntimeInfo (rewriters_timed_value info)
          (<[ ast_rewrite :=
                mkRewriterDetails (Accumulate (timed_value details))
                  (S (count details)) ]> (rewriters_details_map info))
          (validator_timed_value info))
       (analyzer_output st)).

(** Lines 156-179: the relevance sets of the resolver and of the checker,
    and the choice between them. *)
Definition detect_rewrites : M (gset ResolvedASTRewrite) :=
  st <- get;;
  let resolver_detected_rewrites :=
    relevant_rewrites (output_properties (analyzer_output st)) in
  let rewrite_input := NodeFromAnalyzerOutput (analyzer_output st) in
  RET_CHECK (bool_decide (is_Some rewrite_input)) "rewrite_input != nullptr";;
  checker_detected_rewrites <-
    (if ZETASQL_DEBUG_MODE env
        || negb (FLAGS_zetasql_disable_rewriter_checker env)
     then
       log (EvFindRelevantRewriters rewrite_input);;
       checker <- ASSIGN_OR_RETURN (FindRelevantRewriters env rewrite_input);;
       (if ZETASQL_DEBUG_MODE env
           && negb (bool_decide (resolver_detected_rewrites = ∅))
        then
          RET_CHECK (bool_decide (resolver_detected_rewrites = checker))
            "absl::c_equal(resolver_detected_rewrites, checker_detected_rewrites)"
        else ret tt);;
       ret checker
     else ret ∅);;
  ret (if FLAGS_zetasql_disable_rewriter_checker env
       then resolver_detected_rewrites
       else checker_detected_rewrites).

(** The lazy initialisation
    [if (options_for_rewrite == nullptr) { ... }]: the options are built
    and the root is released from the output into [last_rewrite_result]. *)
Definition ensure_options_for_rewrite : M AnalyzerOptions :=
  st <- get;;
  match options_for_rewrite st with
  | Some options => ret options
  | None =>
      let '(options, fallback) :=
        AnalyzerOptionsForRewrite analyzer_options (analyzer_output st)
          (fallback_sequence_number (sequences st)) in
      let '(root, output) := release_output_node (analyzer_output st) in
      put (mkDriverState output
             (mkSequenceStore (caller_sequence (sequences st)) fallback)
             (Some options) root (trace st));;
      ret options
  end.

(** One call [rewriter->Rewrite] under [ZETASQL_ASSIGN_OR_RETURN]: the
    rewriter consumes [last_rewrite_result] (moved into the call), may
    write the output properties and the sequences, and its result, when
    it is not an error, becomes the new [last_rewrite_result]. *)
Definition invoke_rewriter (who : Invocation) (rewriter : Rewriter)
    (options : AnalyzerOptions) : M unit :=
  st <- get;;
  let '(result, properties, seqs) :=
    Rewrite rewriter options (last_rewrite_result st) catalog type_factory
      (output_properties (analyzer_output st)) (sequences st) in
  put (mkDriverState
         (with_output_properties properties (analyzer_output st))
         seqs (options_for_rewrite st) None
         (trace st ++ [EvRewrite who]));;
  new_root <- ASSIGN_OR_RETURN result;;
  set_last_rewrite_result new_root.

(** Lines 206-215 and 298-307: the body of the loops over the user-supplied
    rewriters. *)
Definition apply_user_rewriter (who : RewriterPtr -> Invocation)
    (rewriter : RewriterPtr) : M unit :=
  options <- ensure_options_for_rewrite;;
  invoke_rewriter (who rewriter) (rewriter_at env rewriter) options.

(** Lines 204-216 and 296-308: the user-supplied rewriters, once each. *)
Fixpoint run_user_rewriters (who : RewriterPtr -> Invocation)
    (rewriters : list RewriterPtr) : M unit :=
  match rewriters with
  | [] => ret tt
  | rewriter :: rest =>
      apply_user_rewriter who rewriter;;
      run_user_rewriters who rest
  end.

(** Lines 241-267: the body of the sweep for a rule of the apply-set. *)
Definition apply_builtin_rewriter (ast_rewrite : ResolvedASTRewrite)
  : M unit :=
  options <- ensure_options_for_rewrite;;
  rewriter <-
    match registry_Get env ast_rewrite with
    | Some p => ret (rewriter_at env p)
    | None =>
        return_status
          (RetCheckFailure
             "Requested rewriter was not present in the registry")
    end;;
  record_rewriter_details ast_rewrite;;
  invoke_rewriter (BuiltinRewriter ast_rewrite) rewriter options;;
  st <- get;;
  RET_CHECK (bool_decide (is_Some (last_rewrite_result st)))
    "Rewriter returned nullptr on input".

(** Lines 235-277: one sweep over the registration order. *)
Fixpoint sweep (order : list ResolvedASTRewrite)
    (rewrites_to_apply : gset ResolvedASTRewrite) : M unit :=
  match order with
  | [] => ret tt
  | ast_rewrite :: rest =>
      (if bool_decide (ast_rewrite ∈ rewrites_to_apply)
       then apply_builtin_rewriter ast_rewrite
       else ret tt);;
      sweep rest rewrites_to_apply
  end.

(** Lines 279-289: the apply-set after a sweep. *)
Definition recompute_rewrites_to_apply : M (gset ResolvedASTRewrite) :=
  st <- get;;
  log (EvFindRelevantRewriters (last_rewrite_result st));;
  checker_detected_rewrites <-
    ASSIGN_OR_RETURN (FindRelevantRewriters env (last_rewrite_result st));;
  ret ((enabled_rewrites analyzer_options ∩ checker_detected_rewrites)
         ∖ {[ REWRITE_ANONYMIZATION ]}).

(** Lines 227-290: the [do { ... } while (!rewrites_to_apply.empty())].
    The recursion is on [fuel]; the guard [++iterations > kMaxIterations]
    leaves the loop before a fuel of [kMaxIterations + 1 - iterations]
    runs out ([convergence_loop_fuel] below). *)
Fixpoint convergence_loop (fuel : nat) (iterations : Z)
    (rewrites_to_apply : gset ResolvedASTRewrite) : M unit :=
  match fuel with
  | O => return_status (RetCheckFailure "loop bound")
  | S fuel' =>
      let iterations := iterations + 1 in
      if kMaxIterations <? iterations then
        return_status (ResourceExhaustedError max_iterations_message)
      else
        sweep (registration_order env) rewrites_to_apply;;
        rewrites_to_apply <- recompute_rewrites_to_apply;;
        if bool_decide (rewrites_to_apply = ∅) then ret tt
        else convergence_loop fuel' iterations rewrites_to_apply
  end.

(** Lines 310-339: installation, validation, field marking. *)
Definition install_rewrite_result : M unit :=
  st <- get;;
  match options_for_rewrite st with
  | None => ret tt
  | Some options =>
      let seq :=
        deref_sequence
          (default FallbackSequence (column_id_sequence_number options))
          (sequences st) in
      let '(status, output) :=
        Update (last_rewrite_result st) seq (analyzer_output st) in
      put (mkDriverState output (sequences st) (options_for_rewrite st)
             None (trace st ++ [EvUpdate]));;
      RETURN_IF_ERROR status;;
      (if validate_resolved_ast options then
         accumulate_validator_timer;;
         log EvValidate;;
         match resolved_statement output with
         | Some statement =>
             RETURN_IF_ERROR
               (ValidateResolvedStatement env (language analyzer_options)
                  (allowed_hints_and_options analyzer_options) statement)
         | None =>
             match resolved_expr output with
             | None =>
                 return_status
                   (RetCheckFailure
                      "analyzer_output.resolved_expr() != nullptr")
             | Some expr =>
                 RETURN_IF_ERROR
                   (ValidateStandaloneResolvedExpr env
                      (language analyzer_options)
                      (allowed_hints_and_options analyzer_options) expr)
             end
         end
       else ret tt);;
      match fields_accessed_mode analyzer_options with
      | LEGACY_FIELDS_ACCESSED_MODE =>
          match NodeFromAnalyzerOutput output with
          | Some _ => log EvMarkFieldsAccessed
          | None => ret tt
          end
      | _ => ret tt
      end
  end.

Definition no_user_rewriters : bool :=
  bool_decide (leading_rewriters analyzer_options = [])
  && bool_decide (trailing_rewriters analyzer_options = []).

(** The locals of the function at its entry: a new
    [fallback_sequence_number] and two null pointers. *)
Definition declare_locals : M unit :=
  st <- get;;
  put (mkDriverState (analyzer_output st)
         (mkSequenceStore (caller_sequence (sequences st)) fresh_sequence)
         None None (trace st)).

(** [InternalRewriteResolvedAstNoConvertErrorLocation], lines 139-308: the
    detection, the two early exits, the leading rewriters, the convergence
    loop and the trailing rewriters. *)
Definition rewrite_passes : M unit :=
  declare_locals;;
  detected_rewrites <- detect_rewrites;;
  (if bool_decide (detected_rewrites = ∅) && no_user_rewriters then
     accumulate_rewriter_timer;; return_status OkStatus
   else ret tt);;
  let rewrites_to_apply :=
    enabled_rewrites analyzer_options ∩ detected_rewrites in
  (if bool_decide (rewrites_to_apply = ∅) && no_user_rewriters then
     accumulate_rewriter_timer;; return_status OkStatus
   else ret tt);;
  run_user_rewriters LeadingRewriter (leading_rewriters analyzer_options);;
  (if negb (bool_decide (rewrites_to_apply = ∅)) then
     convergence_loop (S (Z.to_nat kMaxIterations)) 0 rewrites_to_apply
   else ret tt);;
  accumulate_rewriter_timer;;
  run_user_rewriters TrailingRewriter (trailing_rewriters analyzer_options).

(** [InternalRewriteResolvedAstNoConvertErrorLocation] *)
Definition InternalRewriteResolvedAstNoConvertErrorLocation : M Status :=
  rewrite_passes;;
  install_rewrite_result;;
  st <- get;;
  RET_CHECK
    (bool_decide (is_Some (resolved_statement (analyzer_output st)))
     || bool_decide (is_Some (resolved_expr (analyzer_output st))))
    "analyzer_output.resolved_statement() != nullptr || analyzer_output.resolved_expr() != nullptr";;
  ret OkStatus.

(** [InternalRewriteResolvedAst] *)
Definition InternalRewriteResolvedAst (sql : string) : M Status :=
  match pre_rewrite_callback analyzer_options with
  | Some callback =>
      st <- get;;
      log EvPreRewriteCallback;;
      RETURN_IF_ERROR (callback (analyzer_output st))
  | None => ret tt
  end;;
  st <- get;;
  if bool_decide (enabled_rewrites analyzer_options = ∅)
     || (negb (bool_decide (is_Some (resolved_statement (analyzer_output st))))
         && negb (bool_decide (is_Some (resolved_expr (analyzer_output st)))))
  then ret OkStatus
  else
    fun st =>
      let '(outcome, st') :=
        InternalRewriteResolvedAstNoConvertErrorLocation st in
      (Normal
         (ConvertInternalErrorLocationAndAdjustErrorString env
            (error_message_mode analyzer_options)
            (attach_error_location_payload analyzer_options) sql
            (returned outcome)),
       st').

End Driver.

(** A driver call on the caller's objects: the status handed back and the
    state it leaves. *)
Definition run_driver (m : M Status) (st : DriverState)
  : Status * DriverState :=
  let '(outcome, st') := m st in (returned outcome, st').

(** ** A concrete setting

    A registry with two rules, a scanner for their triggers, and a few
    user-supplied rewriters; the examples below run the driver in it. *)
Module Example.

Definition REWRITE_LOOPING : ResolvedASTRewrite := REWRITE_OTHER 1.

Definition nulliferror_function : Function := mkFunction "nulliferror" true.

(** [NULLIFERROR(x)] *)
Definition nulliferror_call (x : ResolvedNode) : ResolvedNode :=
  ResolvedFunctionCall (node_type x) nulliferror_function FN_NULLIFERROR
    [x] [] DEFAULT_ERROR_MODE.

(** [NULLIFERROR(x)] with a hint. *)
Definition hinted_nulliferror_call (x hint : ResolvedNode) : ResolvedNode :=
  ResolvedFunctionCall (node_type x) nulliferror_function FN_NULLIFERROR
    [x] [hint] DEFAULT_ERROR_MODE.

Definition column_x : ResolvedNode :=
  ResolvedOther "ResolvedColumnRef" ExpressionNode TYPE_INT64 [].

Definition literal_1 : ResolvedNode :=
  ResolvedLiteral TYPE_INT64 (Int64Value 1) false.

(** A node whose kind is the trigger of [REWRITE_LOOPING]. *)
Definition looping_expr : ResolvedNode :=
  ResolvedOther "Looping" ExpressionNode TYPE_INT64 [].

Definition query_stmt (output_expr : ResolvedNode) : ResolvedNode :=
  ResolvedOther "ResolvedQueryStmt" StatementNode TYPE_INT64 [output_expr].

Fixpoint has_looping (n : ResolvedNode) : bool :=
  match n with
  | ResolvedLiteral _ _ _ => false
  | ResolvedFunctionCall _ _ _ args hints _ =>
      existsb has_looping args || existsb has_looping hints
  | ResolvedOther k _ _ ch =>
      bool_decide (k = "Looping") || existsb has_looping ch
  end.

Definition scanner (root : option ResolvedNode)
  : StatusOr (gset ResolvedASTRewrite) :=
  match root with
  | None => Error (RetCheckFailure "node != nullptr")
  | Some n =>
      Value ((if has_nulliferror n
              then {[ REWRITE_NULLIFERROR_FUNCTION ]} else ∅)
             ∪ (if has_looping n then {[ REWRITE_LOOPING ]} else ∅))
  end.

(** A rewriter that hands its input back: its trigger stays. *)
Definition identity_rewriter : Rewriter :=
  mkRewriter "IdentityRewriter"
    (fun _ input _ _ properties seqs => (Value input, properties, seqs)).

(** A user rewriter that wraps the root in [NULLIFERROR]. *)
Definition wrapping_rewriter : Rewriter :=
  mkRewriter "WrappingRewriter"
    (fun _ input _ _ properties seqs =>
       (Value (option_map nulliferror_call input), properties, seqs)).

Definition rewriter_objects (p : RewriterPtr) : Rewriter :=
  match p with
  | 0%nat => NullIfErrorFunctionRewriter
  | 1%nat => identity_rewriter
  | _ => wrapping_rewriter
  end.

Definition registry (rule : ResolvedASTRewrite) : option RewriterPtr :=
  match rule with
  | REWRITE_NULLIFERROR_FUNCTION => Some 0%nat
  | REWRITE_OTHER 1 => Some 1%nat
  | _ => None
  end.

(** A conversion that turns the internal location payload into text. *)
Definition convert (mode : ErrorMessageMode) (attach : bool) (sql : string)
    (s : Status) : Status :=
  match internal_error_location s with
  | Some offset =>
      mkStatus (code s) (message s +:+ " [at " +:+ pretty offset +:+ "]") None
  | None => s
  end.

Definition accept (_ : LanguageOptions) (_ : list string)
    (_ : ResolvedNode) : Status := OkStatus.

Definition reject (_ : LanguageOptions) (_ : list string)
    (_ : ResolvedNode) : Status :=
  mkStatus kInternal "Invalid resolved AST" None.

Definition env : Collaborators :=
  mkCollaborators false false
    [REWRITE_NULLIFERROR_FUNCTION; REWRITE_LOOPING]
    registry rewriter_objects scanner accept accept convert.

(** The same collaborators with a validator that rejects every tree. *)
Definition env_rejecting : Collaborators :=
  mkCollaborators false false
    [REWRITE_NULLIFERROR_FUNCTION; REWRITE_LOOPING]
    registry rewriter_objects scanner reject reject convert.

Definition options (enabled : gset ResolvedASTRewrite)
    (leading trailing : list RewriterPtr)
    (callback : option (AnalyzerOutput -> Status)) : AnalyzerOptions :=
  mkAnalyzerOptions
    (mkLanguageOptions NAME_RESOLUTION_DEFAULT ∅)
    enabled leading trailing true PARAMETER_NONE CONTEXT_DEFAULT
    None None [] None ERROR_MESSAGE_ONE_LINE false CLEAR_FIELDS true []
    callback.

Definition no_runtime_info : AnalyzerRuntimeInfo :=
  mkAnalyzerRuntimeInfo (mkTimedValue 0) ∅ (mkTimedValue 0).

Definition output_of (statement expr : option ResolvedNode) (max_id : Z)
  : AnalyzerOutput :=
  mkAnalyzerOutput statement expr (Some 1%nat) (Some 1%nat) max_id
    (mkAnalyzerOutputProperties ∅ ∅) no_runtime_info.

Definition failing_callback (_ : AnalyzerOutput) : Status :=
  mkStatus kInvalidArgument "rejected by the callback" (Some 7).

(** A debug build of the same collaborators. *)
Definition env_debug : Collaborators :=
  mkCollaborators true false
    [REWRITE_NULLIFERROR_FUNCTION; REWRITE_LOOPING]
    registry rewriter_objects scanner accept accept convert.

(** [SELECT NULLIFERROR(x)] as a resolver would leave it that reported the
    looping rule and missed the NULLIFERROR rule. *)
Definition mismatch_state : DriverState :=
  entry_state
    (mkAnalyzerOutput
       (Some (query_stmt (nulliferror_call column_x))) None
       (Some 1%nat) (Some 1%nat) 3
       (mkAnalyzerOutputProperties {[ REWRITE_LOOPING ]} ∅) no_runtime_info)
    fresh_sequence.

(** [SELECT 1], [SELECT NULLIFERROR(x)], the expression [NULLIFERROR(x)],
    an expression with the trigger of the looping rule, and an output
    without a root, each as the state at the entry of a call. *)
Definition select_1_state : DriverState :=
  entry_state (output_of (Some (query_stmt literal_1)) None 3) fresh_sequence.

Definition nulliferror_state : DriverState :=
  entry_state
    (output_of (Some (query_stmt (nulliferror_call column_x))) None 3)
    fresh_sequence.

Definition nulliferror_expr_state : DriverState :=
  entry_state (output_of None (Some (nulliferror_call column_x)) 3)
    fresh_sequence.

Definition looping_state : DriverState :=
  entry_state (output_of None (Some looping_expr) 3) fresh_sequence.

Definition rootless_state : DriverState :=
  entry_state (output_of None None 0) fresh_sequence.

(** Options that enable one rule; with a trailing rewriter; with a
    callback that fails; and options that enable no rule. *)
Definition nulliferror_options : AnalyzerOptions :=
  options {[ REWRITE_NULLIFERROR_FUNCTION ]} [] [] None.

Definition looping_options : AnalyzerOptions :=
  options {[ REWRITE_LOOPING ]} [] [] None.

Definition wrapping_options : AnalyzerOptions :=
  options {[ REWRITE_NULLIFERROR_FUNCTION ]} [] [2%nat] None.

Definition callback_options : AnalyzerOptions :=
  options {[ REWRITE_NULLIFERROR_FUNCTION ]} [] [] (Some failing_callback).

Definition no_rule_options : AnalyzerOptions := options ∅ [] [] None.

End Example.

(** ** The parser runtime info ([zetasql/parser/parser_runtime_info.h]) *)

(** [ExecutionStats::ParserVariant] *)
Inductive ParserVariant :=
| PARSER_UNSPECIFIED
| PARSER_BISON
| PARSER_TEXTMAPPER.

Global Instance ParserVariant_eq_dec : EqDecision ParserVariant.
Proof. solve_decision. Defined.

(** The two language features the header reads. They are enumerators of
    [LanguageFeature] in [options.proto]; the tag tells each from the
    other features. *)
Definition FEATURE_TEXTMAPPER_PARSER : LanguageFeature := FEATURE_OTHER 1.
Definition FEATURE_SHADOW_PARSING : LanguageFeature := FEATURE_OTHER 2.

(** [LanguageOptions::LanguageFeatureEnabled] *)
Definition LanguageFeatureEnabled (feature : LanguageFeature)
    (language_options : LanguageOptions) : bool :=
  bool_decide (feature ∈ enabled_language_features language_options).

(** [GetPrimaryParser] *)
Definition GetPrimaryParser (language_options : LanguageOptions)
  : ParserVariant :=
  if LanguageFeatureEnabled FEATURE_TEXTMAPPER_PARSER language_options
  then PARSER_TEXTMAPPER
  else PARSER_BISON.

(** [GetShadowParser] *)
Definition GetShadowParser (language_options : LanguageOptions)
  : ParserVariant :=
  if negb (LanguageFeatureEnabled FEATURE_SHADOW_PARSING language_options)
  then PARSER_UNSPECIFIED
  else if LanguageFeatureEnabled FEATURE_TEXTMAPPER_PARSER language_options
       then PARSER_BISON
       else PARSER_TEXTMAPPER.

(** [ParserRuntimeInfo]: the timed value of the parser and the number of
    lexical tokens, an [int64_t] that starts at 0. *)
Record ParserRuntimeInfo := mkParserRuntimeInfo {
  parser_timed_value : TimedValue;
  num_lexical_tokens : Z
}.

(** [ParserRuntimeInfo::add_lexical_tokens]: [+=] on [int64_t]. *)
Definition add_lexical_tokens (tokens : Z) (info : ParserRuntimeInfo)
  : ParserRuntimeInfo :=
  mkParserRuntimeInfo (parser_timed_value info)
    (wrap64 (num_lexical_tokens info + tokens)).

(** [ParserRuntimeInfo::AccumulateAll]. [TimedValue::Accumulate] on another
    timed value is in [timer_util.h], which is not among the sources: the
    function takes it as [accumulate]. *)
Definition AccumulateAll (accumulate : TimedValue -> TimedValue -> TimedValue)
    (info rhs : ParserRuntimeInfo) : ParserRuntimeInfo :=
  mkParserRuntimeInfo
    (accumulate (parser_timed_value info) (parser_timed_value rhs))
    (wrap64 (num_lexical_tokens info + num_lexical_tokens rhs)).

(** ** The writers of execute_query
    ([zetasql/tools/execute_query/execute_query_writer.h]) *)

Module ExecuteQuery.

(** [std::endl] writes a line feed. *)
Definition endl : string := String (Ascii.ascii_of_nat 10) EmptyString.

(** The virtual method [WriteOperationString] of a writer whose state is
    [W]: the other methods reach it through the object. *)
Class ExecuteQueryWriter (W : Type) :=
  WriteOperationString : string -> string -> W -> Status * W.

Section Methods.

Context {W : Type} `{ExecuteQueryWriter W}.

(** [ExecuteQueryWriter::parsed] *)
Definition parsed (parse_debug_string : string) : W -> Status * W :=
  WriteOperationString "parsed" parse_debug_string.

(** [ExecuteQueryWriter::unparsed] *)
Definition unparsed (unparse_string : string) : W -> Status * W :=
  WriteOperationString "unparsed" unparse_string.

(** [ExecuteQueryWriter::unanalyze] *)
Definition unanalyze (unanalyze_string : string) : W -> Status * W :=
  WriteOperationString "unanalyze" unanalyze_string.

(** [ExecuteQueryWriter::resolved] *)
Definition resolved (ast : ResolvedNode) (w : W) : Status * W :=
  (UnimplementedError "ExecuteQueryWriter::resolved is not implemented", w).

(** [ExecuteQueryWriter::explained] *)
Definition explained (ast : ResolvedNode) (explain : string) (w : W)
  : Status * W :=
  (UnimplementedError "ExecuteQueryWriter::explained is not implemented", w).

(** [ExecuteQueryWriter::executed]; the iterator is held by pointer. *)
Definition executed (ast : ResolvedNode) (iter : nat) (w : W) : Status * W :=
  (UnimplementedError "ExecuteQueryWriter::executed is not implemented", w).

(** [ExecuteQueryWriter::ExecutedExpression] *)
Definition ExecutedExpression (ast : ResolvedNode) (value : SqlValue) (w : W)
  : Status * W :=
  (UnimplementedError "ExecuteQueryWriter::executed is not implemented", w).

End Methods.

(** [ExecuteQueryWriter::WriteOperationString], the method of the base
    class; the base class has no state. *)
Definition base_WriteOperationString (operation_name str : string) (w : unit)
  : Status * unit :=
  (UnimplementedError
     ("ExecuteQueryWriter does not implement " +:+ operation_name), w).

Definition BaseWriter : ExecuteQueryWriter unit := base_WriteOperationString.

(** What has been written to a [std::ostream]. *)
Definition ostream := string.

(** [ExecuteQueryStreamWriter::WriteOperationString] *)
Definition stream_WriteOperationString (operation_name str : string)
    (stream_ : ostream) : Status * ostream :=
  (OkStatus, stream_ +:+ str +:+ endl).

Definition ExecuteQueryStreamWriter : ExecuteQueryWriter ostream :=
  stream_WriteOperationString.

(** The operations that write a string. *)
Inductive StringOperation :=
| Parsed (parse_debug_string : string)
| Unparsed (unparse_string : string)
| Unanalyze (unanalyze_string : string).

Definition written (op : StringOperation) : string :=
  match op with
  | Parsed s => s
  | Unparsed s => s
  | Unanalyze s => s
  end.

Definition operation_name (op : StringOperation) : string :=
  match op with
  | Parsed _ => "parsed"
  | Unparsed _ => "unparsed"
  | Unanalyze _ => "unanalyze"
  end.

(** A call of the operation on a writer. *)
Definition call {W : Type} (writer : ExecuteQueryWriter W)
    (op : StringOperation) : W -> Status * W :=
  match op with
  | Parsed s => @parsed W writer s
  | Unparsed s => @unparsed W writer s
  | Unanalyze s => @unanalyze W writer s
  end.

(** Calls one after the other, whatever they return: their statuses and
    the state of the writer after them. *)
Fixpoint calls {W : Type} (writer : ExecuteQueryWriter W)
    (ops : list StringOperation) (w : W) : list Status * W :=
  match ops with
  | [] => ([], w)
  | op :: rest =>
      let '(status, w') := call writer op w in
      let '(statuses, w'') := calls writer rest w' in
      (status :: statuses, w'')
  end.

(** The lines of the strings of the operations. *)
Fixpoint lines (ops : list StringOperation) : string :=
  match ops with
  | [] => EmptyString
  | op :: rest => written op +:+ endl +:+ lines rest
  end.

End ExecuteQuery.

(** ** Specifications of driver computations *)

(** A triple: from a state in [P], the computation ends normally in [Q] or
    returns early in [R]. *)
Definition triple {A} (P : DriverState -> Prop) (m : M A)
    (Q : A -> DriverState -> Prop) (R : Status -> DriverState -> Prop)
  : Prop :=
  forall st, P st ->
    match m st with
    | (Normal a, st') => Q a st'
    | (Return s, st') => R s st'
    end.

Definition preserves {A} (I : DriverState -> Prop) (m : M A) : Prop :=
  triple I m (fun _ => I) (fun _ => I).

(** The computation returns early with errors only. *)
Definition fails_only {A} (m : M A) : Prop :=
  forall st s st', m st = (Return s, st') -> status_ok s = false.

Definition details_of (st : DriverState) (rule : ResolvedASTRewrite)
  : RewriterDetails :=
  rewriters_details (runtime_info (analyzer_output st)) rule.

Definition count_events (p : Event -> bool) (t : list Event) : nat :=
  length (List.filter p t).

(** The expression slot once the root has been released. *)
Definition released_expr (o : AnalyzerOutput) : option ResolvedNode :=
  match resolved_statement o with
  | Some _ => resolved_expr o
  | None => None
  end.

(** What the passes before the installation keep, from the state [st0] at
    which the locals were declared to the state [st], [new] being the calls
    made in between, all of them [allowed]. *)
Record progress (allowed : Event -> bool) (st0 st : DriverState)
    (new : list Event) : Prop := mk_progress {
  pg_trace : trace st = trace st0 ++ new;
  pg_allowed : Forall (fun e => allowed e = true) new;
  pg_no_update : Forall (fun e => is_update_event e = false) new;
  pg_max_column_id :
    max_column_id (analyzer_output st) = max_column_id (analyzer_output st0);
  pg_caller_kept :
    options_for_rewrite st = None -> sequences st = sequences st0;
  pg_count :
    forall rule,
      count (details_of st rule)
      = (count (details_of st0 rule)
         + count_events (is_builtin_invocation rule) new)%nat;
  pg_timer :
    forall rule,
      accumulated_intervals (timed_value (details_of st rule))
      = (accumulated_intervals (timed_value (details_of st0 rule))
         + count_events (is_builtin_invocation rule) new)%nat;
  pg_unbuilt :
    options_for_rewrite st = None ->
    resolved_statement (analyzer_output st)
    = resolved_statement (analyzer_output st0) /\
    resolved_expr (analyzer_output st) = resolved_expr (analyzer_output st0) /\
    output_properties (analyzer_output st)
    = output_properties (analyzer_output st0) /\
    last_rewrite_result st = None /\
    Forall (fun e => is_rewrite_event e = false) new;
  pg_built :
    options_for_rewrite st <> None ->
    resolved_statement (analyzer_output st) = None /\
    resolved_expr (analyzer_output st) = released_expr (analyzer_output st0)
}.

Definition in_progress (allowed : Event -> bool) (st0 st : DriverState)
  : Prop :=
  exists new, progress allowed st0 st new.

(** The options for the rewriters have been built. *)
Definition built (st : DriverState) : Prop := options_for_rewrite st <> None.

Definition any_event (_ : Event) : bool := true.

(** The state in which the passes start: the state at entry with the locals
    of the function declared. *)
Definition declared (st : DriverState) : DriverState :=
  mkDriverState (analyzer_output st)
    (mkSequenceStore (caller_sequence (sequences st)) fresh_sequence)
    None None (trace st).

(** The scanner finds, in the tree [root], no enabled rule but perhaps the
    anonymization rule. *)
Definition at_fixed_point (env : Collaborators)
    (analyzer_options : AnalyzerOptions) (root : option ResolvedNode)
  : Prop :=
  exists checker,
    FindRelevantRewriters env root = Value checker /\
    (enabled_rewrites analyzer_options ∩ checker)
      ∖ {[ REWRITE_ANONYMIZATION ]} = ∅.

Definition not_builtin_event (e : Event) : bool :=
  match e with
  | EvRewrite (BuiltinRewriter _) => false
  | _ => true
  end.

(** No tree was installed: a root slot of the output is as it was or null,
    and [max_column_id] is as it was. *)
Definition not_installed (before after : AnalyzerOutput) : Prop :=
  (resolved_statement after = None
   \/ resolved_statement after = resolved_statement before) /\
  (resolved_expr after = None
   \/ resolved_expr after = resolved_expr before) /\
  max_column_id after = max_column_id before.

(** Exactly one of the statement and the expression is set. *)
Definition exactly_one_root (o : AnalyzerOutput) : Prop :=
  (is_Some (resolved_statement o) /\ resolved_expr o = None) \/
  (resolved_statement o = None /\ is_Some (resolved_expr o)).

(** [n] sweeps in a row, each of which ends without an error and leaves a
    non-empty apply-set. *)
Inductive sweeps_without_converging (env : Collaborators)
    (analyzer_options : AnalyzerOptions) (catalog : Catalog)
    (type_factory : TypeFactory)
  : nat -> gset ResolvedASTRewrite -> DriverState -> DriverState -> Prop :=
| no_sweep rewrites_to_apply st :
    sweeps_without_converging env analyzer_options catalog type_factory
      0 rewrites_to_apply st st
| one_more_sweep n rewrites_to_apply st st1 st2 rewrites_to_apply' st' :
    sweep env analyzer_options catalog type_factory
      (registration_order env) rewrites_to_apply st = (Normal tt, st1) ->
    recompute_rewrites_to_apply env analyzer_options st1
    = (Normal rewrites_to_apply', st2) ->
    rewrites_to_apply' <> ∅ ->
    sweeps_without_converging env analyzer_options catalog type_factory
      n rewrites_to_apply' st2 st' ->
    sweeps_without_converging env analyzer_options catalog type_factory
      (S n) rewrites_to_apply st st'.

(** ** Further notions for the NULLIFERROR rewriter *)



(** ** The calls of a computation *)

(** Every run of [m] extends the trace, by calls that satisfy [P] together
    with the outcome of the run. *)
Definition emits {A} (P : Outcome A -> list Event -> Prop) (m : M A) : Prop :=
  forall st,
    exists new,
      trace (snd (m st)) = trace st ++ new /\ P (fst (m st)) new.

(** A run that makes no call. *)
Definition silent {A} (m : M A) : Prop :=
  forall st, trace (snd (m st)) = trace st.

(** The invocations of the user-supplied rewriters of a list, in order. *)
Definition user_invocations (who : RewriterPtr -> Invocation)
    (rewriters : list RewriterPtr) : list Event :=
  map (fun p => EvRewrite (who p)) rewriters.

(** The invocations of the built-in rewriters of a list of rules, in
    order. *)
Definition builtin_invocations (rules : list ResolvedASTRewrite)
  : list Event :=
  map (fun r => EvRewrite (BuiltinRewriter r)) rules.

(** The rules of the apply-set, as a sweep over [order] meets them. *)
Definition rules_to_apply (order : list ResolvedASTRewrite)
    (rewrites_to_apply : gset ResolvedASTRewrite)
  : list ResolvedASTRewrite :=
  List.filter (fun r => bool_decide (r ∈ rewrites_to_apply)) order.

(** How many times a rule occurs in a registration order. *)
Definition occurrences (rule : ResolvedASTRewrite)
    (order : list ResolvedASTRewrite) : nat :=
  length (List.filter (fun r => bool_decide (r = rule)) order).

Definition is_scan_event (e : Event) : bool :=
  match e with EvFindRelevantRewriters _ => true | _ => false end.

(** The calls of the convergence loop: scans and built-in rewriters. *)
Definition is_loop_event (e : Event) : bool :=
  match e with
  | EvFindRelevantRewriters _ => true
  | EvRewrite (BuiltinRewriter _) => true
  | _ => false
  end.

(** The calls of a phase that makes the calls [full] when nothing ends it
    early. *)
Definition phase_calls {A} (full : list Event) (o : Outcome A)
    (new : list Event) : Prop :=
  new `prefix_of` full /\ (forall a, o = Normal a -> new = full).

(** The built-in invocation [e], if it is one, is of a rule that the
    registry has a rewriter for. *)
Definition registered (env : Collaborators) (e : Event) : Prop :=
  match e with
  | EvRewrite (BuiltinRewriter r) => is_Some (registry_Get env r)
  | _ => True
  end.

(** The calls of the convergence loop with [n] sweeps left and the apply-set
    [rewrites_to_apply]: none at the iteration limit; else a sweep, which an
    error may end; then the scan of the current tree; then, when the scan
    gives a new apply-set that is not empty, the calls of the loop with it. *)
Inductive loop_calls (env : Collaborators) (analyzer_options : AnalyzerOptions)
  : nat -> gset ResolvedASTRewrite -> list Event -> Prop :=
| loop_calls_limit rewrites_to_apply :
    loop_calls env analyzer_options 0 rewrites_to_apply []
| loop_calls_aborted n rewrites_to_apply new :
    new `prefix_of`
      builtin_invocations
        (rules_to_apply (registration_order env) rewrites_to_apply) ->
    Forall (registered env) new ->
    loop_calls env analyzer_options (S n) rewrites_to_apply new
| loop_calls_ended n rewrites_to_apply root :
    Forall (registered env)
      (builtin_invocations
         (rules_to_apply (registration_order env) rewrites_to_apply)) ->
    loop_calls env analyzer_options (S n) rewrites_to_apply
      (builtin_invocations
         (rules_to_apply (registration_order env) rewrites_to_apply)
       ++ [EvFindRelevantRewriters root])
| loop_calls_repeated n rewrites_to_apply root checker rest :
    Forall (registered env)
      (builtin_invocations
         (rules_to_apply (registration_order env) rewrites_to_apply)) ->
    FindRelevantRewriters env root = Value checker ->
    loop_calls env analyzer_options n
      ((enabled_rewrites analyzer_options ∩ checker)
         ∖ {[ REWRITE_ANONYMIZATION ]}) rest ->
    loop_calls env analyzer_options (S n) rewrites_to_apply
      (builtin_invocations
         (rules_to_apply (registration_order env) rewrites_to_apply)
       ++ EvFindRelevantRewriters root :: rest).

(** The outcome is the end of the body or an early [return] of OK. *)
Definition okay {A} (o : Outcome A) : Prop :=
  match o with
  | Normal _ => True
  | Return s => status_ok s = true
  end.

(** The calls [new] of a run of the driver, by phase: the scan [scan] of
    the input, the leading rewriters, the convergence loop, the trailing
    rewriters and the installation [inst]. A phase starts when the one
    before it is over; a run that is [complete] has invoked every
    user-supplied rewriter. *)
Definition run_calls (env : Collaborators) (analyzer_options : AnalyzerOptions)
    (complete : Prop) (scan inst new : list Event) : Prop :=
  exists lead loop trail rewrites_to_apply,
    new = scan ++ lead ++ loop ++ trail ++ inst /\
    lead `prefix_of`
      user_invocations LeadingRewriter (leading_rewriters analyzer_options) /\
    rewrites_to_apply ⊆ enabled_rewrites analyzer_options /\
    loop_calls env analyzer_options (Z.to_nat kMaxIterations)
      rewrites_to_apply loop /\
    trail `prefix_of`
      user_invocations TrailingRewriter (trailing_rewriters analyzer_options) /\
    (loop ++ trail ++ inst = []
     \/ lead
        = user_invocations LeadingRewriter
            (leading_rewriters analyzer_options)) /\
    (inst = []
     \/ trail
        = user_invocations TrailingRewriter
            (trailing_rewriters analyzer_options)) /\
    (complete ->
     lead
     = user_invocations LeadingRewriter (leading_rewriters analyzer_options)
     /\ trail
        = user_invocations TrailingRewriter
            (trailing_rewriters analyzer_options)).



(** The intervals accumulated into the two timed values of the runtime
    info. *)
Definition rewriter_intervals (st : DriverState) : nat :=
  accumulated_intervals
    (rewriters_timed_value (runtime_info (analyzer_output st))).

Definition validator_intervals (st : DriverState) : nat :=
  accumulated_intervals
    (validator_timed_value (runtime_info (analyzer_output st))).

Definition is_validate_event (e : Event) : bool :=
  match e with EvValidate => true | _ => false end.

(** The two timed values hold [a] and [b] intervals. *)
Definition timers (a b : nat) (st : DriverState) : Prop :=
  rewriter_intervals st = a /\ validator_intervals st = b.

(** * Properties *)

(** ** The column-id sequence and the options builder *)

Lemma wrap64_in_range (z : Z) : in_int64 z -> wrap64 z = z.
Proof.
  unfold in_int64, wrap64. intros H.
  rewrite Z.mod_small by lia. lia.
Qed.

(** The loop leaves through its test: with the counter and [max_column_id]
    in the 64-bit range, [advance_draws] draws (or any larger fuel) end with
    the first value that is not below [max_column_id]. *)
Lemma advance_loop_exits (fuel : nat) :
  forall (s : SequenceNumber) (max_id : Z),
    - 2 ^ 63 <= word s -> max_id < 2 ^ 63 ->
    (advance_draws s max_id <= fuel)%nat ->
    advance_loop fuel s max_id =
      Some (Z.max (word s) max_id,
            mkSequenceNumber (wrap64 (Z.max (word s) max_id + 1))).
Proof.
  induction fuel as [| fuel IH]; intros s max_id Hlo Hmax Hfuel.
  - unfold advance_draws in Hfuel. lia.
  - cbn [advance_loop GetNext].
    destruct (Z.ltb_spec (word s) max_id) as [Hlt | Hge].
    + rewrite IH; cbn [word].
      * rewrite wrap64_in_range by (unfold in_int64; lia).
        replace (Z.max (word s + 1) max_id) with (Z.max (word s) max_id)
          by lia.
        reflexivity.
      * rewrite wrap64_in_range by (unfold in_int64; lia). lia.
      * exact Hmax.
      * unfold advance_draws in *. cbn [word].
        rewrite wrap64_in_range by (unfold in_int64; lia). lia.
    + replace (Z.max (word s) max_id) with (word s) by lia. reflexivity.
Qed.

(** C3, as the code has it. The options of the caller that own a sequence
    keep it, and the fallback is not drawn from. Otherwise the options get
    the fallback sequence, advanced by drawing until the value drawn is not
    below [max_column_id] (greater or equal, not strictly greater): the last
    value drawn is the larger of the counter's first value and
    [max_column_id], and the next value handed out exceeds
    [max_column_id]. *)
Theorem AnalyzerOptionsForRewrite_sequence
    (analyzer_options : AnalyzerOptions) (analyzer_output : AnalyzerOutput)
    (fallback : SequenceNumber) :
  - 2 ^ 63 <= word fallback < 2 ^ 63 - 1 ->
  max_column_id analyzer_output < 2 ^ 63 - 1 ->
  let result :=
    AnalyzerOptionsForRewrite analyzer_options analyzer_output fallback in
  match column_id_sequence_number analyzer_options with
  | Some p =>
      column_id_sequence_number (fst result) = Some p /\
      snd result = fallback
  | None =>
      column_id_sequence_number (fst result) = Some FallbackSequence /\
      exists drawn,
        advance_loop (advance_draws fallback (max_column_id analyzer_output))
          fallback (max_column_id analyzer_output)
        = Some (drawn, snd result) /\
        drawn = Z.max (word fallback) (max_column_id analyzer_output) /\
        max_column_id analyzer_output <= drawn /\
        fst (GetNext (snd result)) = drawn + 1 /\
        max_column_id analyzer_output < fst (GetNext (snd result))
  end.
Proof.
  intros Hfb Hmax result. subst result. unfold AnalyzerOptionsForRewrite.
  destruct (column_id_sequence_number analyzer_options) as [p |] eqn:Hseq.
  - cbn. split; reflexivity.
  - cbn [fst snd column_id_sequence_number]. split; [reflexivity |].
    exists (Z.max (word fallback) (max_column_id analyzer_output)).
    assert (Hloop := advance_loop_exits
                       (advance_draws fallback (max_column_id analyzer_output))
                       fallback (max_column_id analyzer_output)
                       ltac:(lia) ltac:(lia) ltac:(lia)).
    unfold advance_past. rewrite Hloop. cbn [GetNext fst word].
    rewrite wrap64_in_range by (unfold in_int64; lia).
    repeat split; lia.
Qed.

(** The theorem at the driver's own use: a new fallback sequence and an
    output whose largest column id is 3. *)
Lemma AnalyzerOptionsForRewrite_sequence_witness :
  let result :=
    AnalyzerOptionsForRewrite (Example.options ∅ [] [] None)
      (Example.output_of None (Some Example.literal_1) 3) fresh_sequence in
  column_id_sequence_number (fst result) = Some FallbackSequence /\
  exists drawn,
    advance_loop (advance_draws fresh_sequence 3) fresh_sequence 3
    = Some (drawn, snd result) /\
    drawn = Z.max 0 3 /\
    3 <= drawn /\
    fst (GetNext (snd result)) = drawn + 1 /\
    3 < fst (GetNext (snd result)).
Proof.
  apply (AnalyzerOptionsForRewrite_sequence (Example.options ∅ [] [] None)
           (Example.output_of None (Some Example.literal_1) 3) fresh_sequence).
  - cbn. lia.
  - cbn. lia.
Defined.

(** C3, as the spec words it, fails: with a new fallback sequence and
    [max_column_id = 3] the loop draws 0, 1, 2 and 3 and stops; the last
    value drawn is 3, which is not strictly greater than 3, and the builder
    leaves the counter at 4. *)
Lemma AnalyzerOptionsForRewrite_last_draw_not_greater :
  exists drawn,
    advance_loop (advance_draws fresh_sequence 3) fresh_sequence 3
    = Some (drawn,
            snd (AnalyzerOptionsForRewrite (Example.options ∅ [] [] None)
                   (Example.output_of None (Some Example.literal_1) 3)
                   fresh_sequence)) /\
    ~ (3 < drawn) /\
    snd (AnalyzerOptionsForRewrite (Example.options ∅ [] [] None)
           (Example.output_of None (Some Example.literal_1) 3)
           fresh_sequence) = mkSequenceNumber 4.
Proof.
  exists 3. repeat split.
  - intros H. lia.
Qed.

(** ** The NULLIFERROR rewriter *)

(** Induction over the tree with the hypothesis for every child. *)
Lemma ResolvedNode_forall_ind (P : ResolvedNode -> Prop) :
  (forall t v e, P (ResolvedLiteral t v e)) ->
  (forall t f s args hints em,
      Forall P args -> Forall P hints ->
      P (ResolvedFunctionCall t f s args hints em)) ->
  (forall k c t ch, Forall P ch -> P (ResolvedOther k c t ch)) ->
  forall n, P n.
Proof.
  intros Hlit Hcall Hother.
  fix IH 1. intros [t v e | t f s args hints em | k c t ch].
  - apply Hlit.
  - apply Hcall.
    + induction args as [| a args IHargs]; constructor;
        [apply IH | exact IHargs].
    + induction hints as [| a hints IHhints]; constructor;
        [apply IH | exact IHhints].
  - apply Hother.
    induction ch as [| a ch IHch]; constructor; [apply IH | exact IHch].
Qed.

Lemma visit_children_clean (l : list ResolvedNode) :
  Forall (fun n => forall n', VisitAll n = Value n' ->
                              has_nulliferror n' = false) l ->
  forall l', visit_children VisitAll l = Value l' ->
             existsb has_nulliferror l' = false.
Proof.
  induction 1 as [| c l Hc _ IH]; intros l' Hvisit; cbn in Hvisit.
  - injection Hvisit as <-. reflexivity.
  - destruct (VisitAll c) as [c' |] eqn:Hvc; [| discriminate].
    destruct (visit_children VisitAll l) as [l'' |] eqn:Hvl; [| discriminate].
    injection Hvisit as <-. cbn.
    rewrite (Hc c' eq_refl), (IH l'' eq_refl). reflexivity.
Qed.

Lemma PostVisitResolvedFunctionCall_clean t f s args hints em n' :
  existsb has_nulliferror args = false ->
  existsb has_nulliferror hints = false ->
  PostVisitResolvedFunctionCall t f s args hints em = Value n' ->
  has_nulliferror n' = false.
Proof.
  intros Hargs Hhints. unfold PostVisitResolvedFunctionCall.
  destruct (IsBuiltInFunctionIdEq f s FN_NULLIFERROR) eqn:Hid; cbn [negb].
  - destruct (0 <? Z.of_nat (length hints)); [discriminate |].
    unfold RewriteNullIfError.
    destruct args as [| x [| y args]]; try discriminate.
    unfold IfError. intros [= <-]. cbn in Hargs |- *.
    rewrite orb_false_r in Hargs. rewrite Hargs. reflexivity.
  - intros [= <-]. cbn. rewrite Hid, Hargs, Hhints. reflexivity.
Qed.

Lemma VisitAll_clean (n n' : ResolvedNode) :
  VisitAll n = Value n' -> has_nulliferror n' = false.
Proof.
  revert n'. induction n as [t v e | t f s args hints em IHargs IHhints
                             | k c t ch IHch] using ResolvedNode_forall_ind;
    intros n' Hvisit; cbn in Hvisit.
  - injection Hvisit as <-. reflexivity.
  - destruct (visit_children VisitAll args) as [args' |] eqn:Hva;
      [| discriminate].
    destruct (visit_children VisitAll hints) as [hints' |] eqn:Hvh;
      [| discriminate].
    eapply PostVisitResolvedFunctionCall_clean; [| | exact Hvisit].
    + exact (visit_children_clean args IHargs args' Hva).
    + exact (visit_children_clean hints IHhints hints' Hvh).
  - destruct (visit_children VisitAll ch) as [ch' |] eqn:Hvc; [| discriminate].
    injection Hvisit as <-. cbn.
    exact (visit_children_clean ch IHch ch' Hvc).
Qed.

(** C9. For a built-in NULLIFERROR call the rewriter visits: with a
    non-empty hint list it returns an unimplemented error; with no hint and
    the single argument [x] it returns what [IfError] builds from [x] and
    [L], the call [IFERROR(x, L)], [L] being the NULL literal of the type of
    [x] with [has_explicit_type] set. A function call that is
    not a built-in NULLIFERROR is returned as it is. A tree the rewriter
    returns holds no built-in NULLIFERROR call. *)
Theorem NullIfError_rewrite_correct :
  (forall t f s args hints em,
      IsBuiltInFunctionIdEq f s FN_NULLIFERROR = true ->
      hints <> [] ->
      PostVisitResolvedFunctionCall t f s args hints em
      = Error (UnimplementedError
                 "The NULLIFERROR() operator does not support hints.")) /\
  (forall t f s x em,
      IsBuiltInFunctionIdEq f s FN_NULLIFERROR = true ->
      PostVisitResolvedFunctionCall t f s [x] [] em
      = IfError x (ResolvedLiteral (node_type x) (NullValue (node_type x))
                     true) /\
      PostVisitResolvedFunctionCall t f s [x] [] em
      = Value (ResolvedFunctionCall (node_type x) iferror_function FN_IFERROR
                 [x; ResolvedLiteral (node_type x) (NullValue (node_type x))
                       true]
                 [] DEFAULT_ERROR_MODE)) /\
  (forall t f s args hints em,
      IsBuiltInFunctionIdEq f s FN_NULLIFERROR = false ->
      PostVisitResolvedFunctionCall t f s args hints em
      = Value (ResolvedFunctionCall t f s args hints em)) /\
  (forall options input catalog type_factory properties seqs root',
      fst (fst (Rewrite NullIfErrorFunctionRewriter options input catalog
                  type_factory properties seqs)) = Value (Some root') ->
      has_nulliferror root' = false).
Proof.
  repeat split.
  - intros t f s args hints em Hid Hhints.
    unfold PostVisitResolvedFunctionCall. rewrite Hid. cbn [negb].
    destruct hints as [| h hints]; [congruence |]. reflexivity.
  - unfold PostVisitResolvedFunctionCall. rewrite H. reflexivity.
  - unfold PostVisitResolvedFunctionCall. rewrite H. reflexivity.
  - intros t f s args hints em Hid.
    unfold PostVisitResolvedFunctionCall. rewrite Hid. reflexivity.
  - intros options input catalog type_factory properties seqs root'.
    cbn [Rewrite NullIfErrorFunctionRewriter fst].
    repeat match goal with
           | |- context [if ?b then _ else _] => destruct b
           end; try discriminate.
    destruct input as [root |]; [| discriminate].
    destruct (VisitAll root) as [r |] eqn:Hvisit; [| discriminate].
    intros [= <-]. eapply VisitAll_clean; eassumption.
Qed.

(** The theorem on [NULLIFERROR(x)] with a hint, on [NULLIFERROR(x)], on
    [IFERROR] and on the statement [SELECT NULLIFERROR(x)]. *)
Lemma NullIfError_rewrite_correct_witness :
  PostVisitResolvedFunctionCall TYPE_INT64 Example.nulliferror_function
    FN_NULLIFERROR [Example.column_x] [Example.literal_1] DEFAULT_ERROR_MODE
  = Error (UnimplementedError
             "The NULLIFERROR() operator does not support hints.") /\
  PostVisitResolvedFunctionCall TYPE_INT64 Example.nulliferror_function
    FN_NULLIFERROR [Example.column_x] [] DEFAULT_ERROR_MODE
  = Value (ResolvedFunctionCall TYPE_INT64 iferror_function FN_IFERROR
             [Example.column_x;
              ResolvedLiteral TYPE_INT64 (NullValue TYPE_INT64) true]
             [] DEFAULT_ERROR_MODE) /\
  PostVisitResolvedFunctionCall TYPE_INT64 iferror_function FN_IFERROR
    [Example.column_x; Example.literal_1] [] DEFAULT_ERROR_MODE
  = Value (ResolvedFunctionCall TYPE_INT64 iferror_function FN_IFERROR
             [Example.column_x; Example.literal_1] [] DEFAULT_ERROR_MODE) /\
  has_nulliferror
    (Example.query_stmt
       (ResolvedFunctionCall TYPE_INT64 iferror_function FN_IFERROR
          [Example.column_x;
           ResolvedLiteral TYPE_INT64 (NullValue TYPE_INT64) true]
          [] DEFAULT_ERROR_MODE)) = false.
Proof.
  destruct NullIfError_rewrite_correct as (Hhint & Hrewrite & Hother & Hclean).
  split; [| split; [| split]].
  - apply Hhint; [reflexivity | discriminate].
  - apply (proj2 (Hrewrite TYPE_INT64 Example.nulliferror_function
                    FN_NULLIFERROR Example.column_x DEFAULT_ERROR_MODE
                    eq_refl)).
  - apply Hother. reflexivity.
  - apply (Hclean
             (AnalyzerOptionsForRewrite (Example.options ∅ [] [] None)
                (Example.output_of None None 3) fresh_sequence).1
             (Some (Example.query_stmt
                      (Example.nulliferror_call Example.column_x)))
             0%nat 0%nat (mkAnalyzerOutputProperties ∅ ∅)
             (mkSequenceStore fresh_sequence fresh_sequence)).
    reflexivity.
Defined.

(** ** Rules for triples *)

Lemma triple_ret {A} (P : DriverState -> Prop) (a : A) Q R :
  (forall st, P st -> Q a st) -> triple P (ret a) Q R.
Proof. intros H st HP. cbn. auto. Qed.

Lemma triple_return_status {A} (P : DriverState -> Prop) (s : Status)
    (Q : A -> DriverState -> Prop) R :
  (forall st, P st -> R s st) -> triple P (return_status s) Q R.
Proof. intros H st HP. cbn. auto. Qed.

Lemma triple_bind {A B} (P : DriverState -> Prop) (m : M A) (k : A -> M B)
    Q1 Q R :
  triple P m Q1 R -> (forall a, triple (Q1 a) (k a) Q R) ->
  triple P (bind m k) Q R.
Proof.
  intros Hm Hk st HP. unfold bind. specialize (Hm st HP).
  destruct (m st) as [[a | s] st']; [| exact Hm].
  exact (Hk a st' Hm).
Qed.

Lemma triple_weaken {A} (P P' : DriverState -> Prop) (m : M A)
    (Q Q' : A -> DriverState -> Prop) (R R' : Status -> DriverState -> Prop) :
  triple P' m Q' R' ->
  (forall st, P st -> P' st) ->
  (forall a st, Q' a st -> Q a st) ->
  (forall s st, R' s st -> R s st) ->
  triple P m Q R.
Proof.
  intros Hm HP HQ HR st Hst. specialize (Hm st (HP st Hst)).
  destruct (m st) as [[a | s] st']; auto.
Qed.

Lemma preserves_ret {A} (I : DriverState -> Prop) (a : A) :
  preserves I (ret a).
Proof. apply triple_ret. auto. Qed.

Lemma preserves_return_status {A} (I : DriverState -> Prop) (s : Status) :
  preserves I (@return_status A s).
Proof. apply triple_return_status. auto. Qed.

(** Early returns carry errors. *)

Lemma status_of_error_not_ok e : status_ok (status_of_error e) = false.
Proof.
  unfold status_of_error. destruct (status_ok e) eqn:He; [reflexivity | exact He].
Qed.

Lemma fails_only_ret {A} (a : A) : fails_only (ret a).
Proof. intros st s st' H. discriminate. Qed.

Lemma fails_only_error {A} (s : Status) :
  status_ok s = false -> fails_only (@return_status A s).
Proof. intros Hs st s' st' [= <- _]. exact Hs. Qed.

Lemma fails_only_bind {A B} (m : M A) (k : A -> M B) :
  fails_only m -> (forall a, fails_only (k a)) -> fails_only (bind m k).
Proof.
  intros Hm Hk st s st'. unfold bind.
  destruct (m st) as [[a | s0] st1] eqn:Hrun.
  - apply Hk.
  - intros [= <- <-]. eapply Hm. exact Hrun.
Qed.

Lemma fails_only_RET_CHECK cond msg : fails_only (RET_CHECK cond msg).
Proof.
  unfold RET_CHECK. destruct cond;
    [apply fails_only_ret | apply fails_only_error; reflexivity].
Qed.

Lemma fails_only_RETURN_IF_ERROR s : fails_only (RETURN_IF_ERROR s).
Proof.
  unfold RETURN_IF_ERROR. destruct (status_ok s) eqn:Hs;
    [apply fails_only_ret | apply fails_only_error; exact Hs].
Qed.

Lemma fails_only_ASSIGN_OR_RETURN {T} (r : StatusOr T) :
  fails_only (ASSIGN_OR_RETURN r).
Proof.
  unfold ASSIGN_OR_RETURN. destruct r;
    [apply fails_only_ret
    | apply fails_only_error; apply status_of_error_not_ok].
Qed.

(** ** What the passes before the installation keep *)

Lemma count_events_snoc (p : Event -> bool) (t : list Event) (e : Event) :
  count_events p (t ++ [e])
  = (count_events p t + (if p e then 1 else 0))%nat.
Proof.
  unfold count_events. rewrite List.filter_app, length_app. cbn.
  destruct (p e); reflexivity.
Qed.

Lemma not_rewrite_not_builtin rule e :
  is_rewrite_event e = false -> is_builtin_invocation rule e = false.
Proof. destruct e as [| | [] | | |]; cbn; congruence. Qed.

Lemma progress_start allowed st :
  options_for_rewrite st = None -> last_rewrite_result st = None ->
  in_progress allowed st st.
Proof.
  intros Hopts Hlast. exists []. constructor; cbn; auto.
  - symmetry; apply app_nil_r.
  - congruence.
Qed.

Lemma progress_allowed_mono (allowed allowed' : Event -> bool) st0 st :
  (forall e, allowed e = true -> allowed' e = true) ->
  in_progress allowed st0 st -> in_progress allowed' st0 st.
Proof.
  intros Hmono [new H]. exists new. destruct H. constructor; auto.
  apply (Forall_impl _ _ _ pg_allowed0). exact Hmono.
Qed.

(** A step that makes the call [e], not a rewriter call, and leaves all
    but the trace and the timed values of the runtime info. *)
Lemma progress_quiet_step allowed st0 st st' (calls : list Event) :
  in_progress allowed st0 st ->
  trace st' = trace st ++ calls ->
  Forall (fun e => allowed e = true) calls ->
  Forall (fun e => is_update_event e = false) calls ->
  Forall (fun e => is_rewrite_event e = false) calls ->
  resolved_statement (analyzer_output st')
  = resolved_statement (analyzer_output st) ->
  resolved_expr (analyzer_output st') = resolved_expr (analyzer_output st) ->
  max_column_id (analyzer_output st') = max_column_id (analyzer_output st) ->
  output_properties (analyzer_output st')
  = output_properties (analyzer_output st) ->
  rewriters_details_map (runtime_info (analyzer_output st'))
  = rewriters_details_map (runtime_info (analyzer_output st)) ->
  sequences st' = sequences st ->
  options_for_rewrite st' = options_for_rewrite st ->
  last_rewrite_result st' = last_rewrite_result st ->
  in_progress allowed st0 st'.
Proof.
  intros [new H] Htrace Hallowed Hupdate Hrewrite Hstmt Hexpr Hmax Hprops
    Hdetails Hseqs Hopts Hlast.
  assert (Hcount : forall rule,
             count_events (is_builtin_invocation rule) (new ++ calls)
             = count_events (is_builtin_invocation rule) new).
  { intros rule. unfold count_events.
    rewrite List.filter_app, length_app.
    replace (List.filter (is_builtin_invocation rule) calls) with (@nil Event);
      [cbn; lia |].
    clear -Hrewrite. induction Hrewrite as [| e calls He _ IH]; [reflexivity |].
    cbn. rewrite (not_rewrite_not_builtin rule e He). exact IH. }
  assert (Hdet : forall rule, details_of st' rule = details_of st rule).
  { intros rule. unfold details_of, rewriters_details. rewrite Hdetails.
    reflexivity. }
  exists (new ++ calls). destruct H. constructor.
  - rewrite Htrace, pg_trace0. symmetry. apply app_assoc.
  - apply Forall_app; auto.
  - apply Forall_app; auto.
  - congruence.
  - rewrite Hopts, Hseqs. auto.
  - intros rule. rewrite Hdet, Hcount. auto.
  - intros rule. rewrite Hdet, Hcount. auto.
  - rewrite Hopts, Hstmt, Hexpr, Hprops, Hlast. intros Hnone.
    destruct (pg_unbuilt0 Hnone) as (? & ? & ? & ? & ?).
    repeat split; auto. apply Forall_app; auto.
  - rewrite Hopts, Hstmt, Hexpr. auto.
Qed.

Section PassesKeep.

Variable env : Collaborators.
Variable analyzer_options : AnalyzerOptions.
Variable catalog : Catalog.
Variable type_factory : TypeFactory.
Variable allowed : Event -> bool.
Variable st0 : DriverState.

Hypothesis scan_allowed :
  forall root, allowed (EvFindRelevantRewriters root) = true.

Lemma accumulate_rewriter_timer_keeps :
  preserves (in_progress allowed st0) accumulate_rewriter_timer.
Proof.
  intros st H. cbn.
  eapply (progress_quiet_step _ _ _ _ []); eauto; cbn; auto using app_nil_r.
Qed.

Lemma detect_rewrites_keeps :
  preserves (in_progress allowed st0) (detect_rewrites env).
Proof.
  intros st H. unfold detect_rewrites, bind, get, RET_CHECK, log, ret,
    return_status, ASSIGN_OR_RETURN.
  repeat match goal with
         | |- context [if ?b then _ else _] => destruct b; cbn
         | |- context [match ?x with Value _ => _ | Error _ => _ end] =>
             destruct x; cbn
         end; try exact H;
    eapply (progress_quiet_step _ _ _ _ [EvFindRelevantRewriters _]);
    eauto; cbn; auto.
Qed.

Lemma recompute_rewrites_to_apply_keeps :
  preserves (in_progress allowed st0)
    (recompute_rewrites_to_apply env analyzer_options).
Proof.
  intros st H. unfold recompute_rewrites_to_apply, bind, get, log, ret,
    return_status, ASSIGN_OR_RETURN. cbn.
  destruct (FindRelevantRewriters env (last_rewrite_result st)); cbn;
    eapply (progress_quiet_step _ _ _ _ [EvFindRelevantRewriters _]);
    eauto; cbn; auto.
Qed.

End PassesKeep.

(** A step that calls a rewriter once the options are built; the
    rewriter's details grow by one when the call is the built-in one of
    their rule. *)
Lemma progress_rewrite_step allowed st0 st st' (who : Invocation) :
  in_progress allowed st0 st ->
  built st ->
  trace st' = trace st ++ [EvRewrite who] ->
  allowed (EvRewrite who) = true ->
  resolved_statement (analyzer_output st')
  = resolved_statement (analyzer_output st) ->
  resolved_expr (analyzer_output st') = resolved_expr (analyzer_output st) ->
  max_column_id (analyzer_output st') = max_column_id (analyzer_output st) ->
  (forall rule,
      count (details_of st' rule)
      = (count (details_of st rule)
         + (if is_builtin_invocation rule (EvRewrite who) then 1 else 0))%nat) ->
  (forall rule,
      accumulated_intervals (timed_value (details_of st' rule))
      = (accumulated_intervals (timed_value (details_of st rule))
         + (if is_builtin_invocation rule (EvRewrite who) then 1 else 0))%nat) ->
  options_for_rewrite st' = options_for_rewrite st ->
  in_progress allowed st0 st'.
Proof.
  intros [new H] Hbuilt Htrace Hallowed Hstmt Hexpr Hmax Hcount Htimer Hopts.
  exists (new ++ [EvRewrite who]). destruct H. constructor.
  - rewrite Htrace, pg_trace0. symmetry. apply app_assoc.
  - apply Forall_app; auto.
  - apply Forall_app; auto.
  - congruence.
  - rewrite Hopts. intros Hnone. destruct (Hbuilt Hnone).
  - intros rule. rewrite Hcount, pg_count0, count_events_snoc. lia.
  - intros rule. rewrite Htimer, pg_timer0, count_events_snoc. lia.
  - rewrite Hopts. intros Hnone. destruct (Hbuilt Hnone).
  - rewrite Hopts, Hstmt, Hexpr. auto.
Qed.

Section RewriterSteps.

Variable env : Collaborators.
Variable analyzer_options : AnalyzerOptions.
Variable catalog : Catalog.
Variable type_factory : TypeFactory.
Variable allowed : Event -> bool.
Variable st0 : DriverState.

Lemma ensure_options_for_rewrite_keeps :
  triple (in_progress allowed st0)
    (ensure_options_for_rewrite analyzer_options)
    (fun options st =>
       in_progress allowed st0 st /\ options_for_rewrite st = Some options)
    (fun _ _ => False).
Proof.
  intros st H. unfold ensure_options_for_rewrite, bind, get, put, ret.
  destruct (options_for_rewrite st) as [options |] eqn:Hopts.
  - auto.
  - destruct (AnalyzerOptionsForRewrite analyzer_options (analyzer_output st)
                (fallback_sequence_number (sequences st)))
      as [options fallback].
    destruct (release_output_node (analyzer_output st)) as [root output]
      eqn:Hrelease.
    cbn. split; [| reflexivity].
    destruct H as [new H]. exists new. destruct H.
    destruct (pg_unbuilt0 Hopts) as (Hstmt & Hexpr & Hprops & Hlast & Hquiet).
    assert (Hout : resolved_statement output = None /\
                   resolved_expr output = released_expr (analyzer_output st0)
                   /\ max_column_id output = max_column_id (analyzer_output st)
                   /\ runtime_info output = runtime_info (analyzer_output st)).
    { unfold release_output_node in Hrelease. unfold released_expr.
      rewrite <- Hstmt, <- Hexpr.
      destruct (resolved_statement (analyzer_output st));
        injection Hrelease as <- <-; cbn; auto. }
    destruct Hout as (Hs & He & Hm & Hinfo).
    constructor; cbn; auto.
    + congruence.
    + discriminate.
    + intros rule. unfold details_of in *. cbn. rewrite Hinfo. auto.
    + intros rule. unfold details_of in *. cbn. rewrite Hinfo. auto.
    + discriminate.
Qed.

Lemma invoke_user_rewriter_keeps who rewriter options :
  allowed (EvRewrite who) = true ->
  (forall rule, is_builtin_invocation rule (EvRewrite who) = false) ->
  triple (fun st => in_progress allowed st0 st /\ built st)
    (invoke_rewriter catalog type_factory who rewriter options)
    (fun _ st => in_progress allowed st0 st /\ built st)
    (fun _ st => in_progress allowed st0 st /\ built st).
Proof.
  intros Hallowed Huser st [H Hbuilt].
  unfold invoke_rewriter, bind, get, put, ret, ASSIGN_OR_RETURN,
    set_last_rewrite_result, return_status.
  destruct (Rewrite rewriter options (last_rewrite_result st) catalog
              type_factory (output_properties (analyzer_output st))
              (sequences st)) as [[result properties] seqs].
  destruct result as [new_root | e]; cbn; (split; [| exact Hbuilt]);
    (eapply (progress_rewrite_step _ _ st _ who); eauto;
     intros rule; rewrite Huser; unfold details_of; cbn; lia).
Qed.

Lemma apply_user_rewriter_keeps who rewriter :
  allowed (EvRewrite (who rewriter)) = true ->
  (forall rule, is_builtin_invocation rule (EvRewrite (who rewriter)) = false) ->
  triple (in_progress allowed st0)
    (apply_user_rewriter env analyzer_options catalog type_factory who
       rewriter)
    (fun _ st => in_progress allowed st0 st /\ built st)
    (fun _ st => in_progress allowed st0 st /\ built st).
Proof.
  intros Hallowed Huser. unfold apply_user_rewriter.
  eapply triple_bind.
  - eapply triple_weaken; [apply ensure_options_for_rewrite_keeps | auto | |].
    + intros options st H. exact H.
    + intros s st [].
  - intros options.
    eapply triple_weaken;
      [apply (invoke_user_rewriter_keeps (who rewriter)); assumption | | auto
      | auto].
    intros st [H Hopts]. split; [exact H |]. unfold built. congruence.
Qed.

Lemma apply_builtin_rewriter_keeps ast_rewrite :
  allowed (EvRewrite (BuiltinRewriter ast_rewrite)) = true ->
  triple (in_progress allowed st0)
    (apply_builtin_rewriter env analyzer_options catalog type_factory
       ast_rewrite)
    (fun _ st =>
       in_progress allowed st0 st /\ built st
       /\ is_Some (last_rewrite_result st))
    (fun _ st => in_progress allowed st0 st /\ built st).
Proof.
  intros Hallowed. unfold apply_builtin_rewriter.
  eapply triple_bind.
  - eapply triple_weaken; [apply ensure_options_for_rewrite_keeps | auto | |].
    + intros options st H. exact H.
    + intros s st [].
  - intros options st [H Hopts].
    assert (Hbuilt : built st) by (unfold built; congruence).
    unfold bind, ret, return_status, record_rewriter_details, get,
      set_analyzer_output, invoke_rewriter, put, ASSIGN_OR_RETURN,
      set_last_rewrite_result, RET_CHECK.
    destruct (registry_Get env ast_rewrite) as [p |]; cbn; [| auto].
    destruct (Rewrite (rewriter_at env p) options (last_rewrite_result st)
                catalog type_factory (output_properties (analyzer_output st))
                (sequences st)) as [[result properties] seqs].
    assert (Hstep : forall st',
               trace st' = trace st ++ [EvRewrite (BuiltinRewriter ast_rewrite)] ->
               resolved_statement (analyzer_output st')
               = resolved_statement (analyzer_output st) ->
               resolved_expr (analyzer_output st')
               = resolved_expr (analyzer_output st) ->
               max_column_id (analyzer_output st')
               = max_column_id (analyzer_output st) ->
               rewriters_details_map (runtime_info (analyzer_output st'))
               = <[ ast_rewrite :=
                      mkRewriterDetails
                        (Accumulate (timed_value (details_of st ast_rewrite)))
                        (S (count (details_of st ast_rewrite))) ]>
                   (rewriters_details_map (runtime_info (analyzer_output st))) ->
               options_for_rewrite st' = options_for_rewrite st ->
               in_progress allowed st0 st' /\ built st').
    { intros st' Htrace Hstmt Hexpr Hmax Hmap Hopts'.
      split; [| unfold built; rewrite Hopts'; exact Hbuilt].
      eapply (progress_rewrite_step _ _ st _ (BuiltinRewriter ast_rewrite));
        eauto.
      - intros rule. unfold details_of at 1, rewriters_details at 1.
        rewrite Hmap, lookup_insert. cbn [is_builtin_invocation].
        case_bool_decide as Heq.
        + subst. rewrite decide_True by reflexivity. cbn. lia.
        + rewrite decide_False by exact Heq. unfold details_of,
            rewriters_details. lia.
      - intros rule. unfold details_of at 1, rewriters_details at 1.
        rewrite Hmap, lookup_insert. cbn [is_builtin_invocation].
        case_bool_decide as Heq.
        + subst. rewrite decide_True by reflexivity. cbn. lia.
        + rewrite decide_False by exact Heq. unfold details_of,
            rewriters_details. lia. }
    destruct result as [new_root | e]; cbn.
    + destruct new_root as [n |]; cbn.
      * split; [| split; [| eauto]]; apply Hstep; reflexivity.
      * apply Hstep; reflexivity.
    + apply Hstep; reflexivity.
Qed.

End RewriterSteps.

Ltac fails_only_steps :=
  repeat first
    [ apply fails_only_ret
    | apply fails_only_RET_CHECK
    | apply fails_only_RETURN_IF_ERROR
    | apply fails_only_ASSIGN_OR_RETURN
    | apply fails_only_error; reflexivity
    | apply fails_only_bind; [| intros ?]
    | match goal with
      | |- fails_only (if ?b then _ else _) => destruct b
      | |- fails_only (match ?x with _ => _ end) => destruct x
      | |- fails_only (let '(_, _) := ?x in _) => destruct x
      end ].

Lemma fails_only_get : fails_only get.
Proof. intros st s st' H. discriminate. Qed.

Lemma fails_only_put st : fails_only (put st).
Proof. intros st1 s st' H. discriminate. Qed.

Lemma fails_only_log e : fails_only (log e).
Proof. intros st s st' H. discriminate. Qed.

Lemma fails_only_set_analyzer_output o : fails_only (set_analyzer_output o).
Proof. intros st s st' H. discriminate. Qed.

Lemma fails_only_set_last_rewrite_result r :
  fails_only (set_last_rewrite_result r).
Proof. intros st s st' H. discriminate. Qed.

Ltac fails_only_auto :=
  repeat first
    [ apply fails_only_get
    | apply fails_only_put
    | apply fails_only_log
    | apply fails_only_set_analyzer_output
    | apply fails_only_set_last_rewrite_result
    | progress fails_only_steps ].

Section PassesFail.

Variable env : Collaborators.
Variable analyzer_options : AnalyzerOptions.
Variable catalog : Catalog.
Variable type_factory : TypeFactory.

Lemma detect_rewrites_fails_only : fails_only (detect_rewrites env).
Proof. unfold detect_rewrites. fails_only_auto. Qed.

Lemma accumulate_rewriter_timer_fails_only :
  fails_only accumulate_rewriter_timer.
Proof. unfold accumulate_rewriter_timer. fails_only_auto. Qed.

Lemma ensure_options_for_rewrite_fails_only :
  fails_only (ensure_options_for_rewrite analyzer_options).
Proof. unfold ensure_options_for_rewrite. fails_only_auto. Qed.

Lemma invoke_rewriter_fails_only who rewriter options :
  fails_only (invoke_rewriter catalog type_factory who rewriter options).
Proof. unfold invoke_rewriter. fails_only_auto. Qed.

Lemma apply_user_rewriter_fails_only who rewriter :
  fails_only (apply_user_rewriter env analyzer_options catalog type_factory
                who rewriter).
Proof.
  unfold apply_user_rewriter.
  apply fails_only_bind; [apply ensure_options_for_rewrite_fails_only |].
  intros options. apply invoke_rewriter_fails_only.
Qed.

Lemma run_user_rewriters_fails_only who rewriters :
  fails_only (run_user_rewriters env analyzer_options catalog type_factory
                who rewriters).
Proof.
  induction rewriters as [| rewriter rest IH]; cbn.
  - apply fails_only_ret.
  - apply fails_only_bind; [apply apply_user_rewriter_fails_only | auto].
Qed.

Lemma apply_builtin_rewriter_fails_only ast_rewrite :
  fails_only (apply_builtin_rewriter env analyzer_options catalog
                type_factory ast_rewrite).
Proof.
  unfold apply_builtin_rewriter.
  apply fails_only_bind; [apply ensure_options_for_rewrite_fails_only |].
  intros options. apply fails_only_bind; [fails_only_auto |].
  intros rewriter. apply fails_only_bind.
  { unfold record_rewriter_details. fails_only_auto. }
  intros _. apply fails_only_bind; [apply invoke_rewriter_fails_only |].
  intros _. fails_only_auto.
Qed.

Lemma sweep_fails_only order rewrites_to_apply :
  fails_only (sweep env analyzer_options catalog type_factory order
                rewrites_to_apply).
Proof.
  induction order as [| ast_rewrite rest IH]; cbn.
  - apply fails_only_ret.
  - apply fails_only_bind; [| auto].
    destruct (bool_decide (ast_rewrite ∈ rewrites_to_apply));
      [apply apply_builtin_rewriter_fails_only | apply fails_only_ret].
Qed.

Lemma recompute_rewrites_to_apply_fails_only :
  fails_only (recompute_rewrites_to_apply env analyzer_options).
Proof. unfold recompute_rewrites_to_apply. fails_only_auto. Qed.

Lemma convergence_loop_fails_only fuel :
  forall iterations rewrites_to_apply,
    fails_only (convergence_loop env analyzer_options catalog type_factory
                  fuel iterations rewrites_to_apply).
Proof.
  induction fuel as [| fuel IH]; intros iterations rewrites_to_apply; cbn.
  - apply fails_only_error. reflexivity.
  - destruct (kMaxIterations <? iterations + 1).
    + apply fails_only_error. reflexivity.
    + apply fails_only_bind; [apply sweep_fails_only |].
      intros _. apply fails_only_bind;
        [apply recompute_rewrites_to_apply_fails_only |].
      intros rewrites. destruct (bool_decide (rewrites = ∅));
        [apply fails_only_ret | apply IH].
Qed.

End PassesFail.

Section PassesRecursion.

Variable env : Collaborators.
Variable analyzer_options : AnalyzerOptions.
Variable catalog : Catalog.
Variable type_factory : TypeFactory.
Variable allowed : Event -> bool.
Variable st0 : DriverState.

Lemma run_user_rewriters_keeps who rewriters :
  (forall p, allowed (EvRewrite (who p)) = true) ->
  (forall p rule, is_builtin_invocation rule (EvRewrite (who p)) = false) ->
  preserves (in_progress allowed st0)
    (run_user_rewriters env analyzer_options catalog type_factory who
       rewriters).
Proof.
  intros Hallowed Huser.
  induction rewriters as [| rewriter rest IH]; cbn.
  - apply preserves_ret.
  - eapply triple_bind; [| intros u; exact IH].
    eapply triple_weaken;
      [apply (apply_user_rewriter_keeps env analyzer_options catalog
                type_factory allowed st0 who rewriter); auto
      | auto | |]; cbn; tauto.
Qed.

Hypothesis builtin_allowed :
  forall rule, allowed (EvRewrite (BuiltinRewriter rule)) = true.
Hypothesis scan_allowed :
  forall root, allowed (EvFindRelevantRewriters root) = true.

Lemma sweep_keeps order rewrites_to_apply :
  preserves (in_progress allowed st0)
    (sweep env analyzer_options catalog type_factory order
       rewrites_to_apply).
Proof.
  induction order as [| ast_rewrite rest IH]; cbn.
  - apply preserves_ret.
  - eapply triple_bind; [| intros u; exact IH].
    destruct (bool_decide (ast_rewrite ∈ rewrites_to_apply)).
    + eapply triple_weaken;
        [apply (apply_builtin_rewriter_keeps env analyzer_options catalog
                  type_factory allowed st0 ast_rewrite); auto
        | auto | |]; cbn; tauto.
    + apply preserves_ret.
Qed.

(** The loop keeps what the passes keep; when it ends without an error the
    scanner finds, in the tree the last sweep left, no enabled rule but
    perhaps the anonymization rule. *)
Lemma convergence_loop_keeps fuel :
  forall iterations rewrites_to_apply,
    triple (in_progress allowed st0)
      (convergence_loop env analyzer_options catalog type_factory fuel
         iterations rewrites_to_apply)
      (fun _ st =>
         in_progress allowed st0 st /\
         at_fixed_point env analyzer_options (last_rewrite_result st))
      (fun _ st => in_progress allowed st0 st).
Proof.
  induction fuel as [| fuel IH]; intros iterations rewrites_to_apply; cbn.
  - apply triple_return_status. auto.
  - destruct (kMaxIterations <? iterations + 1).
    + apply triple_return_status. auto.
    + eapply triple_bind; [apply sweep_keeps |].
      intros u st H.
      unfold bind, recompute_rewrites_to_apply, get, log, ASSIGN_OR_RETURN,
        ret, return_status. cbn.
      assert (Hscan := recompute_rewrites_to_apply_keeps env analyzer_options
                         allowed st0 scan_allowed st H).
      unfold recompute_rewrites_to_apply, bind, get, log, ASSIGN_OR_RETURN,
        ret, return_status in Hscan. cbn in Hscan.
      destruct (FindRelevantRewriters env (last_rewrite_result st))
        as [checker |] eqn:Hfind; cbn in Hscan |- *; [| exact Hscan].
      case_bool_decide as Hempty; cbn.
      * split; [exact Hscan |]. exists checker. cbn. split; assumption.
      * apply IH. exact Hscan.
Qed.

End PassesRecursion.

(** ** The passes as a whole *)

Lemma triple_errors {A} (P I : DriverState -> Prop) (m : M A) Q
    (X : DriverState -> Prop) :
  triple P m Q (fun _ => I) -> fails_only m ->
  triple P m Q (fun s st => I st /\ (status_ok s = true -> X st)).
Proof.
  intros Hm Hfail st HP. specialize (Hm st HP).
  destruct (m st) as [[a | s] st'] eqn:Hrun; [exact Hm |].
  split; [exact Hm |]. rewrite (Hfail _ _ _ Hrun). discriminate.
Qed.

Section Passes.

Variable env : Collaborators.
Variable analyzer_options : AnalyzerOptions.
Variable catalog : Catalog.
Variable type_factory : TypeFactory.

(** The scanner calls of the detection are its only effect. *)
Lemma detect_rewrites_state st :
  exists calls,
    snd (detect_rewrites env st)
    = mkDriverState (analyzer_output st) (sequences st)
        (options_for_rewrite st) (last_rewrite_result st)
        (trace st ++ calls) /\
    (calls = [] \/
     calls = [EvFindRelevantRewriters
                (NodeFromAnalyzerOutput (analyzer_output st))]).
Proof.
  unfold detect_rewrites, bind, get, RET_CHECK, log, ret, return_status,
    ASSIGN_OR_RETURN.
  destruct st as [output seqs options last t]. cbn.
  repeat match goal with
         | |- context [if ?b then _ else _] => destruct b; cbn
         | |- context [match ?x with Value _ => _ | Error _ => _ end] =>
             destruct x; cbn
         end;
    first [ exists []; split; [rewrite app_nil_r; reflexivity | auto]
          | eexists; split; [reflexivity | auto] ].
Qed.

Lemma rewrite_passes_spec (st_in : DriverState) :
  triple (fun st => st = st_in)
    (rewrite_passes env analyzer_options catalog type_factory)
    (fun _ st =>
       in_progress any_event (declared st_in) st /\
       (trailing_rewriters analyzer_options = [] ->
        in_progress not_builtin_event (declared st_in) st \/
        at_fixed_point env analyzer_options (last_rewrite_result st)))
    (fun s st =>
       in_progress any_event (declared st_in) st /\
       (status_ok s = true -> options_for_rewrite st = None)).
Proof.
  set (st0 := declared st_in).
  set (I0 := fun st => in_progress not_builtin_event st0 st
                       /\ options_for_rewrite st = None).
  set (Rerr := fun (s : Status) st =>
                 in_progress any_event st0 st
                 /\ (status_ok s = true -> options_for_rewrite st = None)).
  assert (Hexit : forall c : bool,
             triple I0
               (if c then accumulate_rewriter_timer;; return_status OkStatus
                else ret tt)
               (fun _ => I0) Rerr).
  { intros [|]; [| apply triple_ret; auto].
    intros st [H Hopts]. cbn. split; [| auto].
    apply (progress_allowed_mono not_builtin_event); [auto |].
    exact (accumulate_rewriter_timer_keeps not_builtin_event st0 st H). }
  unfold rewrite_passes.
  eapply triple_bind with (Q1 := fun _ => I0).
  { intros st ->. cbn. split; [| reflexivity].
    apply progress_start; reflexivity. }
  intros u0. eapply triple_bind with (Q1 := fun _ => I0).
  { intros st [H Hopts].
    assert (Hkeep := detect_rewrites_keeps env not_builtin_event st0
                       ltac:(reflexivity) st H).
    destruct (detect_rewrites_state st) as (calls & Hstate & _).
    destruct (detect_rewrites env st) as [[detected | s] st'] eqn:Hrun;
      cbn in Hstate; subst st'; cbn.
    - split; [exact Hkeep | exact Hopts].
    - split; [| auto].
      apply (progress_allowed_mono not_builtin_event); auto. }
  intros detected. eapply triple_bind; [apply Hexit |].
  intros u1. cbn zeta. eapply triple_bind; [apply Hexit |].
  intros v1.
  eapply triple_bind with (Q1 := fun _ => in_progress not_builtin_event st0).
  { apply triple_errors; [| apply run_user_rewriters_fails_only].
    eapply triple_weaken.
    - apply (run_user_rewriters_keeps env analyzer_options catalog
               type_factory not_builtin_event st0 LeadingRewriter);
        reflexivity.
    - intros st [H _]. exact H.
    - auto.
    - cbn. intros _ st H.
      apply (progress_allowed_mono not_builtin_event); auto. }
  intros v2.
  eapply triple_bind
    with (Q1 := fun _ st =>
                  in_progress any_event st0 st /\
                  (in_progress not_builtin_event st0 st \/
                   at_fixed_point env analyzer_options
                     (last_rewrite_result st))).
  { destruct (negb (bool_decide (enabled_rewrites analyzer_options ∩ detected = ∅))).
    - apply triple_errors; [| apply convergence_loop_fails_only].
      eapply triple_weaken.
      + apply (convergence_loop_keeps env analyzer_options catalog
                 type_factory any_event st0); reflexivity.
      + intros st H. apply (progress_allowed_mono not_builtin_event); auto.
      + cbn. intros _ st [H Hfix]. auto.
      + auto.
    - apply triple_ret. intros st H. split; [| auto].
      apply (progress_allowed_mono not_builtin_event); auto. }
  intros v3.
  eapply triple_bind
    with (Q1 := fun _ st =>
                  in_progress any_event st0 st /\
                  (in_progress not_builtin_event st0 st \/
                   at_fixed_point env analyzer_options
                     (last_rewrite_result st))).
  { intros st [H Hor]. cbn. split.
    - exact (accumulate_rewriter_timer_keeps any_event st0 st H).
    - destruct Hor as [Hnb | Hfix]; [left | right; exact Hfix].
      exact (accumulate_rewriter_timer_keeps not_builtin_event st0 st Hnb). }
  intros v4.
  destruct (trailing_rewriters analyzer_options) as [| rewriter rest] eqn:Htrail.
  - cbn. apply triple_ret. intros st [H Hor]. auto.
  - apply triple_errors; [| apply run_user_rewriters_fails_only].
    eapply triple_weaken.
    + apply (run_user_rewriters_keeps env analyzer_options catalog
               type_factory any_event st0 TrailingRewriter); reflexivity.
    + intros st [H _]. exact H.
    + cbn. intros _ st H. split; [exact H | discriminate].
    + auto.
Qed.

End Passes.

(** ** The installation *)

Section Installation.

Variable env : Collaborators.
Variable analyzer_options : AnalyzerOptions.

(** What the installation does: nothing when no rewriter ran; otherwise one
    call of [Update], which installs the root or fails on a null root, then
    calls that are no rewriter calls. *)
Lemma install_rewrite_result_effect st :
  let result := install_rewrite_result env analyzer_options st in
  match options_for_rewrite st with
  | None => result = (Normal tt, st)
  | Some _ =>
      (exists calls,
          trace (snd result) = trace st ++ EvUpdate :: calls /\
          Forall (fun e => is_rewrite_event e = false) calls) /\
      rewriters_details_map (runtime_info (analyzer_output (snd result)))
      = rewriters_details_map (runtime_info (analyzer_output st)) /\
      (forall s, fst result = Return s -> status_ok s = false) /\
      match last_rewrite_result st with
      | None =>
          (exists s, fst result = Return s) /\
          resolved_statement (analyzer_output (snd result))
          = resolved_statement (analyzer_output st) /\
          resolved_expr (analyzer_output (snd result))
          = resolved_expr (analyzer_output st)
      | Some n =>
          resolved_statement (analyzer_output (snd result))
          = (if IsStatement n then Some n
             else resolved_statement (analyzer_output st)) /\
          resolved_expr (analyzer_output (snd result))
          = (if IsStatement n then resolved_expr (analyzer_output st)
             else Some n)
      end
  end.
Proof.
  cbn zeta. unfold install_rewrite_result, bind, get, put.
  destruct (options_for_rewrite st) as [options |] eqn:Hopts; [| reflexivity].
  unfold Update.
  destruct (last_rewrite_result st) as [n |] eqn:Hlast.
  - destruct (IsStatement n) eqn:Hstmt;
      unfold RETURN_IF_ERROR, accumulate_validator_timer, bind, get, log,
        set_analyzer_output, ret, return_status; cbn;
      repeat match goal with
             | |- context [if ?b then _ else _] => destruct b eqn:?; cbn
             | |- context [match ?x with
                           | LEGACY_FIELDS_ACCESSED_MODE => _
                           | CLEAR_FIELDS => _ end] => destruct x; cbn
             | |- context [match ?x with Some _ => _ | None => _ end] =>
                 destruct x eqn:?; cbn
             end;
      (split; [eexists; split; [rewrite <- ?app_assoc; reflexivity
                               | repeat constructor] |]);
      (split; [reflexivity |]);
      (split; [intros s [= <-]; first [assumption | reflexivity] |
               split; reflexivity]).
  - cbn. split; [exists []; split; [reflexivity | constructor] |].
    split; [reflexivity |]. split; [intros s [= <-]; reflexivity |].
    split; [eexists; reflexivity | split; reflexivity].
Qed.

End Installation.

(** ** The driver *)

Lemma in_progress_not_installed allowed st0 st :
  in_progress allowed st0 st ->
  not_installed (analyzer_output st0) (analyzer_output st).
Proof.
  intros [new H]. destruct H. unfold not_installed.
  destruct (options_for_rewrite st) as [options |] eqn:Hopts.
  - destruct pg_built0 as [Hstmt Hexpr]; [discriminate |].
    rewrite Hstmt, Hexpr. unfold released_expr.
    destruct (resolved_statement (analyzer_output st0)); auto.
  - destruct (pg_unbuilt0 eq_refl) as (Hstmt & Hexpr & _). auto.
Qed.

Lemma bind_run {A B} (m : M A) (k : A -> M B) st a st' :
  m st = (Normal a, st') -> bind m k st = k a st'.
Proof. intros H. unfold bind. rewrite H. reflexivity. Qed.

Lemma bind_return {A B} (m : M A) (k : A -> M B) st s st' :
  m st = (Return s, st') -> bind m k st = (Return s, st').
Proof. intros H. unfold bind. rewrite H. reflexivity. Qed.

Section DriverProperties.

Variable env : Collaborators.
Variable analyzer_options : AnalyzerOptions.
Variable catalog : Catalog.
Variable type_factory : TypeFactory.

Local Abbreviation driver :=
  (InternalRewriteResolvedAstNoConvertErrorLocation env analyzer_options
     catalog type_factory).
Local Abbreviation passes := (rewrite_passes env analyzer_options catalog type_factory).
Local Abbreviation install := (install_rewrite_result env analyzer_options).

(** The runs of the driver, by the place they end at: in the passes, with
    an error or at an early exit; or after the installation. *)
Lemma driver_runs st :
  (exists s st',
      passes st = (Return s, st') /\ driver st = (Return s, st')) \/
  (exists st1 o st',
      passes st = (Normal tt, st1) /\ install st1 = (o, st') /\
      match o with
      | Return s => driver st = (Return s, st')
      | Normal _ =>
          driver st
          = (if bool_decide (is_Some (resolved_statement (analyzer_output st')))
                || bool_decide (is_Some (resolved_expr (analyzer_output st')))
             then Normal OkStatus
             else Return
                    (RetCheckFailure
                       "analyzer_output.resolved_statement() != nullptr || analyzer_output.resolved_expr() != nullptr"),
             st')
      end).
Proof.
  unfold InternalRewriteResolvedAstNoConvertErrorLocation.
  destruct (passes st) as [[[] | s] st1] eqn:Hpasses.
  - right. destruct (install st1) as [[[] | s] st'] eqn:Hinstall.
    + exists st1, (Normal tt), st'.
      split; [reflexivity | split; [exact Hinstall |]].
      rewrite (bind_run _ _ _ _ _ Hpasses), (bind_run _ _ _ _ _ Hinstall).
      unfold bind, get, RET_CHECK, ret, return_status.
      destruct (_ || _); reflexivity.
    + exists st1, (Return s), st'.
      split; [reflexivity | split; [exact Hinstall |]].
      rewrite (bind_run _ _ _ _ _ Hpasses).
      apply bind_return. exact Hinstall.
  - left. exists s, st1. split; [reflexivity |].
    apply bind_return. exact Hpasses.
Qed.

Lemma user_rewriter_leaves_runtime_info who rewriter st :
  runtime_info
    (analyzer_output
       (snd (apply_user_rewriter env analyzer_options catalog type_factory who
               rewriter st)))
  = runtime_info (analyzer_output st).
Proof.
  unfold apply_user_rewriter, ensure_options_for_rewrite, invoke_rewriter,
    bind, get, put, ret, ASSIGN_OR_RETURN, set_last_rewrite_result,
    return_status, release_output_node.
  destruct (options_for_rewrite st) as [options |]; cbn.
  - destruct (Rewrite _ _ _ _ _ _ _) as [[[root | e] properties] seqs];
      reflexivity.
  - destruct (AnalyzerOptionsForRewrite _ _ _) as [options fallback].
    destruct (resolved_statement (analyzer_output st)); cbn;
      destruct (Rewrite _ _ _ _ _ _ _) as [[[root | e] properties] seqs];
      reflexivity.
Qed.

Lemma user_rewriters_leave_runtime_info who rewriters :
  forall st,
    runtime_info
      (analyzer_output
         (snd (run_user_rewriters env analyzer_options catalog type_factory
                 who rewriters st)))
    = runtime_info (analyzer_output st).
Proof.
  induction rewriters as [| rewriter rest IH]; intros st; cbn; [reflexivity |].
  unfold bind.
  pose proof (user_rewriter_leaves_runtime_info who rewriter st) as Hstep.
  destruct (apply_user_rewriter env analyzer_options catalog type_factory who
              rewriter st) as [[[] | s] st1]; cbn in Hstep |- *.
  - rewrite IH. exact Hstep.
  - exact Hstep.
Qed.

(** C10. In every run of the driver, the invocation count and the timed
    value of each rule grow by the number of invocations of the rule's
    built-in rewriter in the run, each of which is made by the convergence
    loop; and the user-supplied rewriters, leading or trailing, leave the
    runtime info of the output as it is. *)
Theorem rewriters_details_accounting :
  (forall st,
      exists new,
        trace (snd (driver st)) = trace st ++ new /\
        forall rule,
          count (details_of (snd (driver st)) rule)
          = (count (details_of st rule)
             + count_events (is_builtin_invocation rule) new)%nat /\
          accumulated_intervals (timed_value (details_of (snd (driver st)) rule))
          = (accumulated_intervals (timed_value (details_of st rule))
             + count_events (is_builtin_invocation rule) new)%nat) /\
  (forall who rewriters st,
      runtime_info
        (analyzer_output
           (snd (run_user_rewriters env analyzer_options catalog type_factory
                   who rewriters st)))
      = runtime_info (analyzer_output st)).
Proof.
  split; [| intros; apply user_rewriters_leave_runtime_info].
  intros st.
  pose proof (rewrite_passes_spec env analyzer_options catalog type_factory
                st st eq_refl) as Hpasses.
  assert (Hfrom : forall st1 new,
             progress any_event (declared st) st1 new ->
             trace st1 = trace st ++ new /\
             forall rule,
               count (details_of st1 rule)
               = (count (details_of st rule)
                  + count_events (is_builtin_invocation rule) new)%nat /\
               accumulated_intervals (timed_value (details_of st1 rule))
               = (accumulated_intervals (timed_value (details_of st rule))
                  + count_events (is_builtin_invocation rule) new)%nat).
  { intros st1 new H. destruct H. split; [exact pg_trace0 |].
    intros rule. split; [apply pg_count0 | apply pg_timer0]. }
  destruct (driver_runs st) as [(s & st' & Hp & Hd)
                               | (st1 & o & st' & Hp & Hi & Hd)].
  - rewrite Hp in Hpasses. destruct Hpasses as [[new H] _].
    rewrite Hd. exists new. cbn. apply Hfrom. exact H.
  - rewrite Hp in Hpasses. destruct Hpasses as [[new H] _].
    destruct (Hfrom st1 new H) as [Htrace Hdetails].
    pose proof (install_rewrite_result_effect env analyzer_options st1)
      as Heffect. cbn zeta in Heffect. rewrite Hi in Heffect.
    assert (Hst' : snd (driver st) = st').
    { destruct o; rewrite Hd; reflexivity. }
    rewrite Hst'. cbn [fst snd] in Heffect.
    destruct (options_for_rewrite st1) as [options |].
    + destruct Heffect as ((calls & Hcalls & Hquiet) & Hmap & _).
      exists (new ++ EvUpdate :: calls). split.
      * rewrite Hcalls, Htrace. symmetry. apply app_assoc.
      * intros rule.
        assert (Hsame : details_of st' rule = details_of st1 rule).
        { unfold details_of, rewriters_details. rewrite Hmap. reflexivity. }
        assert (Hcount :
                 count_events (is_builtin_invocation rule)
                   (new ++ EvUpdate :: calls)
                 = count_events (is_builtin_invocation rule) new).
        { unfold count_events. rewrite List.filter_app, length_app. cbn.
          replace (List.filter (is_builtin_invocation rule) calls)
            with (@nil Event); [cbn; lia |].
          clear -Hquiet.
          induction Hquiet as [| e calls He _ IH]; [reflexivity |].
          cbn. rewrite (not_rewrite_not_builtin rule e He). exact IH. }
        rewrite Hsame, Hcount. apply Hdetails.
    + injection Heffect as _ <-. exists new. split; assumption.
Qed.

Lemma sweeps_keep allowed st0 n rewrites_to_apply st st' :
  (forall rule, allowed (EvRewrite (BuiltinRewriter rule)) = true) ->
  (forall root, allowed (EvFindRelevantRewriters root) = true) ->
  sweeps_without_converging env analyzer_options catalog type_factory n
    rewrites_to_apply st st' ->
  in_progress allowed st0 st -> in_progress allowed st0 st'.
Proof.
  intros Hbuiltin Hscan Hsweeps.
  induction Hsweeps as [| n R st st1 st2 R' st' Hsweep Hrecompute _ _ IH];
    intros H; [exact H |].
  apply IH.
  pose proof (sweep_keeps env analyzer_options catalog type_factory allowed
                st0 Hbuiltin (registration_order env) R st H) as H1.
  rewrite Hsweep in H1.
  pose proof (recompute_rewrites_to_apply_keeps env analyzer_options allowed
                st0 Hscan st1 H1) as H2.
  rewrite Hrecompute in H2. exact H2.
Qed.

(** After as many sweeps without convergence as the limit leaves, the loop
    returns the resource-exhausted error. *)
Lemma convergence_loop_exhausts n rewrites_to_apply st st' :
  sweeps_without_converging env analyzer_options catalog type_factory n
    rewrites_to_apply st st' ->
  forall iterations fuel,
    iterations + Z.of_nat n = kMaxIterations -> (n < fuel)%nat ->
    convergence_loop env analyzer_options catalog type_factory fuel
      iterations rewrites_to_apply st
    = (Return (ResourceExhaustedError max_iterations_message), st').
Proof.
  induction 1 as [R st | n R st st1 st2 R' st' Hsweep Hrecompute Hne _ IH];
    intros iterations fuel Hit Hfuel;
    (destruct fuel as [| fuel]; [lia |]); cbn [convergence_loop].
  - destruct (Z.ltb_spec kMaxIterations (iterations + 1)); [reflexivity | lia].
  - destruct (Z.ltb_spec kMaxIterations (iterations + 1)); [lia |].
    rewrite (bind_run _ _ _ _ _ Hsweep), (bind_run _ _ _ _ _ Hrecompute).
    rewrite bool_decide_false by exact Hne.
    apply IH; lia.
Qed.

(** The fuel of the loop does not matter once it exceeds the number of
    sweeps the limit leaves. *)
Lemma convergence_loop_fuel fuel :
  forall fuel' iterations rewrites_to_apply st,
    iterations <= kMaxIterations ->
    kMaxIterations - iterations < Z.of_nat fuel ->
    kMaxIterations - iterations < Z.of_nat fuel' ->
    convergence_loop env analyzer_options catalog type_factory fuel
      iterations rewrites_to_apply st
    = convergence_loop env analyzer_options catalog type_factory fuel'
        iterations rewrites_to_apply st.
Proof.
  induction fuel as [| fuel IH];
    intros fuel' iterations R st Hit Hfuel Hfuel'; [lia |].
  destruct fuel' as [| fuel']; [lia |]. cbn [convergence_loop].
  destruct (Z.ltb_spec kMaxIterations (iterations + 1)); [reflexivity |].
  unfold bind.
  destruct (sweep _ _ _ _ _ _ st) as [[[] | s] st1]; [| reflexivity].
  destruct (recompute_rewrites_to_apply _ _ st1) as [[R' | s] st2];
    [| reflexivity].
  destruct (bool_decide (R' = ∅)); [reflexivity |].
  apply IH; lia.
Qed.

Lemma progress_events allowed st0 st new new' :
  progress allowed st0 st new -> trace st = trace st0 ++ new' -> new' = new.
Proof.
  intros H Htrace. destruct H. rewrite pg_trace0 in Htrace.
  apply app_inv_head in Htrace. congruence.
Qed.

Lemma no_update_not_in (new : list Event) :
  Forall (fun e => is_update_event e = false) new -> ~ In EvUpdate new.
Proof.
  intros Hall Hin. rewrite Forall_forall in Hall.
  apply list_elem_of_In in Hin. specialize (Hall _ Hin). discriminate.
Qed.

(** C1, as the code has it. When the loop is entered and 25 sweeps in a
    row end without an error and leave a non-empty apply-set, the driver
    returns the resource-exhausted error whose message names the limit 25.
    On that failure, and in every run that ends before [Update] is called,
    no tree is installed: a root slot of the output is as it was at entry
    or null (the root has been released to the driver), and
    [max_column_id] is as it was. (The runtime info and the output
    properties are not kept, and the validator runs after [Update].) *)
Theorem iteration_limit_and_failures :
  (forall st detected st1 st2 st3,
      detect_rewrites env (declared st) = (Normal detected, st1) ->
      enabled_rewrites analyzer_options ∩ detected <> ∅ ->
      run_user_rewriters env analyzer_options catalog type_factory
        LeadingRewriter (leading_rewriters analyzer_options) st1
      = (Normal tt, st2) ->
      sweeps_without_converging env analyzer_options catalog type_factory
        (Z.to_nat kMaxIterations)
        (enabled_rewrites analyzer_options ∩ detected) st2 st3 ->
      run_driver driver st
      = (ResourceExhaustedError
           "Query exceeded configured maximum number of rewriter iterations (25) without converging.",
         st3) /\
      not_installed (analyzer_output st) (analyzer_output st3) /\
      exists new, trace st3 = trace st ++ new /\ ~ In EvUpdate new) /\
  (forall st,
      exists new,
        trace (snd (run_driver driver st)) = trace st ++ new /\
        (In EvUpdate new \/
         not_installed (analyzer_output st)
           (analyzer_output (snd (run_driver driver st))))).
Proof.
  split.
  - intros st detected st1 st2 st3 Hdetect Hne Hleading Hsweeps.
    assert (Hloop := convergence_loop_exhausts _ _ _ _ Hsweeps 0
                       (S (Z.to_nat kMaxIterations))
                       ltac:(reflexivity) ltac:(lia)).
    assert (Hpasses : passes st
                      = (Return (ResourceExhaustedError max_iterations_message),
                         st3)).
    { unfold rewrite_passes.
      rewrite (bind_run _ _ st tt (declared st)) by reflexivity.
      rewrite (bind_run _ _ _ _ _ Hdetect).
      assert (Hdet : detected <> ∅)
        by (intros ->; apply Hne; apply intersection_empty_r_L).
      rewrite (bool_decide_false _ Hdet). cbn [andb].
      rewrite (bind_run _ _ st1 tt st1) by reflexivity. cbn zeta.
      rewrite (bool_decide_false _ Hne). cbn [andb negb].
      rewrite (bind_run _ _ st1 tt st1) by reflexivity.
      rewrite (bind_run _ _ _ _ _ Hleading).
      apply bind_return. exact Hloop. }
    assert (Hprogress : in_progress any_event (declared st) st3).
    { eapply sweeps_keep; [reflexivity | reflexivity | exact Hsweeps |].
      pose proof (run_user_rewriters_keeps env analyzer_options catalog
                    type_factory any_event (declared st) LeadingRewriter
                    (leading_rewriters analyzer_options)
                    ltac:(reflexivity) ltac:(reflexivity) st1) as H2.
      rewrite Hleading in H2. apply H2.
      pose proof (detect_rewrites_keeps env any_event (declared st)
                    ltac:(reflexivity) (declared st)) as H1.
      rewrite Hdetect in H1. apply H1.
      apply progress_start; reflexivity. }
    split; [| split].
    + unfold run_driver, InternalRewriteResolvedAstNoConvertErrorLocation.
      rewrite (bind_return _ _ _ _ _ Hpasses). reflexivity.
    + exact (in_progress_not_installed _ _ _ Hprogress).
    + destruct Hprogress as [new H]. exists new. destruct H.
      split; [exact pg_trace0 | apply no_update_not_in; assumption].
  - intros st. unfold run_driver.
    pose proof (rewrite_passes_spec env analyzer_options catalog type_factory
                  st st eq_refl) as Hpasses.
    destruct (driver_runs st) as [(s & st' & Hp & Hd)
                                 | (st1 & o & st' & Hp & Hi & Hd)].
    + rewrite Hp in Hpasses. destruct Hpasses as [Hprogress _].
      rewrite Hd. cbn [snd].
      pose proof (in_progress_not_installed _ _ _ Hprogress) as Hnot.
      destruct Hprogress as [new H]. exists new. destruct H. auto.
    + rewrite Hp in Hpasses. destruct Hpasses as [Hprogress _].
      pose proof (install_rewrite_result_effect env analyzer_options st1)
        as Heffect. cbn zeta in Heffect. rewrite Hi in Heffect.
      assert (Hst' : snd (let '(outcome, st'0) := driver st in
                          (returned outcome, st'0)) = st').
      { destruct o; rewrite Hd; reflexivity. }
      rewrite Hst'. cbn [fst snd] in Heffect.
      pose proof (in_progress_not_installed _ _ _ Hprogress) as Hnot.
      destruct Hprogress as [new H]. destruct H.
      destruct (options_for_rewrite st1) as [options |].
      * destruct Heffect as ((calls & Hcalls & _) & _).
        exists (new ++ EvUpdate :: calls). split.
        -- rewrite Hcalls, pg_trace0. symmetry. apply app_assoc.
        -- left. apply in_or_app. right. left. reflexivity.
      * injection Heffect as _ <-. exists new. auto.
Qed.

Lemma exactly_one_root_released (o : AnalyzerOutput) :
  exactly_one_root o -> released_expr o = None.
Proof.
  unfold exactly_one_root, released_expr.
  intros [[_ Hexpr] | [Hstmt _]].
  - rewrite Hexpr. destruct (resolved_statement o); reflexivity.
  - rewrite Hstmt. reflexivity.
Qed.

(** The driver proper: a successful run on an output with exactly one root
    leaves an output with exactly one root. *)
Lemma driver_success_root st :
  exactly_one_root (analyzer_output st) ->
  status_ok (fst (run_driver driver st)) = true ->
  exactly_one_root (analyzer_output (snd (run_driver driver st))).
Proof.
  intros Hone. unfold run_driver.
  pose proof (rewrite_passes_spec env analyzer_options catalog type_factory
                st st eq_refl) as Hpasses.
  destruct (driver_runs st) as [(s & st' & Hp & Hd)
                               | (st1 & o & st' & Hp & Hi & Hd)].
  - rewrite Hp in Hpasses. destruct Hpasses as [[new H] Hok].
    rewrite Hd. cbn [fst snd returned]. intros Hs.
    destruct H. destruct (pg_unbuilt0 (Hok Hs)) as (Hstmt & Hexpr & _).
    unfold exactly_one_root. rewrite Hstmt, Hexpr. exact Hone.
  - rewrite Hp in Hpasses. destruct Hpasses as [[new H] _].
    pose proof (install_rewrite_result_effect env analyzer_options st1)
      as Heffect. cbn zeta in Heffect. rewrite Hi in Heffect.
    cbn [fst snd] in Heffect. destruct H.
    assert (Hsnd : snd (let '(outcome, st'0) := driver st in
                        (returned outcome, st'0)) = st').
    { destruct o; rewrite Hd; reflexivity. }
    rewrite Hsnd.
    destruct (options_for_rewrite st1) as [options |] eqn:Hopts.
    + destruct Heffect as (_ & _ & Hfail & Hroots).
      destruct o as [[] | s].
      * destruct (pg_built0 ltac:(discriminate)) as [Hstmt Hexpr].
        change (analyzer_output (declared st)) with (analyzer_output st)
          in Hexpr.
        rewrite (exactly_one_root_released _ Hone) in Hexpr.
        destruct (last_rewrite_result st1) as [n |].
        -- destruct Hroots as [Hs He]. rewrite Hstmt in Hs.
           rewrite Hexpr in He. intros _.
           unfold exactly_one_root. rewrite Hs, He.
           destruct (IsStatement n); [left | right]; eauto.
        -- destruct Hroots as [[s Hs] _]. discriminate.
      * rewrite Hd. cbn [fst snd returned]. intros Hs.
        rewrite (Hfail s eq_refl) in Hs. discriminate.
    + injection Heffect as -> ->.
      destruct (pg_unbuilt0 eq_refl) as (Hstmt & Hexpr & _).
      intros _. unfold exactly_one_root. rewrite Hstmt, Hexpr. exact Hone.
Qed.

Lemma in_filter_false (p : Event -> bool) (new : list Event) (e : Event) :
  Forall (fun e => p e = false) new -> In e new -> p e = false.
Proof.
  intros Hall Hin. rewrite Forall_forall in Hall.
  apply Hall. apply list_elem_of_In. exact Hin.
Qed.

(** A successful run in which the loop invoked a built-in rewriter, with
    no trailing rewriter, installs a tree at its fixed point. *)
Lemma driver_success_fixed_point st new :
  trace (snd (run_driver driver st)) = trace st ++ new ->
  status_ok (fst (run_driver driver st)) = true ->
  (exists rule, In (EvRewrite (BuiltinRewriter rule)) new) ->
  trailing_rewriters analyzer_options = [] ->
  at_fixed_point env analyzer_options
    (NodeFromAnalyzerOutput (analyzer_output (snd (run_driver driver st)))).
Proof.
  unfold run_driver. intros Htrace Hok [rule Hrule] Htrailing.
  pose proof (rewrite_passes_spec env analyzer_options catalog type_factory
                st st eq_refl) as Hpasses.
  destruct (driver_runs st) as [(s & st' & Hp & Hd)
                               | (st1 & o & st' & Hp & Hi & Hd)].
  - exfalso. rewrite Hp in Hpasses. destruct Hpasses as [[new' H] Hnone].
    rewrite Hd in Htrace, Hok. cbn [fst snd returned] in Htrace, Hok.
    rewrite (progress_events _ _ _ _ _ H Htrace) in Hrule.
    destruct H. destruct (pg_unbuilt0 (Hnone Hok)) as (_ & _ & _ & _ & Hquiet).
    pose proof (in_filter_false _ _ _ Hquiet Hrule). discriminate.
  - rewrite Hp in Hpasses. destruct Hpasses as [[new1 H] Hfix].
    specialize (Hfix Htrailing).
    pose proof (install_rewrite_result_effect env analyzer_options st1)
      as Heffect. cbn zeta in Heffect. rewrite Hi in Heffect.
    cbn [fst snd] in Heffect.
    assert (Hsnd : snd (let '(outcome, st'0) := driver st in
                        (returned outcome, st'0)) = st').
    { destruct o; rewrite Hd; reflexivity. }
    rewrite Hsnd in Htrace |- *.
    assert (Hin1 : In (EvRewrite (BuiltinRewriter rule)) new1).
    { destruct (options_for_rewrite st1) as [options |].
      - destruct Heffect as ((calls & Hcalls & Hquiet) & _).
        rewrite Hcalls, (pg_trace _ _ _ _ H), <- app_assoc in Htrace.
        apply app_inv_head in Htrace. subst new.
        apply in_app_or in Hrule. destruct Hrule as [Hin | Hin]; [exact Hin |].
        destruct Hin as [Heq | Hin]; [discriminate |].
        pose proof (in_filter_false _ _ _ Hquiet Hin). discriminate.
      - injection Heffect as -> ->.
        rewrite (progress_events _ _ _ _ _ H Htrace) in Hrule. exact Hrule. }
    assert (Hbuilt : options_for_rewrite st1 <> None).
    { intros Hnone.
      destruct (pg_unbuilt _ _ _ _ H Hnone) as (_ & _ & _ & _ & Hquiet).
      pose proof (in_filter_false _ _ _ Hquiet Hin1). discriminate. }
    assert (Hlast : at_fixed_point env analyzer_options
                      (last_rewrite_result st1)).
    { destruct Hfix as [[new2 H2] | Hfix]; [exfalso | exact Hfix].
      assert (new2 = new1)
        by (eapply progress_events; [exact H | exact (pg_trace _ _ _ _ H2)]).
      subst new2.
      pose proof (in_filter_false (fun e => negb (not_builtin_event e)) new1
                    (EvRewrite (BuiltinRewriter rule))) as Hno.
      cbn in Hno. enough (true = false) by discriminate. apply Hno; [| exact Hin1].
      eapply Forall_impl; [exact (pg_allowed _ _ _ _ H2) |].
      cbn. intros e ->. reflexivity. }
    destruct (pg_built _ _ _ _ H Hbuilt) as [Hstmt _].
    destruct (options_for_rewrite st1) as [options |]; [| congruence].
    destruct Heffect as (_ & _ & Hfail & Hroots).
    destruct (last_rewrite_result st1) as [n |].
    + destruct Hroots as [Hs He]. rewrite Hstmt in Hs.
      unfold NodeFromAnalyzerOutput. rewrite Hs, He.
      destruct (IsStatement n); exact Hlast.
    + exfalso. destruct Hroots as [[s Hs] _]. subst o.
      rewrite Hd in Hok. cbn in Hok. rewrite (Hfail s eq_refl) in Hok.
      discriminate.
Qed.

(** C6. When the detection ends with a relevance set whose intersection
    with the enabled rules is empty and there is no user-supplied rewriter,
    the driver returns success; the roots, [max_column_id] and the output
    properties of the output are those of the entry, and no rewriter is
    invoked. *)
Theorem early_exit_leaves_output :
  forall st detected st1,
    detect_rewrites env (declared st) = (Normal detected, st1) ->
    enabled_rewrites analyzer_options ∩ detected = ∅ ->
    leading_rewriters analyzer_options = [] ->
    trailing_rewriters analyzer_options = [] ->
    let result := run_driver driver st in
    fst result = OkStatus /\
    resolved_statement (analyzer_output (snd result))
    = resolved_statement (analyzer_output st) /\
    resolved_expr (analyzer_output (snd result))
    = resolved_expr (analyzer_output st) /\
    max_column_id (analyzer_output (snd result))
    = max_column_id (analyzer_output st) /\
    output_properties (analyzer_output (snd result))
    = output_properties (analyzer_output st) /\
    exists new,
      trace (snd result) = trace st ++ new /\
      Forall (fun e => is_rewrite_event e = false) new.
Proof.
  intros st detected st1 Hdetect Hempty Hleading Htrailing result.
  destruct (detect_rewrites_state env (declared st)) as (calls & Hstate & Hcalls).
  rewrite Hdetect in Hstate. cbn [snd] in Hstate.
  assert (Hpasses : exists info,
             passes st
             = (Return OkStatus,
                mkDriverState
                  (with_runtime_info info (analyzer_output st1))
                  (sequences st1) (options_for_rewrite st1)
                  (last_rewrite_result st1) (trace st1))).
  { unfold rewrite_passes.
    rewrite (bind_run _ _ st tt (declared st)) by reflexivity.
    rewrite (bind_run _ _ _ _ _ Hdetect).
    unfold no_user_rewriters. rewrite Hleading, Htrailing.
    rewrite (bool_decide_true ([] = [])) by reflexivity. cbn [andb].
    destruct (bool_decide (detected = ∅)); cbn [andb].
    - eexists. reflexivity.
    - rewrite (bind_run _ _ st1 tt st1) by reflexivity. cbn zeta.
      rewrite (bool_decide_true _ Hempty). cbn [andb].
      eexists. reflexivity. }
  destruct Hpasses as [info Hpasses].
  subst result. unfold run_driver,
    InternalRewriteResolvedAstNoConvertErrorLocation.
  rewrite (bind_return _ _ _ _ _ Hpasses). subst st1. cbn.
  repeat split; try reflexivity.
  exists calls. split; [reflexivity |].
  destruct Hcalls as [-> | ->]; repeat constructor.
Qed.

Lemma driver_trace_extends st :
  exists new, trace (snd (run_driver driver st)) = trace st ++ new.
Proof.
  unfold run_driver.
  pose proof (rewrite_passes_spec env analyzer_options catalog type_factory
                st st eq_refl) as Hpasses.
  destruct (driver_runs st) as [(s & st' & Hp & Hd)
                               | (st1 & o & st' & Hp & Hi & Hd)].
  - rewrite Hp in Hpasses. destruct Hpasses as [[new H] _].
    rewrite Hd. exists new. exact (pg_trace _ _ _ _ H).
  - rewrite Hp in Hpasses. destruct Hpasses as [[new H] _].
    pose proof (install_rewrite_result_effect env analyzer_options st1)
      as Heffect. cbn zeta in Heffect. rewrite Hi in Heffect.
    cbn [fst snd] in Heffect.
    assert (Hsnd : snd (let '(outcome, st'0) := driver st in
                        (returned outcome, st'0)) = st').
    { destruct o; rewrite Hd; reflexivity. }
    rewrite Hsnd.
    destruct (options_for_rewrite st1) as [options |].
    + destruct Heffect as ((calls & Hcalls & _) & _).
      exists (new ++ EvUpdate :: calls).
      rewrite Hcalls, (pg_trace _ _ _ _ H). symmetry. apply app_assoc.
    + injection Heffect as -> ->. exists new. exact (pg_trace _ _ _ _ H).
Qed.

(** C2, as the code has it. After a sweep the apply-set becomes the enabled
    rules that the scanner finds in the current tree, without the
    anonymization rule, and the loop goes on exactly when that set is not
    empty. So a successful run in which the loop invoked a built-in
    rewriter, and that has no trailing rewriter, leaves an output whose
    root is at the fixed point. (A trailing rewriter runs after the loop
    and may leave any tree.) *)
Theorem convergence_loop_reaches_fixed_point :
  (forall fuel iterations rewrites_to_apply st st1 checker,
      iterations + 1 <= kMaxIterations ->
      sweep env analyzer_options catalog type_factory (registration_order env)
        rewrites_to_apply st = (Normal tt, st1) ->
      FindRelevantRewriters env (last_rewrite_result st1) = Value checker ->
      let recomputed :=
        (enabled_rewrites analyzer_options ∩ checker)
          ∖ {[ REWRITE_ANONYMIZATION ]} in
      let st2 :=
        snd (log (EvFindRelevantRewriters (last_rewrite_result st1)) st1) in
      (recomputed = ∅ ->
       convergence_loop env analyzer_options catalog type_factory (S fuel)
         iterations rewrites_to_apply st = (Normal tt, st2)) /\
      (recomputed <> ∅ ->
       convergence_loop env analyzer_options catalog type_factory (S fuel)
         iterations rewrites_to_apply st
       = convergence_loop env analyzer_options catalog type_factory fuel
           (iterations + 1) recomputed st2)) /\
  (forall st new,
      trace (snd (run_driver driver st)) = trace st ++ new ->
      status_ok (fst (run_driver driver st)) = true ->
      (exists rule, In (EvRewrite (BuiltinRewriter rule)) new) ->
      trailing_rewriters analyzer_options = [] ->
      at_fixed_point env analyzer_options
        (NodeFromAnalyzerOutput
           (analyzer_output (snd (run_driver driver st))))).
Proof.
  split; [| exact driver_success_fixed_point].
  intros fuel iterations R st st1 checker Hit Hsweep Hfind recomputed st2.
  assert (Hrecompute :
           recompute_rewrites_to_apply env analyzer_options st1
           = (Normal recomputed, st2)).
  { unfold recompute_rewrites_to_apply, bind, get, log. cbn.
    rewrite Hfind. reflexivity. }
  cbn [convergence_loop].
  destruct (Z.ltb_spec kMaxIterations (iterations + 1)); [lia |].
  rewrite (bind_run _ _ _ _ _ Hsweep), (bind_run _ _ _ _ _ Hrecompute).
  split; intros Hset.
  - rewrite (bool_decide_true _ Hset). reflexivity.
  - rewrite (bool_decide_false _ Hset). reflexivity.
Qed.

(** C5. With the root present: when the build is a debug build or the
    disable-checker flag is not set, the scanner is called on the root and
    its error is returned; in a debug build with a non-empty resolver set
    that differs from the checker's, the driver returns an internal error;
    otherwise the detected set is the checker's set, or the resolver's when
    the flag is set. In a release build with the flag set the scanner is not
    called and the detected set is the resolver's. *)
Theorem relevance_synchronization :
  forall st root,
    NodeFromAnalyzerOutput (analyzer_output st) = Some root ->
    let resolver :=
      relevant_rewrites (output_properties (analyzer_output st)) in
    let debug := ZETASQL_DEBUG_MODE env in
    let disabled := FLAGS_zetasql_disable_rewriter_checker env in
    let result := detect_rewrites env st in
    (debug || negb disabled = true ->
     trace (snd result) = trace st ++ [EvFindRelevantRewriters (Some root)] /\
     (forall e,
         FindRelevantRewriters env (Some root) = Error e ->
         fst result = Return (status_of_error e)) /\
     (forall checker,
         FindRelevantRewriters env (Some root) = Value checker ->
         (debug = true -> resolver <> ∅ -> resolver <> checker ->
          exists msg, fst result = Return (RetCheckFailure msg)) /\
         (debug = false \/ resolver = ∅ \/ resolver = checker ->
          fst result = Normal (if disabled then resolver else checker)))) /\
    (debug || negb disabled = false ->
     result = (Normal resolver, st)).
Proof.
  intros st root Hroot resolver debug disabled result.
  subst result. unfold detect_rewrites, bind, get, RET_CHECK, log, ret,
    return_status, ASSIGN_OR_RETURN.
  rewrite Hroot. rewrite bool_decide_true by eauto.
  fold resolver debug disabled. split.
  - intros Hcompute. rewrite Hcompute. cbn.
    destruct (FindRelevantRewriters env (Some root)) as [checker |] eqn:Hfind.
    + cbn. split; [| split; [discriminate |]].
      * destruct (debug && _); cbn; [| reflexivity].
        destruct (bool_decide (resolver = checker)); reflexivity.
      * intros checker' [= <-]. split.
        -- intros Hdebug Hne Hdiff. rewrite Hdebug. cbn.
           rewrite (bool_decide_false _ Hne). cbn.
           rewrite (bool_decide_false _ Hdiff). cbn. eauto.
        -- intros [Hdebug | [Hempty | Hsame]].
           ++ rewrite Hdebug. reflexivity.
           ++ rewrite (bool_decide_true _ Hempty), andb_false_r. reflexivity.
           ++ destruct (debug && _); cbn; [| reflexivity].
              rewrite (bool_decide_true _ Hsame). reflexivity.
    + cbn. split; [reflexivity | split; [| discriminate]].
      intros e' [= <-]. reflexivity.
  - intros Hskip. rewrite Hskip. cbn.
    apply orb_false_iff in Hskip. destruct Hskip as [_ Hflag].
    apply negb_false_iff in Hflag. rewrite Hflag.
    destruct st; reflexivity.
Qed.

(** The entry point, by cases: the callback fails; a guard holds; the
    driver proper runs and its status is converted. *)
Lemma entry_runs sql st :
  let st_cb :=
    match pre_rewrite_callback analyzer_options with
    | Some _ => snd (log EvPreRewriteCallback st)
    | None => st
    end in
  let status_cb :=
    match pre_rewrite_callback analyzer_options with
    | Some callback => callback (analyzer_output st)
    | None => OkStatus
    end in
  run_driver
    (InternalRewriteResolvedAst env analyzer_options catalog type_factory sql)
    st
  = if status_ok status_cb then
      if bool_decide (enabled_rewrites analyzer_options = ∅)
         || (negb (bool_decide (is_Some (resolved_statement (analyzer_output st))))
             && negb (bool_decide (is_Some (resolved_expr (analyzer_output st)))))
      then (OkStatus, st_cb)
      else
        (ConvertInternalErrorLocationAndAdjustErrorString env
           (error_message_mode analyzer_options)
           (attach_error_location_payload analyzer_options) sql
           (fst (run_driver driver st_cb)),
         snd (run_driver driver st_cb))
    else (status_cb, st_cb).
Proof.
  cbn zeta. unfold run_driver, InternalRewriteResolvedAst, bind, get, log,
    RETURN_IF_ERROR, ret, return_status.
  destruct (pre_rewrite_callback analyzer_options) as [callback |]; cbn.
  - destruct (status_ok (callback (analyzer_output st))); cbn; [| reflexivity].
    destruct (_ || _); cbn; [reflexivity |].
    destruct (driver _) as [outcome st']. reflexivity.
  - destruct (_ || _); cbn; [reflexivity |].
    destruct (driver _) as [outcome st']. reflexivity.
Qed.

Local Abbreviation entry sql :=
  (InternalRewriteResolvedAst env analyzer_options catalog type_factory sql).

(** C8. The entry point calls the pre-rewrite callback first, when one is
    set, with the output, and returns its error; then, when no rule is
    enabled or the output has no root, it returns success, with the output
    and the sequences as they were and no other call made. *)
Theorem entry_preconditions (sql : string) :
  forall st,
    let result := run_driver (entry sql) st in
    (forall callback,
        pre_rewrite_callback analyzer_options = Some callback ->
        (exists rest,
            trace (snd result) = trace st ++ EvPreRewriteCallback :: rest) /\
        (status_ok (callback (analyzer_output st)) = false ->
         result
         = (callback (analyzer_output st),
            snd (log EvPreRewriteCallback st)))) /\
    ((forall callback,
         pre_rewrite_callback analyzer_options = Some callback ->
         status_ok (callback (analyzer_output st)) = true) ->
     enabled_rewrites analyzer_options = ∅
     \/ (resolved_statement (analyzer_output st) = None
         /\ resolved_expr (analyzer_output st) = None) ->
     fst result = OkStatus /\
     analyzer_output (snd result) = analyzer_output st /\
     sequences (snd result) = sequences st /\
     trace (snd result)
     = trace st ++ match pre_rewrite_callback analyzer_options with
                   | Some _ => [EvPreRewriteCallback]
                   | None => []
                   end).
Proof.
  intros st result. subst result. rewrite entry_runs. cbn zeta. split.
  - intros callback Hcallback. rewrite Hcallback. split.
    + destruct (status_ok _); [| exists []; reflexivity].
      destruct (_ || _); [exists []; reflexivity |]. cbn [snd].
      destruct (driver_trace_extends (snd (log EvPreRewriteCallback st)))
        as [new Hnew].
      exists new. rewrite Hnew. cbn. rewrite <- app_assoc. reflexivity.
    + intros Hfail. rewrite Hfail. reflexivity.
  - intros Hcallback Hguard.
    assert (Hok : status_ok
                    match pre_rewrite_callback analyzer_options with
                    | Some callback => callback (analyzer_output st)
                    | None => OkStatus
                    end = true).
    { destruct (pre_rewrite_callback analyzer_options) as [callback |];
        [apply Hcallback; reflexivity | reflexivity]. }
    rewrite Hok.
    assert (Hg : bool_decide (enabled_rewrites analyzer_options = ∅)
                 || (negb (bool_decide
                             (is_Some (resolved_statement (analyzer_output st))))
                     && negb (bool_decide
                                (is_Some (resolved_expr (analyzer_output st)))))
                 = true).
    { destruct Hguard as [Hempty | [Hstmt Hexpr]].
      - rewrite (bool_decide_true _ Hempty). reflexivity.
      - rewrite Hstmt, Hexpr.
        rewrite (bool_decide_false (is_Some None))
          by (intros [? ?]; discriminate).
        apply orb_true_r. }
    rewrite Hg. cbn [fst snd].
    destruct (pre_rewrite_callback analyzer_options); cbn;
      rewrite ?app_nil_r; repeat split; reflexivity.
Qed.

(** C4, as the code has it. When the callback passes and no guard holds,
    the status of the driver proper, whatever it is, goes through the
    error-location conversion, with the error message mode, the payload
    flag and the SQL text of the call, before the entry point returns it.
    An error of the pre-rewrite callback is returned as it is, without
    conversion. *)
Theorem error_location_conversion (sql : string) :
  forall st,
    let result := run_driver (entry sql) st in
    let st_cb :=
      match pre_rewrite_callback analyzer_options with
      | Some _ => snd (log EvPreRewriteCallback st)
      | None => st
      end in
    ((forall callback,
         pre_rewrite_callback analyzer_options = Some callback ->
         status_ok (callback (analyzer_output st)) = true) ->
     enabled_rewrites analyzer_options <> ∅ ->
     NodeFromAnalyzerOutput (analyzer_output st) <> None ->
     result
     = (ConvertInternalErrorLocationAndAdjustErrorString env
          (error_message_mode analyzer_options)
          (attach_error_location_payload analyzer_options) sql
          (fst (run_driver driver st_cb)),
        snd (run_driver driver st_cb))) /\
    (forall callback,
        pre_rewrite_callback analyzer_options = Some callback ->
        status_ok (callback (analyzer_output st)) = false ->
        fst result = callback (analyzer_output st)).
Proof.
  intros st result st_cb. subst result st_cb. rewrite entry_runs. cbn zeta.
  split.
  - intros Hcallback Henabled Hroot.
    assert (Hok : status_ok
                    match pre_rewrite_callback analyzer_options with
                    | Some callback => callback (analyzer_output st)
                    | None => OkStatus
                    end = true).
    { destruct (pre_rewrite_callback analyzer_options) as [callback |];
        [apply Hcallback; reflexivity | reflexivity]. }
    rewrite Hok. rewrite (bool_decide_false _ Henabled). cbn [orb].
    unfold NodeFromAnalyzerOutput in Hroot.
    destruct (resolved_statement (analyzer_output st)) as [s |].
    + rewrite bool_decide_true by eauto. reflexivity.
    + destruct (resolved_expr (analyzer_output st)) as [e |]; [| congruence].
      rewrite (bool_decide_true (is_Some (Some e))) by eauto.
      rewrite andb_false_r. reflexivity.
  - intros callback Hcallback Hfail. rewrite Hcallback, Hfail. reflexivity.
Qed.

(** C7, as the code has it. When the conversion turns no error into
    success, a successful call of the entry point on an output with exactly
    one root leaves an output with exactly one root. (On an output with no
    root the entry point returns success and leaves it without a root.) *)
Theorem success_keeps_exactly_one_root (sql : string) :
  (forall mode attach text s,
      status_ok (ConvertInternalErrorLocationAndAdjustErrorString env mode
                   attach text s) = true ->
      status_ok s = true) ->
  forall st,
    exactly_one_root (analyzer_output st) ->
    status_ok (fst (run_driver (entry sql) st)) = true ->
    exactly_one_root (analyzer_output (snd (run_driver (entry sql) st))).
Proof.
  intros Hconvert st Hone. rewrite entry_runs. cbn zeta.
  assert (Hcb : analyzer_output
                  match pre_rewrite_callback analyzer_options with
                  | Some _ => snd (log EvPreRewriteCallback st)
                  | None => st
                  end = analyzer_output st).
  { destruct (pre_rewrite_callback analyzer_options); reflexivity. }
  destruct (status_ok
              match pre_rewrite_callback analyzer_options with
              | Some callback => callback (analyzer_output st)
              | None => OkStatus
              end) eqn:Hok.
  - destruct (_ || _).
    + intros _. cbn [snd]. rewrite Hcb. exact Hone.
    + cbn [fst snd]. intros Hs. apply Hconvert in Hs.
      apply driver_success_root; [rewrite Hcb; exact Hone | exact Hs].
  - cbn [fst]. congruence.
Qed.

End DriverProperties.

(** ** The properties in the concrete setting *)

(** The iteration limit on a tree whose trigger stays: 25 sweeps, then the
    error; the root has left the output and is not put back. *)
Lemma iteration_limit_and_failures_witness :
  exists st3,
    run_driver
      (InternalRewriteResolvedAstNoConvertErrorLocation Example.env
         Example.looping_options 0%nat 0%nat) Example.looping_state
    = (ResourceExhaustedError
         "Query exceeded configured maximum number of rewriter iterations (25) without converging.",
       st3) /\
    not_installed (analyzer_output Example.looping_state)
      (analyzer_output st3) /\
    exists new,
      trace st3 = trace Example.looping_state ++ new /\ ~ In EvUpdate new.
Proof.
  eexists.
  eapply (proj1 (iteration_limit_and_failures Example.env
                   Example.looping_options 0%nat 0%nat)
            Example.looping_state).
  - vm_compute. reflexivity.
  - apply (bool_decide_unpack _). vm_compute. exact I.
  - reflexivity.
  - change (Z.to_nat kMaxIterations) with 25%nat.
    do 25 (eapply (one_more_sweep _ _ _ _ _ _ _ _ _
                     {[ Example.REWRITE_LOOPING ]});
           [ vm_compute; reflexivity
           | vm_compute; reflexivity
           | apply (bool_decide_unpack _); vm_compute; exact I
           | ]).
    apply no_sweep.
Defined.

(** C1, as the spec words it, fails. After the resource-exhausted error the
    output is not as it was: its root has been released and is gone, and
    the details of the rule count 25 invocations. And when the validator
    rejects the tree, the driver fails after [Update] has installed the
    rewritten tree. *)
Lemma failure_changes_output :
  (let result :=
     run_driver
       (InternalRewriteResolvedAstNoConvertErrorLocation Example.env
          Example.looping_options 0%nat 0%nat) Example.looping_state in
   code (fst result) = kResourceExhausted /\
   resolved_expr (analyzer_output Example.looping_state)
   = Some Example.looping_expr /\
   resolved_expr (analyzer_output (snd result)) = None /\
   count (details_of Example.looping_state Example.REWRITE_LOOPING) = 0%nat /\
   count (details_of (snd result) Example.REWRITE_LOOPING) = 25%nat /\
   analyzer_output (snd result) <> analyzer_output Example.looping_state) /\
  (let result :=
     run_driver
       (InternalRewriteResolvedAstNoConvertErrorLocation Example.env_rejecting
          Example.nulliferror_options 0%nat 0%nat) Example.nulliferror_state in
   status_ok (fst result) = false /\
   resolved_statement (analyzer_output Example.nulliferror_state)
   = Some (Example.query_stmt (Example.nulliferror_call Example.column_x)) /\
   resolved_statement (analyzer_output (snd result))
   = Some (Example.query_stmt
             (ResolvedFunctionCall TYPE_INT64 iferror_function FN_IFERROR
                [Example.column_x;
                 ResolvedLiteral TYPE_INT64 (NullValue TYPE_INT64) true]
                [] DEFAULT_ERROR_MODE)) /\
   In EvUpdate (trace (snd result))).
Proof.
  split.
  - cbn zeta. split; [vm_compute; reflexivity |].
    split; [reflexivity |]. split; [vm_compute; reflexivity |].
    split; [reflexivity |]. split; [vm_compute; reflexivity |].
    intros H. apply (f_equal resolved_expr) in H. vm_compute in H.
    discriminate H.
  - cbn zeta. split; [vm_compute; reflexivity |].
    split; [reflexivity |]. split; [vm_compute; reflexivity |].
    vm_compute. tauto.
Qed.

(** The loop on [SELECT NULLIFERROR(x)]: one sweep, after which the scanner
    finds nothing and the loop ends; the installed root is at the fixed
    point. *)
Lemma convergence_loop_reaches_fixed_point_witness :
  (let st := declared Example.nulliferror_state in
   let st1 :=
     snd (sweep Example.env Example.nulliferror_options 0%nat 0%nat
            (registration_order Example.env)
            {[ REWRITE_NULLIFERROR_FUNCTION ]} st) in
   let st2 :=
     snd (log (EvFindRelevantRewriters (last_rewrite_result st1)) st1) in
   convergence_loop Example.env Example.nulliferror_options 0%nat 0%nat
     26 0 {[ REWRITE_NULLIFERROR_FUNCTION ]} st = (Normal tt, st2)) /\
  at_fixed_point Example.env Example.nulliferror_options
    (NodeFromAnalyzerOutput
       (analyzer_output
          (snd (run_driver
                  (InternalRewriteResolvedAstNoConvertErrorLocation
                     Example.env Example.nulliferror_options 0%nat 0%nat)
                  Example.nulliferror_state)))).
Proof.
  destruct (convergence_loop_reaches_fixed_point Example.env
              Example.nulliferror_options 0%nat 0%nat) as [Hstep Hfix].
  split.
  - cbn zeta.
    refine (proj1 (Hstep 25%nat 0 {[ REWRITE_NULLIFERROR_FUNCTION ]}
                     (declared Example.nulliferror_state) _ ∅ _ _ _) _).
    + vm_compute. discriminate.
    + vm_compute. reflexivity.
    + vm_compute. reflexivity.
    + apply (bool_decide_unpack _). vm_compute. exact I.
  - apply (Hfix Example.nulliferror_state
             (trace (snd (run_driver
                            (InternalRewriteResolvedAstNoConvertErrorLocation
                               Example.env Example.nulliferror_options
                               0%nat 0%nat)
                            Example.nulliferror_state)))).
    + reflexivity.
    + vm_compute. reflexivity.
    + exists REWRITE_NULLIFERROR_FUNCTION. vm_compute. tauto.
    + reflexivity.
Defined.

(** C2, as the spec words it, fails. With a trailing rewriter that wraps the
    root in [NULLIFERROR], the driver returns success after the loop has run
    the NULLIFERROR rewriter, and the scanner finds the enabled NULLIFERROR
    rule in the final root. *)
Lemma trailing_rewriter_leaves_fixed_point :
  let result :=
    run_driver
      (InternalRewriteResolvedAstNoConvertErrorLocation Example.env
         Example.wrapping_options 0%nat 0%nat)
      Example.nulliferror_expr_state in
  fst result = OkStatus /\
  In (EvRewrite (BuiltinRewriter REWRITE_NULLIFERROR_FUNCTION))
    (trace (snd result)) /\
  FindRelevantRewriters Example.env
    (NodeFromAnalyzerOutput (analyzer_output (snd result)))
  = Value {[ REWRITE_NULLIFERROR_FUNCTION ]} /\
  (enabled_rewrites Example.wrapping_options
     ∩ {[ REWRITE_NULLIFERROR_FUNCTION ]})
    ∖ {[ REWRITE_ANONYMIZATION ]} <> ∅ /\
  ~ at_fixed_point Example.env Example.wrapping_options
      (NodeFromAnalyzerOutput (analyzer_output (snd result))).
Proof.
  cbn zeta.
  assert (Hne : (enabled_rewrites Example.wrapping_options
                   ∩ {[ REWRITE_NULLIFERROR_FUNCTION ]})
                  ∖ {[ REWRITE_ANONYMIZATION ]} <> ∅).
  { apply (bool_decide_unpack _). vm_compute. exact I. }
  assert (Hfind : FindRelevantRewriters Example.env
                    (NodeFromAnalyzerOutput
                       (analyzer_output
                          (snd (run_driver
                                  (InternalRewriteResolvedAstNoConvertErrorLocation
                                     Example.env Example.wrapping_options
                                     0%nat 0%nat)
                                  Example.nulliferror_expr_state))))
                  = Value {[ REWRITE_NULLIFERROR_FUNCTION ]}).
  { vm_compute. reflexivity. }
  split; [vm_compute; reflexivity |].
  split; [vm_compute; tauto |].
  split; [exact Hfind |]. split; [exact Hne |].
  intros (checker & Hchecker & Hempty).
  rewrite Hfind in Hchecker. injection Hchecker as <-.
  exact (Hne Hempty).
Qed.

(** The conversion on [SELECT NULLIFERROR(x)] with a hint, whose
    unimplemented error goes through it, and the error of a failing
    callback, which does not. *)
Lemma error_location_conversion_witness :
  run_driver
    (InternalRewriteResolvedAst Example.env Example.nulliferror_options
       0%nat 0%nat "SELECT NULLIFERROR(x)")
    (entry_state
       (Example.output_of
          (Some (Example.query_stmt
                   (Example.hinted_nulliferror_call Example.column_x
                      Example.literal_1)))
          None 3) fresh_sequence)
  = (ConvertInternalErrorLocationAndAdjustErrorString Example.env
       (error_message_mode Example.nulliferror_options)
       (attach_error_location_payload Example.nulliferror_options)
       "SELECT NULLIFERROR(x)"
       (fst (run_driver
               (InternalRewriteResolvedAstNoConvertErrorLocation Example.env
                  Example.nulliferror_options 0%nat 0%nat)
               (entry_state
                  (Example.output_of
                     (Some (Example.query_stmt
                              (Example.hinted_nulliferror_call
                                 Example.column_x Example.literal_1)))
                     None 3) fresh_sequence))),
     snd (run_driver
            (InternalRewriteResolvedAstNoConvertErrorLocation Example.env
               Example.nulliferror_options 0%nat 0%nat)
            (entry_state
               (Example.output_of
                  (Some (Example.query_stmt
                           (Example.hinted_nulliferror_call
                              Example.column_x Example.literal_1)))
                  None 3) fresh_sequence))) /\
  fst (run_driver
         (InternalRewriteResolvedAst Example.env Example.callback_options
            0%nat 0%nat "SELECT NULLIFERROR(x)")
         Example.nulliferror_state)
  = Example.failing_callback (analyzer_output Example.nulliferror_state).
Proof.
  split.
  - apply (proj1 (error_location_conversion Example.env
                    Example.nulliferror_options 0%nat 0%nat
                    "SELECT NULLIFERROR(x)" _)).
    + intros callback H. discriminate H.
    + apply (bool_decide_unpack _). vm_compute. exact I.
    + discriminate.
  - apply (proj2 (error_location_conversion Example.env
                    Example.callback_options 0%nat 0%nat
                    "SELECT NULLIFERROR(x)" Example.nulliferror_state)
             Example.failing_callback).
    + reflexivity.
    + reflexivity.
Defined.

(** C4, as the spec words it, fails: the error of the pre-rewrite callback
    carries an internal error location, which the conversion would turn into
    text; the entry point returns the error as the callback made it. *)
Lemma callback_error_is_not_converted :
  let returned_status :=
    fst (run_driver
           (InternalRewriteResolvedAst Example.env Example.callback_options
              0%nat 0%nat "SELECT NULLIFERROR(x)")
           Example.nulliferror_state) in
  returned_status
  = mkStatus kInvalidArgument "rejected by the callback" (Some 7) /\
  ConvertInternalErrorLocationAndAdjustErrorString Example.env
    (error_message_mode Example.callback_options)
    (attach_error_location_payload Example.callback_options)
    "SELECT NULLIFERROR(x)"
    (mkStatus kInvalidArgument "rejected by the callback" (Some 7))
  = mkStatus kInvalidArgument "rejected by the callback [at 7]" None /\
  returned_status
  <> ConvertInternalErrorLocationAndAdjustErrorString Example.env
       (error_message_mode Example.callback_options)
       (attach_error_location_payload Example.callback_options)
       "SELECT NULLIFERROR(x)"
       (mkStatus kInvalidArgument "rejected by the callback" (Some 7)).
Proof.
  cbn zeta. split; [vm_compute; reflexivity |].
  split; [vm_compute; reflexivity |].
  vm_compute. discriminate.
Qed.

(** The detection on [SELECT NULLIFERROR(x)]: in a release build with the
    checker on, the scanner is called and its set is the detected one; in a
    debug build, a resolver set that differs from the scanner's is an
    internal error. *)
Lemma relevance_synchronization_witness :
  (trace (snd (detect_rewrites Example.env Example.nulliferror_state))
   = trace Example.nulliferror_state
     ++ [EvFindRelevantRewriters
           (Some (Example.query_stmt
                    (Example.nulliferror_call Example.column_x)))] /\
   fst (detect_rewrites Example.env Example.nulliferror_state)
   = Normal {[ REWRITE_NULLIFERROR_FUNCTION ]}) /\
  exists msg,
    fst (detect_rewrites Example.env_debug Example.mismatch_state)
    = Return (RetCheckFailure msg).
Proof.
  split.
  - destruct (relevance_synchronization Example.env Example.nulliferror_state
                (Example.query_stmt
                   (Example.nulliferror_call Example.column_x)) eq_refl)
      as [Hscan _].
    destruct (Hscan ltac:(reflexivity)) as (Htrace & _ & Hchecker).
    split; [exact Htrace |].
    assert (Hfind : FindRelevantRewriters Example.env
                      (Some (Example.query_stmt
                               (Example.nulliferror_call Example.column_x)))
                    = Value {[ REWRITE_NULLIFERROR_FUNCTION ]})
      by (vm_compute; reflexivity).
    apply (proj2 (Hchecker _ Hfind)). left. reflexivity.
  - destruct (relevance_synchronization Example.env_debug
                Example.mismatch_state
                (Example.query_stmt
                   (Example.nulliferror_call Example.column_x)) eq_refl)
      as [Hscan _].
    destruct (Hscan ltac:(reflexivity)) as (_ & _ & Hchecker).
    assert (Hfind : FindRelevantRewriters Example.env_debug
                      (Some (Example.query_stmt
                               (Example.nulliferror_call Example.column_x)))
                    = Value {[ REWRITE_NULLIFERROR_FUNCTION ]})
      by (vm_compute; reflexivity).
    apply (proj1 (Hchecker _ Hfind)).
    + reflexivity.
    + apply (bool_decide_unpack _). vm_compute. exact I.
    + apply (bool_decide_unpack _). vm_compute. exact I.
Defined.

(** The early exit on [SELECT 1] with the NULLIFERROR rule enabled. *)
Lemma early_exit_leaves_output_witness :
  let result :=
    run_driver
      (InternalRewriteResolvedAstNoConvertErrorLocation Example.env
         Example.nulliferror_options 0%nat 0%nat) Example.select_1_state in
  fst result = OkStatus /\
  resolved_statement (analyzer_output (snd result))
  = resolved_statement (analyzer_output Example.select_1_state) /\
  resolved_expr (analyzer_output (snd result))
  = resolved_expr (analyzer_output Example.select_1_state) /\
  max_column_id (analyzer_output (snd result))
  = max_column_id (analyzer_output Example.select_1_state) /\
  output_properties (analyzer_output (snd result))
  = output_properties (analyzer_output Example.select_1_state) /\
  exists new,
    trace (snd result) = trace Example.select_1_state ++ new /\
    Forall (fun e => is_rewrite_event e = false) new.
Proof.
  eapply (early_exit_leaves_output Example.env Example.nulliferror_options
            0%nat 0%nat Example.select_1_state ∅).
  - vm_compute. reflexivity.
  - apply (bool_decide_unpack _). vm_compute. exact I.
  - reflexivity.
  - reflexivity.
Defined.

Lemma Example_convert_keeps_errors mode attach text s :
  status_ok (Example.convert mode attach text s) = true -> status_ok s = true.
Proof.
  unfold Example.convert. destruct (internal_error_location s); auto.
Defined.

(** A successful call on [SELECT NULLIFERROR(x)]. *)
Lemma success_keeps_exactly_one_root_witness :
  exactly_one_root
    (analyzer_output
       (snd (run_driver
               (InternalRewriteResolvedAst Example.env
                  Example.nulliferror_options 0%nat 0%nat
                  "SELECT NULLIFERROR(x)")
               Example.nulliferror_state))).
Proof.
  apply (success_keeps_exactly_one_root Example.env
           Example.nulliferror_options 0%nat 0%nat "SELECT NULLIFERROR(x)").
  - exact Example_convert_keeps_errors.
  - left. split; [eexists; reflexivity | reflexivity].
  - vm_compute. reflexivity.
Defined.

(** C7, as the spec words it, fails: on an output without a root the entry
    point returns success, and the output has no root. *)
Lemma success_without_root :
  let result :=
    run_driver
      (InternalRewriteResolvedAst Example.env Example.nulliferror_options
         0%nat 0%nat EmptyString)
      Example.rootless_state in
  fst result = OkStatus /\
  resolved_statement (analyzer_output (snd result)) = None /\
  resolved_expr (analyzer_output (snd result)) = None /\
  ~ exactly_one_root (analyzer_output (snd result)).
Proof.
  cbn zeta. split; [vm_compute; reflexivity |].
  split; [vm_compute; reflexivity |]. split; [vm_compute; reflexivity |].
  intros [[[n Hn] _] | [_ [n Hn]]]; vm_compute in Hn; discriminate Hn.
Qed.

(** The entry point with a failing callback, and with no rule enabled. *)
Lemma entry_preconditions_witness :
  ((exists rest,
       trace (snd (run_driver
                     (InternalRewriteResolvedAst Example.env
                        Example.callback_options 0%nat 0%nat "SELECT 1")
                     Example.select_1_state))
       = trace Example.select_1_state ++ EvPreRewriteCallback :: rest) /\
   run_driver
     (InternalRewriteResolvedAst Example.env Example.callback_options
        0%nat 0%nat "SELECT 1")
     Example.select_1_state
   = (Example.failing_callback (analyzer_output Example.select_1_state),
      snd (log EvPreRewriteCallback Example.select_1_state))) /\
  (let result :=
     run_driver
       (InternalRewriteResolvedAst Example.env Example.no_rule_options
          0%nat 0%nat "SELECT 1")
       Example.select_1_state in
   fst result = OkStatus /\
   analyzer_output (snd result) = analyzer_output Example.select_1_state /\
   sequences (snd result) = sequences Example.select_1_state /\
   trace (snd result)
   = trace Example.select_1_state
     ++ match pre_rewrite_callback Example.no_rule_options with
        | Some _ => [EvPreRewriteCallback]
        | None => []
        end).
Proof.
  split.
  - destruct (proj1 (entry_preconditions Example.env Example.callback_options
                       0%nat 0%nat "SELECT 1" Example.select_1_state)
                Example.failing_callback eq_refl) as [Hfirst Herror].
    split; [exact Hfirst | apply Herror; reflexivity].
  - apply (proj2 (entry_preconditions Example.env Example.no_rule_options
                    0%nat 0%nat "SELECT 1" Example.select_1_state)).
    + intros callback H. discriminate H.
    + left. reflexivity.
Defined.

(** * Further properties *)

(** ** The NULLIFERROR rewriter on whole trees *)

Lemma visit_children_identity (l : list ResolvedNode) :
  Forall (fun n => has_nulliferror n = false -> VisitAll n = Value n) l ->
  existsb has_nulliferror l = false ->
  visit_children VisitAll l = Value l.
Proof.
  induction 1 as [| c l Hc _ IH]; intros Hclean; cbn in *; [reflexivity |].
  apply orb_false_iff in Hclean. destruct Hclean as [Hc' Hl].
  rewrite (Hc Hc'), (IH Hl). reflexivity.
Qed.

Lemma VisitAll_unchanged (n : ResolvedNode) :
  has_nulliferror n = false -> VisitAll n = Value n.
Proof.
  induction n as [t v e | t f s args hints em IHargs IHhints
                 | k c t ch IHch] using ResolvedNode_forall_ind;
    intros Hclean; cbn in Hclean |- *.
  - reflexivity.
  - apply orb_false_iff in Hclean. destruct Hclean as [Hclean Hhints].
    apply orb_false_iff in Hclean. destruct Hclean as [Hid Hargs].
    rewrite (visit_children_identity args IHargs Hargs).
    rewrite (visit_children_identity hints IHhints Hhints).
    unfold PostVisitResolvedFunctionCall. rewrite Hid. reflexivity.
  - rewrite (visit_children_identity ch IHch Hclean). reflexivity.
Qed.

Lemma VisitAll_fixed (n n' : ResolvedNode) :
  VisitAll n = Value n' -> VisitAll n' = Value n'.
Proof.
  intros Hvisit. apply VisitAll_unchanged.
  exact (VisitAll_clean n n' Hvisit).
Qed.

(** X1: the rewriter returns a tree as it is exactly when the tree holds
    no built-in NULLIFERROR call. *)
Theorem VisitAll_identity_without_nulliferror (n : ResolvedNode) :
  has_nulliferror n = false <-> VisitAll n = Value n.
Proof.
  split.
  - exact (VisitAll_unchanged n).
  - intros Hvisit. exact (VisitAll_clean n n Hvisit).
Qed.

(** X2: rewriting is idempotent: the rewriter returns its own result
    as it is. *)
Theorem VisitAll_idempotent (n n' : ResolvedNode) :
  VisitAll n = Value n' -> VisitAll n' = Value n'.
Proof. exact (VisitAll_fixed n n'). Qed.

Lemma VisitAll_idempotent_witness :
  VisitAll
    (Example.query_stmt
       (ResolvedFunctionCall TYPE_INT64 iferror_function FN_IFERROR
          [Example.column_x;
           ResolvedLiteral TYPE_INT64 (NullValue TYPE_INT64) true]
          [] DEFAULT_ERROR_MODE))
  = Value
      (Example.query_stmt
         (ResolvedFunctionCall TYPE_INT64 iferror_function FN_IFERROR
            [Example.column_x;
             ResolvedLiteral TYPE_INT64 (NullValue TYPE_INT64) true]
            [] DEFAULT_ERROR_MODE)).
Proof.
  apply (VisitAll_idempotent
           (Example.query_stmt (Example.nulliferror_call Example.column_x))).
  reflexivity.
Defined.




Lemma VisitAll_keeps_kind (n n' : ResolvedNode) :
  VisitAll n = Value n' -> IsStatement n' = IsStatement n.
Proof.
  intros Hvisit.
  destruct n as [t v e | t f s args hints em | k c t ch]; cbn in Hvisit.
  - injection Hvisit as <-. reflexivity.
  - destruct (visit_children VisitAll args); [| discriminate].
    destruct (visit_children VisitAll hints); [| discriminate].
    unfold PostVisitResolvedFunctionCall, RewriteNullIfError, IfError
      in Hvisit.
    repeat match type of Hvisit with
           | context [if ?b then _ else _] => destruct b
           | context [match ?l with [] => _ | _ :: _ => _ end] => destruct l
           end; try discriminate; injection Hvisit as <-; reflexivity.
  - destruct (visit_children VisitAll ch); [| discriminate].
    injection Hvisit as <-. reflexivity.
Qed.

(** X4: the NULLIFERROR rewriter as the driver sees it. It touches
    neither the output properties nor the column-id sequences; the root it
    returns for an input root is not null, is the visited input, and is a
    statement exactly when the input is one; and options without an
    id-string pool or without a column-id sequence are an internal error. *)
Theorem NullIfErrorFunctionRewriter_frame
    (options : AnalyzerOptions) (input : option ResolvedNode)
    (catalog : Catalog) (type_factory : TypeFactory)
    (properties : AnalyzerOutputProperties) (seqs : SequenceStore) :
  let result :=
    Rewrite NullIfErrorFunctionRewriter options input catalog type_factory
      properties seqs in
  snd (fst result) = properties /\
  snd result = seqs /\
  (forall n root',
      input = Some n -> fst (fst result) = Value root' ->
      exists n',
        root' = Some n' /\ VisitAll n = Value n' /\
        IsStatement n' = IsStatement n) /\
  (id_string_pool options = None \/ column_id_sequence_number options = None ->
   exists msg, fst (fst result) = Error (RetCheckFailure msg)).
Proof.
  cbn. split; [reflexivity |]. split; [reflexivity |]. split.
  - intros n root' ->.
    repeat match goal with
           | |- context [if ?b then _ else _] => destruct b
           end; try discriminate.
    destruct (VisitAll n) as [n' |] eqn:Hvisit; [| discriminate].
    intros [= <-]. exists n'.
    split; [reflexivity |]. split; [reflexivity |].
    exact (VisitAll_keeps_kind n n' Hvisit).
  - intros [Hpool | Hseq].
    + rewrite Hpool. rewrite bool_decide_false by (intros [? ?]; discriminate).
      cbn. eauto.
    + rewrite Hseq.
      destruct (negb (bool_decide (is_Some (id_string_pool options))));
        [eauto |].
      rewrite bool_decide_false by (intros [? ?]; discriminate). cbn. eauto.
Qed.

(** ** The calls of the driver, in order *)

Lemma emits_ret {A} (P : Outcome A -> list Event -> Prop) (a : A) :
  P (Normal a) [] -> emits P (ret a).
Proof. intros H st. exists []. cbn. rewrite app_nil_r. auto. Qed.

Lemma emits_return_status {A} (P : Outcome A -> list Event -> Prop)
    (s : Status) :
  P (Return s) [] -> emits P (return_status s).
Proof. intros H st. exists []. cbn. rewrite app_nil_r. auto. Qed.

Lemma emits_bind {A B} (P1 : Outcome A -> list Event -> Prop)
    (P2 : A -> Outcome B -> list Event -> Prop)
    (P : Outcome B -> list Event -> Prop) (m : M A) (k : A -> M B) :
  emits P1 m -> (forall a, emits (P2 a) (k a)) ->
  (forall s l, P1 (Return s) l -> P (Return s) l) ->
  (forall a o l1 l2, P1 (Normal a) l1 -> P2 a o l2 -> P o (l1 ++ l2)) ->
  emits P (bind m k).
Proof.
  intros Hm Hk Hret Hseq st. unfold bind.
  destruct (Hm st) as (l1 & Ht1 & H1).
  destruct (m st) as [[a | s] st1]; cbn [fst snd] in *.
  - destruct (Hk a st1) as (l2 & Ht2 & H2).
    exists (l1 ++ l2). split.
    + rewrite Ht2, Ht1. symmetry. apply app_assoc.
    + exact (Hseq a _ l1 l2 H1 H2).
  - exists l1. split; [exact Ht1 | exact (Hret s l1 H1)].
Qed.

Lemma emits_weaken {A} (P P' : Outcome A -> list Event -> Prop) (m : M A) :
  emits P m -> (forall o l, P o l -> P' o l) -> emits P' m.
Proof.
  intros Hm Himp st. destruct (Hm st) as (l & Ht & H).
  exists l. split; [exact Ht | exact (Himp _ _ H)].
Qed.

Lemma emits_and {A} (P Q : Outcome A -> list Event -> Prop) (m : M A) :
  emits P m -> emits Q m -> emits (fun o l => P o l /\ Q o l) m.
Proof.
  intros HP HQ st. destruct (HP st) as (l & Ht & H).
  destruct (HQ st) as (l' & Ht' & H').
  assert (l' = l) as -> by (rewrite Ht in Ht'; exact (app_inv_head _ _ _ (eq_sym Ht'))).
  exists l. auto.
Qed.

Lemma emits_silent {A} (m : M A) :
  silent m -> emits (fun _ new => new = []) m.
Proof. intros H st. exists []. rewrite app_nil_r. auto. Qed.

Lemma emits_silent_bind {A B} (P : Outcome B -> list Event -> Prop)
    (m : M A) (k : A -> M B) :
  silent m -> (forall a, emits P (k a)) -> (forall s, P (Return s) []) ->
  emits P (bind m k).
Proof.
  intros Hm Hk Hret.
  apply (emits_bind (fun _ new => new = []) (fun _ => P) P m k
           (emits_silent m Hm) Hk).
  - intros s l ->. apply Hret.
  - intros a o l1 l2 -> H. exact H.
Qed.

Lemma phase_calls_nil {A} (full : list Event) (s : Status) :
  @phase_calls A full (Return s) [].
Proof. split; [apply prefix_nil | discriminate]. Qed.

Lemma phase_calls_cons {A B} (e : Event) (full : list Event)
    (o : Outcome B) (l1 l2 : list Event) (a : A) :
  l1 = [e] -> phase_calls full o l2 -> phase_calls (e :: full) o (l1 ++ l2).
Proof.
  intros -> [Hpre Hfull]. split.
  - cbn. apply prefix_cons. exact Hpre.
  - intros b Hb. cbn. f_equal. exact (Hfull b Hb).
Qed.

Section Calls.

Variable env : Collaborators.
Variable analyzer_options : AnalyzerOptions.
Variable catalog : Catalog.
Variable type_factory : TypeFactory.

Lemma ensure_options_for_rewrite_silent :
  silent (ensure_options_for_rewrite analyzer_options).
Proof.
  intros st. unfold ensure_options_for_rewrite, bind, get, put, ret.
  destruct (options_for_rewrite st); [reflexivity |].
  destruct (AnalyzerOptionsForRewrite _ _ _) as [options fallback].
  destruct (release_output_node _) as [root output]. reflexivity.
Qed.

Lemma ensure_options_for_rewrite_normal st :
  exists options st',
    ensure_options_for_rewrite analyzer_options st = (Normal options, st').
Proof.
  unfold ensure_options_for_rewrite, bind, get, put, ret.
  destruct (options_for_rewrite st); [eauto |].
  destruct (AnalyzerOptionsForRewrite _ _ _) as [options fallback].
  destruct (release_output_node _) as [root output]. eauto.
Qed.

Lemma invoke_rewriter_calls who rewriter options :
  emits (fun _ new => new = [EvRewrite who])
    (invoke_rewriter catalog type_factory who rewriter options).
Proof.
  intros st.
  unfold invoke_rewriter, bind, get, put, ret, ASSIGN_OR_RETURN,
    set_last_rewrite_result, return_status.
  destruct (Rewrite rewriter _ _ _ _ _ _) as [[[root | e] properties] seqs];
    cbn; eexists; split; reflexivity.
Qed.

Lemma apply_user_rewriter_calls who rewriter :
  emits (fun _ new => new = [EvRewrite (who rewriter)])
    (apply_user_rewriter env analyzer_options catalog type_factory
       who rewriter).
Proof.
  intros st. unfold apply_user_rewriter, bind.
  destruct (ensure_options_for_rewrite_normal st) as (options & st1 & Hrun).
  pose proof (ensure_options_for_rewrite_silent st) as Hsilent.
  rewrite Hrun in Hsilent |- *. cbn [snd] in Hsilent.
  destruct (invoke_rewriter_calls (who rewriter) (rewriter_at env rewriter)
              options st1) as (new & Ht & ->).
  exists [EvRewrite (who rewriter)]. rewrite Ht, Hsilent. auto.
Qed.

Lemma run_user_rewriters_calls who rewriters :
  emits (phase_calls (user_invocations who rewriters))
    (run_user_rewriters env analyzer_options catalog type_factory
       who rewriters).
Proof.
  induction rewriters as [| rewriter rest IH]; cbn.
  - apply emits_ret. split; [reflexivity | reflexivity].
  - eapply emits_bind;
      [apply apply_user_rewriter_calls | intros u; exact IH | |].
    + intros s l ->. split; [apply prefix_cons, prefix_nil | discriminate].
    + intros u o l1 l2 Hl1 Hl2. exact (phase_calls_cons _ _ _ _ _ u Hl1 Hl2).
Qed.

Lemma apply_builtin_rewriter_calls ast_rewrite :
  emits (fun o new =>
           (new = [EvRewrite (BuiltinRewriter ast_rewrite)]
            /\ is_Some (registry_Get env ast_rewrite))
           \/ (new = [] /\ exists s, o = Return s))
    (apply_builtin_rewriter env analyzer_options catalog type_factory
       ast_rewrite).
Proof.
  intros st. unfold apply_builtin_rewriter.
  destruct (ensure_options_for_rewrite_normal st) as (options & st1 & Hrun).
  pose proof (ensure_options_for_rewrite_silent st) as Hsilent.
  rewrite Hrun in Hsilent. cbn [snd] in Hsilent.
  rewrite (bind_run _ _ _ _ _ Hrun).
  destruct (registry_Get env ast_rewrite) as [p |].
  - unfold bind at 1. cbn [ret].
    unfold bind at 1, record_rewriter_details, bind at 1, get,
      set_analyzer_output.
    match goal with
    | |- context [invoke_rewriter ?c ?t ?w ?r ?o] =>
        set (invoke := invoke_rewriter c t w r o)
    end.
    match goal with
    | |- context [bind invoke ?k ?s] => set (st2 := s)
    end.
    destruct (invoke_rewriter_calls (BuiltinRewriter ast_rewrite)
                (rewriter_at env p) options st2) as (new & Ht & ->).
    fold invoke in Ht. unfold bind.
    destruct (invoke st2) as [[[] | s] st3]; cbn [fst snd] in *.
    + unfold get, RET_CHECK, ret, return_status.
      exists [EvRewrite (BuiltinRewriter ast_rewrite)].
      destruct (bool_decide _); cbn [fst snd]; rewrite Ht;
        (split; [subst st2; cbn; rewrite Hsilent; reflexivity | eauto]).
    + exists [EvRewrite (BuiltinRewriter ast_rewrite)].
      rewrite Ht. split; [subst st2; cbn; rewrite Hsilent; reflexivity | eauto].
  - unfold bind, return_status. exists []. cbn [fst snd].
    rewrite app_nil_r. split; [exact Hsilent | eauto].
Qed.

Lemma sweep_calls order rewrites_to_apply :
  emits (fun o new =>
           phase_calls
             (builtin_invocations (rules_to_apply order rewrites_to_apply))
             o new
           /\ Forall (registered env) new)
    (sweep env analyzer_options catalog type_factory order
       rewrites_to_apply).
Proof.
  induction order as [| ast_rewrite rest IH]; cbn.
  - apply emits_ret. split; [split; reflexivity | constructor].
  - destruct (bool_decide (ast_rewrite ∈ rewrites_to_apply)); cbn.
    + eapply emits_bind;
        [apply apply_builtin_rewriter_calls | intros u; exact IH | |].
      * intros s l [[-> Hreg] | [-> _]].
        -- split; [split; [apply prefix_cons, prefix_nil | discriminate] |].
           constructor; [exact Hreg | constructor].
        -- split; [apply phase_calls_nil | constructor].
      * intros u o l1 l2 [[-> Hreg] | [_ [s Hs]]] [Hphase Hall];
          [| discriminate].
        split; [exact (phase_calls_cons _ _ _ _ _ u eq_refl Hphase) |].
        constructor; [exact Hreg | exact Hall].
    + eapply emits_bind;
        [apply (emits_silent (ret tt)); intros st; reflexivity
        | intros u; exact IH | |].
      * intros s l ->. split; [apply phase_calls_nil | constructor].
      * intros u o l1 l2 -> H. exact H.
Qed.

Lemma recompute_rewrites_to_apply_calls :
  emits (fun o new =>
           exists root,
             new = [EvFindRelevantRewriters root] /\
             forall rewrites_to_apply,
               o = Normal rewrites_to_apply ->
               exists checker,
                 FindRelevantRewriters env root = Value checker /\
                 rewrites_to_apply
                 = (enabled_rewrites analyzer_options ∩ checker)
                     ∖ {[ REWRITE_ANONYMIZATION ]})
    (recompute_rewrites_to_apply env analyzer_options).
Proof.
  intros st.
  unfold recompute_rewrites_to_apply, bind, get, log, ASSIGN_OR_RETURN, ret,
    return_status.
  destruct (FindRelevantRewriters env (last_rewrite_result st))
    as [checker |] eqn:Hscan; cbn [fst snd trace];
    (eexists; split; [reflexivity |]);
    exists (last_rewrite_result st); (split; [reflexivity |]).
  - intros R [= <-]. eauto.
  - discriminate.
Qed.

Lemma loop_calls_nil n rewrites_to_apply :
  loop_calls env analyzer_options n rewrites_to_apply [].
Proof.
  destruct n; [apply loop_calls_limit |].
  apply loop_calls_aborted; [apply prefix_nil | constructor].
Qed.

Lemma convergence_loop_calls (fuel n : nat) rewrites_to_apply :
  (n < fuel)%nat -> (n <= 25)%nat ->
  emits (fun _ new => loop_calls env analyzer_options n rewrites_to_apply new)
    (convergence_loop env analyzer_options catalog type_factory fuel
       (kMaxIterations - Z.of_nat n) rewrites_to_apply).
Proof.
  revert n rewrites_to_apply.
  induction fuel as [| fuel IH]; intros n R Hfuel Hn; [lia |].
  cbn [convergence_loop]. unfold kMaxIterations in *.
  destruct n as [| n].
  - replace (25 <? 25 - Z.of_nat 0 + 1) with true
      by (symmetry; apply Z.ltb_lt; lia).
    apply emits_return_status. apply loop_calls_limit.
  - replace (25 <? 25 - Z.of_nat (S n) + 1) with false
      by (symmetry; apply Z.ltb_ge; lia).
    replace (25 - Z.of_nat (S n) + 1) with (25 - Z.of_nat n) by lia.
    eapply (emits_bind _
              (fun _ _ l2 =>
                 (exists root, l2 = [EvFindRelevantRewriters root]) \/
                 (exists root checker rest,
                     l2 = EvFindRelevantRewriters root :: rest /\
                     FindRelevantRewriters env root = Value checker /\
                     loop_calls env analyzer_options n
                       ((enabled_rewrites analyzer_options ∩ checker)
                          ∖ {[ REWRITE_ANONYMIZATION ]}) rest)));
      [apply sweep_calls | | |].
    + intros u.
      eapply (emits_bind _
                (fun R' _ l2 => loop_calls env analyzer_options n R' l2));
        [apply recompute_rewrites_to_apply_calls | | |].
      * intros R'. destruct (bool_decide (R' = ∅)).
        -- apply emits_ret. apply loop_calls_nil.
        -- apply IH; lia.
      * intros s l (root & -> & _). left. eauto.
      * intros R' o l1 l2 (root & -> & Hscan) Hloop.
        destruct (Hscan R' eq_refl) as (checker & Hfind & ->).
        right. exists root, checker, l2. auto.
    + intros s l [[Hpre _] Hreg]. apply loop_calls_aborted; assumption.
    + intros u o l1 l2 [[_ Hfull] Hreg] Hrest.
      rewrite (Hfull u eq_refl) in Hreg |- *.
      destruct Hrest as [(root & ->) | (root & checker & rest & -> & Hf & Hl)].
      * apply loop_calls_ended. exact Hreg.
      * eapply loop_calls_repeated; eassumption.
Qed.

Lemma install_rewrite_result_calls :
  emits (fun _ new =>
           new `sublist_of` [EvUpdate; EvValidate; EvMarkFieldsAccessed])
    (install_rewrite_result env analyzer_options).
Proof.
  intros st.
  unfold install_rewrite_result, bind, get, put, ret, RETURN_IF_ERROR,
    accumulate_validator_timer, set_analyzer_output, log, return_status.
  destruct (options_for_rewrite st) as [options |];
    [| exists []; cbn; rewrite app_nil_r; split; [reflexivity |];
       repeat constructor].
  destruct (Update _ _ _) as [status output]. cbn.
  repeat match goal with
         | |- context [if ?b then _ else _] => destruct b; cbn
         | |- context [match ?x with Some _ => _ | None => _ end] =>
             destruct x; cbn
         | |- context [match ?x with
                       | LEGACY_FIELDS_ACCESSED_MODE => _
                       | CLEAR_FIELDS => _
                       end] => destruct x; cbn
         end;
    rewrite <- ?app_assoc; cbn;
    (eexists; split; [reflexivity | repeat constructor]).
Qed.

End Calls.

Lemma emits_fails {A} (P : Outcome A -> list Event -> Prop) (m : M A) :
  emits P m -> fails_only m ->
  emits (fun o new => P o new /\ forall s, o = Return s -> status_ok s = false)
    m.
Proof.
  intros Hm Hfail st. destruct (Hm st) as (l & Ht & H).
  exists l. split; [exact Ht |]. split; [exact H |].
  intros s Ho. destruct (m st) as [o st'] eqn:Hrun. cbn in Ho. subst o.
  exact (Hfail _ _ _ Hrun).
Qed.

(** A computation that ends normally and makes no call, before another. *)
Lemma emits_after_quiet {A B} (P : Outcome B -> list Event -> Prop)
    (m : M A) (k : A -> M B) :
  (forall st, exists a st', m st = (Normal a, st') /\ trace st' = trace st) ->
  (forall a, emits P (k a)) ->
  emits P (bind m k).
Proof.
  intros Hm Hk st. destruct (Hm st) as (a & st' & Hrun & Ht).
  rewrite (bind_run _ _ _ _ _ Hrun).
  destruct (Hk a st') as (l & Hl & H). exists l. rewrite <- Ht. auto.
Qed.

Lemma not_okay_failure {A} (s : Status) (P : Prop) :
  status_ok s = false -> @okay A (Return s) -> P.
Proof. cbn. intros -> H. discriminate. Qed.

Lemma prefix_of_nil {A} (l : list A) : l `prefix_of` [] -> l = [].
Proof. intros [k Hk]. symmetry in Hk. apply app_eq_nil in Hk. tauto. Qed.

Section RunCalls.

Variable env : Collaborators.
Variable analyzer_options : AnalyzerOptions.
Variable catalog : Catalog.
Variable type_factory : TypeFactory.

Local Abbreviation full_lead :=
  (user_invocations LeadingRewriter (leading_rewriters analyzer_options)).
Local Abbreviation full_trail :=
  (user_invocations TrailingRewriter (trailing_rewriters analyzer_options)).
Local Abbreviation limit := (Z.to_nat kMaxIterations).

Lemma accumulate_rewriter_timer_quiet st :
  exists a st',
    accumulate_rewriter_timer st = (Normal a, st') /\ trace st' = trace st.
Proof.
  unfold accumulate_rewriter_timer, bind, get, set_analyzer_output. cbn.
  eexists _, _. split; reflexivity.
Qed.

Lemma detect_rewrites_calls :
  emits (fun o new =>
           (Forall (fun e => is_scan_event e = true) new
            /\ (length new <= 1)%nat)
           /\ forall s, o = Return s -> status_ok s = false)
    (detect_rewrites env).
Proof.
  apply emits_fails; [| apply detect_rewrites_fails_only].
  intros st. destruct (detect_rewrites_state env st) as (calls & Hst & Hcalls).
  exists calls. rewrite Hst. split; [reflexivity |].
  destruct Hcalls as [-> | ->]; cbn; split; repeat constructor.
Qed.

Lemma trailing_calls :
  emits (fun o new =>
           phase_calls full_trail o new
           /\ forall s, o = Return s -> status_ok s = false)
    (accumulate_rewriter_timer;;
     run_user_rewriters env analyzer_options catalog type_factory
       TrailingRewriter (trailing_rewriters analyzer_options)).
Proof.
  apply emits_after_quiet; [apply accumulate_rewriter_timer_quiet |].
  intros u. apply emits_fails;
    [apply run_user_rewriters_calls | apply run_user_rewriters_fails_only].
Qed.

Lemma loop_then_trailing_calls rewrites_to_apply :
  emits (fun o new =>
           exists loop trail,
             new = loop ++ trail /\
             loop_calls env analyzer_options limit rewrites_to_apply loop /\
             trail `prefix_of` full_trail /\
             (forall a, o = Normal a -> trail = full_trail) /\
             (forall s, o = Return s -> status_ok s = false))
    ((if negb (bool_decide (rewrites_to_apply = ∅)) then
        convergence_loop env analyzer_options catalog type_factory
          (S (Z.to_nat kMaxIterations)) 0 rewrites_to_apply
      else ret tt);;
     accumulate_rewriter_timer;;
     run_user_rewriters env analyzer_options catalog type_factory
       TrailingRewriter (trailing_rewriters analyzer_options)).
Proof.
  eapply (emits_bind
            (fun o new =>
               loop_calls env analyzer_options limit rewrites_to_apply new
               /\ forall s, o = Return s -> status_ok s = false));
    [| intros u; apply trailing_calls | |].
  - destruct (negb (bool_decide (rewrites_to_apply = ∅))).
    + apply emits_fails; [| apply convergence_loop_fails_only].
      apply (convergence_loop_calls env analyzer_options catalog type_factory
               (S limit) limit rewrites_to_apply); unfold kMaxIterations; lia.
    + apply emits_ret. split; [apply loop_calls_nil | discriminate].
  - intros s l [Hloop Herr]. exists l, []. rewrite app_nil_r.
    split; [reflexivity |]. split; [exact Hloop |].
    split; [apply prefix_nil |]. split; [discriminate |].
    intros s' [= <-]. exact (Herr s eq_refl).
  - intros u o l1 l2 [Hloop _] [[Hpre Hfull] Herr]. exists l1, l2. auto.
Qed.

Lemma rewriters_calls rewrites_to_apply :
  emits (fun o new =>
           exists lead loop trail,
             new = lead ++ loop ++ trail /\
             lead `prefix_of` full_lead /\
             loop_calls env analyzer_options limit rewrites_to_apply loop /\
             trail `prefix_of` full_trail /\
             (loop ++ trail = [] \/ lead = full_lead) /\
             (forall a, o = Normal a -> lead = full_lead /\ trail = full_trail) /\
             (forall s, o = Return s -> status_ok s = false))
    (run_user_rewriters env analyzer_options catalog type_factory
       LeadingRewriter (leading_rewriters analyzer_options);;
     (if negb (bool_decide (rewrites_to_apply = ∅)) then
        convergence_loop env analyzer_options catalog type_factory
          (S (Z.to_nat kMaxIterations)) 0 rewrites_to_apply
      else ret tt);;
     accumulate_rewriter_timer;;
     run_user_rewriters env analyzer_options catalog type_factory
       TrailingRewriter (trailing_rewriters analyzer_options)).
Proof.
  eapply emits_bind;
    [apply emits_fails;
       [apply run_user_rewriters_calls | apply run_user_rewriters_fails_only]
    | intros u; apply (loop_then_trailing_calls rewrites_to_apply) | |].
  - intros s l [[Hpre Hfull] Herr]. exists l, [], []. rewrite !app_nil_r.
    split; [reflexivity |]. split; [exact Hpre |].
    split; [apply loop_calls_nil |]. split; [apply prefix_nil |].
    split; [left; reflexivity |]. split; [discriminate |].
    intros s' [= <-]. exact (Herr s eq_refl).
  - intros u o l1 l2 [[_ Hfull] _]
      (loop & trail & -> & Hloop & Hpre & Hnormal & Herr).
    exists l1, loop, trail. rewrite (Hfull u eq_refl).
    split; [reflexivity |]. split; [reflexivity |]. split; [exact Hloop |].
    split; [exact Hpre |]. split; [right; reflexivity |].
    split; [| exact Herr].
    intros a Ha. split; [reflexivity | exact (Hnormal a Ha)].
Qed.

Lemma run_calls_scan_only (o : Outcome unit) (scan : list Event) :
  (okay o -> full_lead = [] /\ full_trail = []) ->
  run_calls env analyzer_options (okay o) scan [] scan.
Proof.
  intros Hok. exists [], [], [], ∅.
  rewrite !app_nil_r. split; [reflexivity |].
  split; [apply prefix_nil |]. split; [apply empty_subseteq |].
  split; [apply loop_calls_nil |]. split; [apply prefix_nil |].
  split; [left; reflexivity |]. split; [left; reflexivity |].
  intros H. destruct (Hok H) as [-> ->]. split; reflexivity.
Qed.

Lemma early_exit_calls (cond : bool) :
  emits (fun o new =>
           new = [] /\
           forall s, o = Return s ->
             full_lead = [] /\ full_trail = [])
    (if cond && no_user_rewriters analyzer_options then
       accumulate_rewriter_timer;; return_status OkStatus
     else ret tt).
Proof.
  destruct (cond && no_user_rewriters analyzer_options) eqn:Hcond.
  - apply andb_true_iff in Hcond. destruct Hcond as [_ Hnone].
    unfold no_user_rewriters in Hnone. apply andb_true_iff in Hnone.
    destruct Hnone as [Hl Ht].
    apply bool_decide_eq_true in Hl. apply bool_decide_eq_true in Ht.
    intros st. exists []. cbn. rewrite app_nil_r. split; [reflexivity |].
    split; [reflexivity |]. intros _ _. rewrite Hl, Ht. split; reflexivity.
  - apply emits_ret. split; [reflexivity | discriminate].
Qed.

Lemma rewrite_passes_calls :
  emits (fun o new =>
           exists scan,
             Forall (fun e => is_scan_event e = true) scan /\
             (length scan <= 1)%nat /\
             run_calls env analyzer_options (okay o) scan [] new)
    (rewrite_passes env analyzer_options catalog type_factory).
Proof.
  unfold rewrite_passes.
  apply emits_after_quiet.
  { intros st. unfold declare_locals, bind, get, put. cbn.
    eexists _, _. split; reflexivity. }
  intros u.
  eapply (emits_bind _
            (fun _ o new => run_calls env analyzer_options (okay o) [] [] new));
    [apply detect_rewrites_calls | | |].
  - intros detected_rewrites.
    eapply (emits_bind _
              (fun _ o new =>
                 run_calls env analyzer_options (okay o) [] [] new));
      [apply early_exit_calls | | |].
    + intros u1.
      eapply (emits_bind _
                (fun _ o new =>
                   run_calls env analyzer_options (okay o) [] [] new));
        [apply early_exit_calls | | |].
      * intros u2.
        eapply emits_weaken;
          [apply (rewriters_calls
                    (enabled_rewrites analyzer_options ∩ detected_rewrites)) |].
        intros o l (lead & loop & trail & -> & Hlead & Hloop & Htrail & Horder
                    & Hnormal & Herr).
        exists lead, loop, trail,
          (enabled_rewrites analyzer_options ∩ detected_rewrites).
        rewrite !app_nil_r. cbn [app].
        split; [reflexivity |]. split; [exact Hlead |].
        split; [apply intersection_subseteq_l |]. split; [exact Hloop |].
        split; [exact Htrail |]. split; [exact Horder |].
        split; [left; reflexivity |].
        destruct o as [a | s]; [intros _; exact (Hnormal a eq_refl) |].
        apply not_okay_failure. exact (Herr s eq_refl).
      * intros s l [-> Hnone]. apply run_calls_scan_only.
        intros _. exact (Hnone s eq_refl).
      * intros u2 o l1 l2 [-> _] H. exact H.
    + intros s l [-> Hnone]. apply run_calls_scan_only.
      intros _. exact (Hnone s eq_refl).
    + intros u1 o l1 l2 [-> _] H. exact H.
  - intros s l [[Hscan Hlen] Herr]. exists l.
    split; [exact Hscan |]. split; [exact Hlen |].
    apply run_calls_scan_only.
    apply not_okay_failure. exact (Herr s eq_refl).
  - intros detected_rewrites o l1 l2 [[Hscan Hlen] _] H. cbn beta in H.
    exists l1. split; [exact Hscan |]. split; [exact Hlen |].
    destruct H as (lead & loop & trail & R & -> & Hrest).
    exists lead, loop, trail, R. split; [reflexivity | exact Hrest].
Qed.

Lemma driver_calls :
  emits (fun o new =>
           exists scan inst,
             Forall (fun e => is_scan_event e = true) scan /\
             (length scan <= 1)%nat /\
             inst `sublist_of` [EvUpdate; EvValidate; EvMarkFieldsAccessed] /\
             run_calls env analyzer_options (okay o) scan inst new)
    (InternalRewriteResolvedAstNoConvertErrorLocation env analyzer_options
       catalog type_factory).
Proof.
  unfold InternalRewriteResolvedAstNoConvertErrorLocation.
  eapply (emits_bind _
            (fun _ _ new =>
               new `sublist_of` [EvUpdate; EvValidate; EvMarkFieldsAccessed]));
    [apply rewrite_passes_calls | | |].
  - intros u.
    eapply (emits_bind _ (fun _ _ new => new = []));
      [apply install_rewrite_result_calls | | |].
    + intros u1 st. unfold bind, get, RET_CHECK, ret, return_status.
      exists []. rewrite app_nil_r.
      destruct (_ || _); cbn; auto.
    + intros s l H. exact H.
    + intros u1 o l1 l2 H ->. rewrite app_nil_r. exact H.
  - intros s l (scan & Hscan & Hlen & Hrun). exists scan, [].
    split; [exact Hscan |]. split; [exact Hlen |].
    split; [repeat constructor | exact Hrun].
  - intros u o l1 l2 (scan & Hscan & Hlen & Hrun) Hinst.
    exists scan, l2. split; [exact Hscan |]. split; [exact Hlen |].
    split; [exact Hinst |].
    destruct Hrun as (lead & loop & trail & R & -> & Hlead & HR & Hloop
                      & Htrail & _ & _ & Hcomplete).
    destruct (Hcomplete I) as [-> ->].
    exists full_lead, loop, full_trail, R.
    rewrite !app_nil_r, <- !app_assoc.
    split; [reflexivity |]. split; [reflexivity |]. split; [exact HR |].
    split; [exact Hloop |]. split; [reflexivity |].
    split; [right; reflexivity |]. split; [right; reflexivity |].
    intros _. split; reflexivity.
Qed.

End RunCalls.

(** ** What the calls of the loop and of a run are *)

Lemma count_events_app (p : Event -> bool) (l1 l2 : list Event) :
  count_events p (l1 ++ l2) = (count_events p l1 + count_events p l2)%nat.
Proof.
  unfold count_events. rewrite List.filter_app, length_app. reflexivity.
Qed.

Lemma count_events_prefix (p : Event -> bool) (l1 l2 : list Event) :
  l1 `prefix_of` l2 -> (count_events p l1 <= count_events p l2)%nat.
Proof. intros [k ->]. rewrite count_events_app. lia. Qed.

Lemma count_events_none (p : Event -> bool) (l : list Event) :
  Forall (fun e => p e = false) l -> count_events p l = 0%nat.
Proof.
  unfold count_events. induction 1 as [| e l He _ IH]; cbn; [reflexivity |].
  rewrite He. exact IH.
Qed.

Lemma count_builtin_invocations (rule : ResolvedASTRewrite)
    (rules : list ResolvedASTRewrite) :
  count_events (is_builtin_invocation rule) (builtin_invocations rules)
  = occurrences rule rules.
Proof.
  unfold count_events, occurrences, builtin_invocations.
  induction rules as [| r rules IH]; cbn; [reflexivity |].
  destruct (bool_decide (r = rule)); cbn; rewrite IH; reflexivity.
Qed.

Lemma count_scans_builtin_invocations (rules : list ResolvedASTRewrite) :
  count_events is_scan_event (builtin_invocations rules) = 0%nat.
Proof.
  apply count_events_none. unfold builtin_invocations.
  apply Forall_map. apply Forall_true. reflexivity.
Qed.

Lemma occurrences_rules_to_apply (rule : ResolvedASTRewrite)
    (order : list ResolvedASTRewrite) (R : gset ResolvedASTRewrite) :
  (occurrences rule (rules_to_apply order R) <= occurrences rule order)%nat
  /\ (rule ∉ R -> occurrences rule (rules_to_apply order R) = 0%nat).
Proof.
  unfold occurrences, rules_to_apply.
  induction order as [| r order [IHle IHnot]]; cbn; [auto |].
  destruct (bool_decide (r ∈ R)) eqn:Hin; cbn;
    destruct (bool_decide (r = rule)) eqn:Heq; cbn; split; try lia; auto.
  intros Hnot. apply bool_decide_eq_true in Hin, Heq. subst r. contradiction.
Qed.

Lemma elem_of_rules_to_apply (rule : ResolvedASTRewrite)
    (order : list ResolvedASTRewrite) (R : gset ResolvedASTRewrite) :
  rule ∈ rules_to_apply order R -> rule ∈ R /\ rule ∈ order.
Proof.
  unfold rules_to_apply. intros Hin. apply list_elem_of_In in Hin.
  apply List.filter_In in Hin. destruct Hin as [Hin HR].
  apply bool_decide_eq_true in HR. apply list_elem_of_In in Hin. auto.
Qed.

Lemma elem_of_builtin_invocations (rule : ResolvedASTRewrite)
    (rules : list ResolvedASTRewrite) :
  EvRewrite (BuiltinRewriter rule) ∈ builtin_invocations rules ->
  rule ∈ rules.
Proof.
  unfold builtin_invocations. intros Hin. apply list_elem_of_In in Hin.
  apply List.in_map_iff in Hin. destruct Hin as (r & [= ->] & Hr).
  apply list_elem_of_In. exact Hr.
Qed.

Lemma user_invocations_no_builtin who rewriters (p : Event -> bool) :
  (forall ptr, p (EvRewrite (who ptr)) = false) ->
  Forall (fun e => p e = false) (user_invocations who rewriters).
Proof.
  intros Hp. unfold user_invocations. apply Forall_map.
  apply Forall_true. exact Hp.
Qed.

Section LoopCalls.

Variable env : Collaborators.
Variable analyzer_options : AnalyzerOptions.

Local Abbreviation order := (registration_order env).

Lemma loop_calls_events n R l :
  loop_calls env analyzer_options n R l ->
  Forall (fun e => is_loop_event e = true) l.
Proof.
  assert (Hfull : forall rules,
             Forall (fun e => is_loop_event e = true)
               (builtin_invocations rules)).
  { intros rules. unfold builtin_invocations. apply Forall_map.
    apply Forall_true. reflexivity. }
  induction 1 as [R | n R new [k Hk] _ | n R root _
                 | n R root checker rest _ _ _ IH].
  - constructor.
  - specialize (Hfull (rules_to_apply order R)). rewrite Hk in Hfull.
    apply Forall_app in Hfull. tauto.
  - apply Forall_app. split; [apply Hfull | repeat constructor].
  - apply Forall_app. split; [apply Hfull |].
    constructor; [reflexivity | exact IH].
Qed.

Lemma loop_calls_registered n R l :
  loop_calls env analyzer_options n R l -> Forall (registered env) l.
Proof.
  induction 1 as [R | n R new _ Hreg | n R root Hreg
                 | n R root checker rest Hreg _ _ IH].
  - constructor.
  - exact Hreg.
  - apply Forall_app. split; [exact Hreg | repeat constructor].
  - apply Forall_app. split; [exact Hreg |].
    constructor; [exact I | exact IH].
Qed.

Lemma loop_calls_rules rule : forall n R l,
  loop_calls env analyzer_options n R l ->
  R ⊆ enabled_rewrites analyzer_options ->
  EvRewrite (BuiltinRewriter rule) ∈ l ->
  rule ∈ enabled_rewrites analyzer_options /\ rule ∈ order.
Proof.
  assert (Hfull : forall R,
             R ⊆ enabled_rewrites analyzer_options ->
             EvRewrite (BuiltinRewriter rule)
               ∈ builtin_invocations (rules_to_apply order R) ->
             rule ∈ enabled_rewrites analyzer_options /\ rule ∈ order).
  { intros R HR Hin. apply elem_of_builtin_invocations in Hin.
    apply elem_of_rules_to_apply in Hin. destruct Hin as [Hin Hord].
    split; [exact (HR _ Hin) | exact Hord]. }
  assert (Hnext : forall checker,
             (enabled_rewrites analyzer_options ∩ checker)
               ∖ {[ REWRITE_ANONYMIZATION ]}
             ⊆ enabled_rewrites analyzer_options).
  { intros checker x Hx. apply elem_of_difference in Hx.
    destruct Hx as [Hx _]. apply elem_of_intersection in Hx. tauto. }
  induction 1 as [R | n R new [k Hk] _ | n R root _
                 | n R root checker rest _ _ _ IH]; intros HR Hin.
  - inversion Hin.
  - apply (Hfull R HR). rewrite Hk. apply elem_of_app. left. exact Hin.
  - apply elem_of_app in Hin. destruct Hin as [Hin | Hin];
      [exact (Hfull R HR Hin) |].
    apply list_elem_of_singleton in Hin. discriminate.
  - apply elem_of_app in Hin. destruct Hin as [Hin | Hin];
      [exact (Hfull R HR Hin) |].
    apply elem_of_cons in Hin. destruct Hin as [Hin | Hin]; [discriminate |].
    exact (IH (Hnext checker) Hin).
Qed.

Lemma loop_calls_count n R l rule :
  loop_calls env analyzer_options n R l ->
  (count_events (is_builtin_invocation rule) l
   <= n * occurrences rule order)%nat.
Proof.
  induction 1 as [R | n R new Hpre _ | n R root _
                 | n R root checker rest _ _ _ IH].
  - cbn. lia.
  - apply (count_events_prefix (is_builtin_invocation rule)) in Hpre.
    rewrite count_builtin_invocations in Hpre.
    pose proof (proj1 (occurrences_rules_to_apply rule order R)). lia.
  - rewrite count_events_app, count_builtin_invocations. cbn.
    pose proof (proj1 (occurrences_rules_to_apply rule order R)). lia.
  - rewrite count_events_app, count_builtin_invocations.
    change (EvFindRelevantRewriters root :: rest)
      with ([EvFindRelevantRewriters root] ++ rest).
    rewrite count_events_app. cbn.
    pose proof (proj1 (occurrences_rules_to_apply rule order R)). lia.
Qed.

Lemma loop_calls_scans n R l :
  loop_calls env analyzer_options n R l ->
  (count_events is_scan_event l <= n)%nat.
Proof.
  induction 1 as [R | n R new Hpre _ | n R root _
                 | n R root checker rest _ _ _ IH].
  - cbn. lia.
  - apply (count_events_prefix is_scan_event) in Hpre.
    rewrite count_scans_builtin_invocations in Hpre. lia.
  - rewrite count_events_app, count_scans_builtin_invocations. cbn. lia.
  - rewrite count_events_app, count_scans_builtin_invocations.
    change (EvFindRelevantRewriters root :: rest)
      with ([EvFindRelevantRewriters root] ++ rest).
    rewrite count_events_app. cbn. lia.
Qed.

(** After the first sweep the apply-set never holds the anonymization
    rule. *)
Lemma loop_calls_without_anonymization : forall n R l,
  loop_calls env analyzer_options n R l ->
  REWRITE_ANONYMIZATION ∉ R ->
  count_events (is_builtin_invocation REWRITE_ANONYMIZATION) l = 0%nat.
Proof.
  induction 1 as [R | n R new Hpre _ | n R root _
                 | n R root checker rest _ _ _ IH]; intros Hnot.
  - reflexivity.
  - apply (count_events_prefix
             (is_builtin_invocation REWRITE_ANONYMIZATION)) in Hpre.
    rewrite count_builtin_invocations in Hpre.
    rewrite (proj2 (occurrences_rules_to_apply _ order R) Hnot) in Hpre. lia.
  - rewrite count_events_app, count_builtin_invocations.
    rewrite (proj2 (occurrences_rules_to_apply _ order R) Hnot).
    reflexivity.
  - rewrite count_events_app, count_builtin_invocations.
    rewrite (proj2 (occurrences_rules_to_apply _ order R) Hnot).
    change (EvFindRelevantRewriters root :: rest)
      with ([EvFindRelevantRewriters root] ++ rest).
    rewrite count_events_app. cbn. apply IH.
    intros Hin. apply elem_of_difference in Hin. destruct Hin as [_ Hin].
    apply Hin. apply elem_of_singleton. reflexivity.
Qed.

Lemma loop_calls_anonymization n R l :
  loop_calls env analyzer_options n R l ->
  (count_events (is_builtin_invocation REWRITE_ANONYMIZATION) l
   <= occurrences REWRITE_ANONYMIZATION order)%nat.
Proof.
  assert (Hnext : forall checker,
             REWRITE_ANONYMIZATION
               ∉ (enabled_rewrites analyzer_options ∩ checker)
                   ∖ {[ REWRITE_ANONYMIZATION ]}).
  { intros checker Hin. apply elem_of_difference in Hin.
    destruct Hin as [_ Hin]. apply Hin. apply elem_of_singleton.
    reflexivity. }
  destruct 1 as [R | n R new Hpre _ | n R root _
                | n R root checker rest _ _ Hrest].
  - cbn. lia.
  - apply (count_events_prefix
             (is_builtin_invocation REWRITE_ANONYMIZATION)) in Hpre.
    rewrite count_builtin_invocations in Hpre.
    pose proof (proj1 (occurrences_rules_to_apply
                         REWRITE_ANONYMIZATION order R)). lia.
  - rewrite count_events_app, count_builtin_invocations. cbn.
    pose proof (proj1 (occurrences_rules_to_apply
                         REWRITE_ANONYMIZATION order R)). lia.
  - rewrite count_events_app, count_builtin_invocations.
    change (EvFindRelevantRewriters root :: rest)
      with ([EvFindRelevantRewriters root] ++ rest).
    rewrite count_events_app.
    rewrite (loop_calls_without_anonymization _ _ _ Hrest (Hnext checker)).
    cbn.
    pose proof (proj1 (occurrences_rules_to_apply
                         REWRITE_ANONYMIZATION order R)). lia.
Qed.

End LoopCalls.

Lemma run_calls_weaken env analyzer_options (complete complete' : Prop)
    scan inst new :
  (complete' -> complete) ->
  run_calls env analyzer_options complete scan inst new ->
  run_calls env analyzer_options complete' scan inst new.
Proof.
  intros Himp (lead & loop & trail & R & H1 & H2 & H3 & H4 & H5 & H6 & H7 & H8).
  exists lead, loop, trail, R. repeat (split; [assumption |]). auto.
Qed.

(** The calls of a run of the driver proper. *)
Lemma driver_run_calls env analyzer_options catalog type_factory st :
  let run :=
    run_driver
      (InternalRewriteResolvedAstNoConvertErrorLocation env analyzer_options
         catalog type_factory) st in
  exists new scan inst,
    trace (snd run) = trace st ++ new /\
    Forall (fun e => is_scan_event e = true) scan /\
    (length scan <= 1)%nat /\
    inst `sublist_of` [EvUpdate; EvValidate; EvMarkFieldsAccessed] /\
    run_calls env analyzer_options (status_ok (fst run) = true) scan inst new.
Proof.
  cbn zeta. unfold run_driver.
  destruct (driver_calls env analyzer_options catalog type_factory st)
    as (new & Ht & scan & inst & Hscan & Hlen & Hinst & Hrun).
  destruct (InternalRewriteResolvedAstNoConvertErrorLocation _ _ _ _ st)
    as [o st']. cbn [fst snd] in *.
  exists new, scan, inst. repeat (split; [assumption |]).
  refine (run_calls_weaken _ _ _ _ _ _ _ _ Hrun).
  destruct o; [intros _; exact I | intros H; exact H].
Qed.

Lemma count_events_sublist (p : Event -> bool) (l1 l2 : list Event) :
  l1 `sublist_of` l2 -> (count_events p l1 <= count_events p l2)%nat.
Proof.
  unfold count_events.
  induction 1 as [| e l1 l2 _ IH | e l1 l2 _ IH]; cbn; [lia | |];
    destruct (p e); cbn; lia.
Qed.

Lemma count_events_length (p : Event -> bool) (l : list Event) :
  (count_events p l <= length l)%nat.
Proof. unfold count_events. apply List.filter_length_le. Qed.

Lemma count_events_all (p q : Event -> bool) (l : list Event) :
  (forall e, q e = true -> p e = false) ->
  Forall (fun e => q e = true) l -> count_events p l = 0%nat.
Proof.
  intros Hpq Hl. apply count_events_none.
  apply (Forall_impl _ _ _ Hl). exact Hpq.
Qed.

Lemma count_events_user_prefix (p : Event -> bool) who rewriters l :
  (forall ptr, p (EvRewrite (who ptr)) = false) ->
  l `prefix_of` user_invocations who rewriters ->
  count_events p l = 0%nat.
Proof.
  intros Hp Hpre. apply (count_events_prefix p) in Hpre.
  rewrite (count_events_none p (user_invocations who rewriters)) in Hpre
    by (apply user_invocations_no_builtin; exact Hp).
  lia.
Qed.

(** X5: a sweep invokes the rewriters of the rules of the apply-set, in
    registration order: once for each place a rule of the set has in the
    order, up to the first failure, and nothing else. *)
Theorem sweep_invokes_in_registration_order
    (env : Collaborators) (analyzer_options : AnalyzerOptions)
    (catalog : Catalog) (type_factory : TypeFactory)
    (order : list ResolvedASTRewrite)
    (rewrites_to_apply : gset ResolvedASTRewrite) (st : DriverState) :
  let run :=
    sweep env analyzer_options catalog type_factory order rewrites_to_apply
      st in
  exists new,
    trace (snd run) = trace st ++ new /\
    new `prefix_of`
      builtin_invocations (rules_to_apply order rewrites_to_apply) /\
    (fst run = Normal tt ->
     new = builtin_invocations (rules_to_apply order rewrites_to_apply)) /\
    (forall s, fst run = Return s -> status_ok s = false).
Proof.
  cbn zeta.
  destruct (emits_fails _ _
              (sweep_calls env analyzer_options catalog type_factory order
                 rewrites_to_apply)
              (sweep_fails_only env analyzer_options catalog type_factory
                 order rewrites_to_apply) st)
    as (new & Ht & [[Hpre Hfull] _] & Herr).
  exists new. split; [exact Ht |]. split; [exact Hpre |].
  split; [exact (Hfull tt) | exact Herr].
Qed.

(** X6: the user-supplied rewriters of a list are invoked once each, in
    the order of the list, up to the first failure. *)
Theorem user_rewriters_run_once_in_order
    (env : Collaborators) (analyzer_options : AnalyzerOptions)
    (catalog : Catalog) (type_factory : TypeFactory)
    (who : RewriterPtr -> Invocation) (rewriters : list RewriterPtr)
    (st : DriverState) :
  let run :=
    run_user_rewriters env analyzer_options catalog type_factory who
      rewriters st in
  exists new,
    trace (snd run) = trace st ++ new /\
    new `prefix_of` user_invocations who rewriters /\
    (fst run = Normal tt -> new = user_invocations who rewriters) /\
    (forall s, fst run = Return s -> status_ok s = false).
Proof.
  cbn zeta.
  destruct (emits_fails _ _
              (run_user_rewriters_calls env analyzer_options catalog
                 type_factory who rewriters)
              (run_user_rewriters_fails_only env analyzer_options catalog
                 type_factory who rewriters) st)
    as (new & Ht & [Hpre Hfull] & Herr).
  exists new. split; [exact Ht |]. split; [exact Hpre |].
  split; [exact (Hfull tt) | exact Herr].
Qed.

(** X7: the calls of a run of the driver proper come in the order of its
    phases. They are an initial part of: at most one scan of the input;
    every leading rewriter, in the order of the list; scans and built-in
    rewriters; every trailing rewriter, in the order of the list; and of
    Update, validation and field marking those that are made. A run that
    returns OK has made all of these calls. *)
Theorem driver_calls_in_phase_order
    (env : Collaborators) (analyzer_options : AnalyzerOptions)
    (catalog : Catalog) (type_factory : TypeFactory) (st : DriverState) :
  let run :=
    run_driver
      (InternalRewriteResolvedAstNoConvertErrorLocation env analyzer_options
         catalog type_factory) st in
  exists new scan loop inst,
    trace (snd run) = trace st ++ new /\
    Forall (fun e => is_scan_event e = true) scan /\
    (length scan <= 1)%nat /\
    Forall (fun e => is_loop_event e = true) loop /\
    inst `sublist_of` [EvUpdate; EvValidate; EvMarkFieldsAccessed] /\
    let whole :=
      scan
      ++ user_invocations LeadingRewriter (leading_rewriters analyzer_options)
      ++ loop
      ++ user_invocations TrailingRewriter
           (trailing_rewriters analyzer_options)
      ++ inst in
    new `prefix_of` whole /\ (status_ok (fst run) = true -> new = whole).
Proof.
  cbn zeta.
  destruct (driver_run_calls env analyzer_options catalog type_factory st)
    as (new & scan & inst & Ht & Hscan & Hlen & Hinst & Hrun).
  cbn zeta in Ht, Hrun.
  destruct Hrun as (lead & loop & trail & R & -> & Hlead & _ & Hloop & Htrail
                    & Horder & Hlast & Hcomplete).
  pose proof (loop_calls_events _ _ _ _ _ Hloop) as Hevents.
  destruct Horder as [Hnone | ->].
  - (* the run ended among the leading rewriters *)
    apply app_eq_nil in Hnone. destruct Hnone as [-> Hnone].
    apply app_eq_nil in Hnone. destruct Hnone as [-> ->].
    exists (scan ++ lead ++ [] ++ [] ++ []), scan, [], [].
    split; [exact Ht |]. split; [exact Hscan |]. split; [exact Hlen |].
    split; [constructor |]. split; [apply sublist_nil_l |].
    rewrite !app_nil_r. split.
    + apply prefix_app. destruct Hlead as [k ->].
      rewrite <- app_assoc. apply prefix_app_r. reflexivity.
    + intros Hok. destruct (Hcomplete Hok) as [-> <-].
      rewrite app_nil_r. reflexivity.
  - destruct Hlast as [-> | ->].
    + (* the run ended in the loop or among the trailing rewriters *)
      exists (scan
              ++ user_invocations LeadingRewriter
                   (leading_rewriters analyzer_options)
              ++ loop ++ trail ++ []), scan, loop, [].
      split; [exact Ht |]. split; [exact Hscan |]. split; [exact Hlen |].
      split; [exact Hevents |]. split; [apply sublist_nil_l |].
      rewrite !app_nil_r. split.
      * do 3 apply prefix_app. exact Htrail.
      * intros Hok. destruct (Hcomplete Hok) as [_ ->]. reflexivity.
    + exists (scan
              ++ user_invocations LeadingRewriter
                   (leading_rewriters analyzer_options)
              ++ loop
              ++ user_invocations TrailingRewriter
                   (trailing_rewriters analyzer_options)
              ++ inst), scan, loop, inst.
      split; [exact Ht |]. split; [exact Hscan |]. split; [exact Hlen |].
      split; [exact Hevents |]. split; [exact Hinst |].
      split; [reflexivity | reflexivity].
Qed.

(** X8: the driver proper invokes the built-in rewriter of a rule only
    if the rule is enabled in the analyzer options, is in the registration
    order, and has a rewriter in the registry. *)
Theorem driver_invokes_enabled_registered_rules_only
    (env : Collaborators) (analyzer_options : AnalyzerOptions)
    (catalog : Catalog) (type_factory : TypeFactory) (st : DriverState)
    (rule : ResolvedASTRewrite) :
  let run :=
    run_driver
      (InternalRewriteResolvedAstNoConvertErrorLocation env analyzer_options
         catalog type_factory) st in
  exists new,
    trace (snd run) = trace st ++ new /\
    (EvRewrite (BuiltinRewriter rule) ∈ new ->
     rule ∈ enabled_rewrites analyzer_options /\
     rule ∈ registration_order env /\
     is_Some (registry_Get env rule)).
Proof.
  cbn zeta.
  destruct (driver_run_calls env analyzer_options catalog type_factory st)
    as (new & scan & inst & Ht & Hscan & Hlen & Hinst & Hrun).
  cbn zeta in Ht, Hrun. exists new. split; [exact Ht |].
  destruct Hrun as (lead & loop & trail & R & -> & Hlead & HR & Hloop & Htrail
                    & _).
  intros Hin.
  assert (Huser : forall who rewriters l,
             l `prefix_of` user_invocations who rewriters ->
             EvRewrite (BuiltinRewriter rule) ∈ l ->
             exists ptr, who ptr = BuiltinRewriter rule).
  { intros who rewriters l [k Hk] Hl.
    assert (Hfull : EvRewrite (BuiltinRewriter rule)
                      ∈ user_invocations who rewriters)
      by (rewrite Hk; apply elem_of_app; left; exact Hl).
    apply list_elem_of_In, List.in_map_iff in Hfull.
    destruct Hfull as (ptr & [= Hptr] & _). eauto. }
  repeat (apply elem_of_app in Hin; destruct Hin as [Hin | Hin]).
  - rewrite Forall_forall in Hscan. specialize (Hscan _ Hin). discriminate.
  - destruct (Huser _ _ _ Hlead Hin) as [ptr Hptr]. discriminate.
  - destruct (loop_calls_rules _ _ rule _ _ _ Hloop HR Hin) as [Hen Hord].
    pose proof (loop_calls_registered _ _ _ _ _ Hloop) as Hreg.
    rewrite Forall_forall in Hreg. specialize (Hreg _ Hin). auto.
  - destruct (Huser _ _ _ Htrail Hin) as [ptr Hptr]. discriminate.
  - pose proof (elem_of_sublist _ _ _ Hin Hinst) as Hin'.
    repeat (apply elem_of_cons in Hin'; destruct Hin' as [Hin' | Hin'];
            [discriminate |]).
    inversion Hin'.
Qed.

Lemma run_calls_count (p : Event -> bool) env analyzer_options complete
    scan inst new :
  (forall ptr, p (EvRewrite (LeadingRewriter ptr)) = false) ->
  (forall ptr, p (EvRewrite (TrailingRewriter ptr)) = false) ->
  run_calls env analyzer_options complete scan inst new ->
  exists rewrites_to_apply loop,
    loop_calls env analyzer_options (Z.to_nat kMaxIterations)
      rewrites_to_apply loop /\
    count_events p new
    = (count_events p scan + count_events p loop + count_events p inst)%nat.
Proof.
  intros Hl Ht (lead & loop & trail & R & -> & Hlead & _ & Hloop & Htrail & _).
  exists R, loop. split; [exact Hloop |].
  rewrite !count_events_app.
  rewrite (count_events_user_prefix p _ _ _ Hl Hlead).
  rewrite (count_events_user_prefix p _ _ _ Ht Htrail). lia.
Qed.

(** X9: in one run of the driver proper, the built-in rewriter of a
    rule is invoked at most 25 times for each place the rule has in the
    registration order, the scanner is called at most 26 times, and Update
    at most once. *)
Theorem driver_invocation_bounds
    (env : Collaborators) (analyzer_options : AnalyzerOptions)
    (catalog : Catalog) (type_factory : TypeFactory) (st : DriverState)
    (rule : ResolvedASTRewrite) :
  let run :=
    run_driver
      (InternalRewriteResolvedAstNoConvertErrorLocation env analyzer_options
         catalog type_factory) st in
  exists new,
    trace (snd run) = trace st ++ new /\
    (count_events (is_builtin_invocation rule) new
     <= 25 * occurrences rule (registration_order env))%nat /\
    (count_events is_scan_event new <= 26)%nat /\
    (count_events is_update_event new <= 1)%nat.
Proof.
  cbn zeta.
  destruct (driver_run_calls env analyzer_options catalog type_factory st)
    as (new & scan & inst & Ht & Hscan & Hlen & Hinst & Hrun).
  cbn zeta in Ht, Hrun. exists new. split; [exact Ht |].
  split; [| split].
  - destruct (run_calls_count (is_builtin_invocation rule) _ _ _ _ _ _
                ltac:(reflexivity) ltac:(reflexivity) Hrun)
      as (R & loop & Hloop & ->).
    rewrite (count_events_all _ is_scan_event scan) by
      (auto; intros [] He; try discriminate; reflexivity).
    pose proof (count_events_sublist (is_builtin_invocation rule) _ _ Hinst)
      as Hi. cbn in Hi.
    pose proof (loop_calls_count _ _ _ _ _ rule Hloop) as Hl.
    change (Z.to_nat kMaxIterations) with 25%nat in Hl. lia.
  - destruct (run_calls_count is_scan_event _ _ _ _ _ _
                ltac:(reflexivity) ltac:(reflexivity) Hrun)
      as (R & loop & Hloop & ->).
    pose proof (count_events_length is_scan_event scan) as Hs.
    pose proof (count_events_sublist is_scan_event _ _ Hinst) as Hi.
    cbn in Hi.
    pose proof (loop_calls_scans _ _ _ _ _ Hloop) as Hl.
    change (Z.to_nat kMaxIterations) with 25%nat in Hl. lia.
  - destruct (run_calls_count is_update_event _ _ _ _ _ _
                ltac:(reflexivity) ltac:(reflexivity) Hrun)
      as (R & loop & Hloop & ->).
    rewrite (count_events_all _ is_scan_event scan) by
      (auto; intros [] He; try discriminate; reflexivity).
    rewrite (count_events_all _ is_loop_event loop);
      [| intros [] He; try discriminate; reflexivity
       | exact (loop_calls_events _ _ _ _ _ Hloop)].
    pose proof (count_events_sublist is_update_event _ _ Hinst) as Hi.
    cbn in Hi. lia.
Qed.

(** X10: the rewriter of the anonymization rule is not invoked again
    after the first sweep: in one run of the driver proper it is invoked at
    most once for each place the rule has in the registration order. *)
Theorem anonymization_not_repeated
    (env : Collaborators) (analyzer_options : AnalyzerOptions)
    (catalog : Catalog) (type_factory : TypeFactory) (st : DriverState) :
  let run :=
    run_driver
      (InternalRewriteResolvedAstNoConvertErrorLocation env analyzer_options
         catalog type_factory) st in
  exists new,
    trace (snd run) = trace st ++ new /\
    (count_events (is_builtin_invocation REWRITE_ANONYMIZATION) new
     <= occurrences REWRITE_ANONYMIZATION (registration_order env))%nat.
Proof.
  cbn zeta.
  destruct (driver_run_calls env analyzer_options catalog type_factory st)
    as (new & scan & inst & Ht & Hscan & Hlen & Hinst & Hrun).
  cbn zeta in Ht, Hrun. exists new. split; [exact Ht |].
  destruct (run_calls_count (is_builtin_invocation REWRITE_ANONYMIZATION)
              _ _ _ _ _ _ ltac:(reflexivity) ltac:(reflexivity) Hrun)
    as (R & loop & Hloop & ->).
  rewrite (count_events_all _ is_scan_event scan) by
    (auto; intros [] He; try discriminate; reflexivity).
  pose proof (count_events_sublist
                (is_builtin_invocation REWRITE_ANONYMIZATION) _ _ Hinst)
    as Hi. cbn in Hi.
  pose proof (loop_calls_anonymization _ _ _ _ _ Hloop). lia.
Qed.

(** ** The root of the output *)

Lemma rewrite_passes_rootless env analyzer_options catalog type_factory st :
  NodeFromAnalyzerOutput (analyzer_output st) = None ->
  rewrite_passes env analyzer_options catalog type_factory st
  = (Return (RetCheckFailure "rewrite_input != nullptr"), declared st).
Proof.
  intros Hroot.
  unfold rewrite_passes, declare_locals, detect_rewrites, bind, get, put,
    RET_CHECK, return_status.
  cbn. rewrite Hroot.
  rewrite bool_decide_false by (intros [n Hn]; discriminate).
  reflexivity.
Qed.

(** X11: on an output without a root the driver proper returns an
    internal error; it calls no collaborator and leaves the output as it
    is. *)
Theorem driver_rejects_rootless_output
    (env : Collaborators) (analyzer_options : AnalyzerOptions)
    (catalog : Catalog) (type_factory : TypeFactory) (st : DriverState) :
  NodeFromAnalyzerOutput (analyzer_output st) = None ->
  let run :=
    run_driver
      (InternalRewriteResolvedAstNoConvertErrorLocation env analyzer_options
         catalog type_factory) st in
  fst run = RetCheckFailure "rewrite_input != nullptr" /\
  analyzer_output (snd run) = analyzer_output st /\
  trace (snd run) = trace st.
Proof.
  intros Hroot. cbn zeta. unfold run_driver.
  unfold InternalRewriteResolvedAstNoConvertErrorLocation.
  rewrite (bind_return _ _ _ _ _
             (rewrite_passes_rootless env analyzer_options catalog
                type_factory st Hroot)).
  cbn. auto.
Qed.

Lemma driver_rejects_rootless_output_witness :
  let run :=
    run_driver
      (InternalRewriteResolvedAstNoConvertErrorLocation Example.env
         Example.nulliferror_options 0%nat 0%nat)
      Example.rootless_state in
  fst run = RetCheckFailure "rewrite_input != nullptr" /\
  analyzer_output (snd run) = analyzer_output Example.rootless_state /\
  trace (snd run) = trace Example.rootless_state.
Proof.
  apply (driver_rejects_rootless_output Example.env
           Example.nulliferror_options 0%nat 0%nat Example.rootless_state).
  reflexivity.
Defined.

(** X12: a run of the driver proper that returns OK was given an output
    with a root and leaves an output with a root. *)
Theorem driver_success_has_root
    (env : Collaborators) (analyzer_options : AnalyzerOptions)
    (catalog : Catalog) (type_factory : TypeFactory) (st : DriverState) :
  let run :=
    run_driver
      (InternalRewriteResolvedAstNoConvertErrorLocation env analyzer_options
         catalog type_factory) st in
  status_ok (fst run) = true ->
  is_Some (NodeFromAnalyzerOutput (analyzer_output st)) /\
  is_Some (NodeFromAnalyzerOutput (analyzer_output (snd run))).
Proof.
  cbn zeta. intros Hok.
  assert (Hentry : is_Some (NodeFromAnalyzerOutput (analyzer_output st))).
  { destruct (NodeFromAnalyzerOutput (analyzer_output st)) as [n |] eqn:Hroot;
      [eauto |].
    destruct (driver_rejects_rootless_output env analyzer_options catalog
                type_factory st Hroot) as (Hs & _).
    cbn zeta in Hs. rewrite Hs in Hok. discriminate. }
  split; [exact Hentry |].
  revert Hok. unfold run_driver.
  pose proof (rewrite_passes_spec env analyzer_options catalog type_factory
                st st eq_refl) as Hpasses.
  destruct (driver_runs env analyzer_options catalog type_factory st)
    as [(s & st' & Hp & Hd) | (st1 & o & st' & Hp & Hi & Hd)].
  - rewrite Hp in Hpasses. destruct Hpasses as [[new H] Hopts].
    rewrite Hd. cbn [fst snd returned]. intros Hs.
    destruct (pg_unbuilt _ _ _ _ H (Hopts Hs)) as (Hstmt & Hexpr & _).
    change (analyzer_output (declared st)) with (analyzer_output st)
      in Hstmt, Hexpr.
    unfold NodeFromAnalyzerOutput in *. rewrite Hstmt, Hexpr. exact Hentry.
  - destruct o as [[] | s].
    + rewrite Hd.
      destruct (bool_decide
                  (is_Some (resolved_statement (analyzer_output st')))
                || bool_decide
                     (is_Some (resolved_expr (analyzer_output st'))))
        eqn:Hcheck; cbn [fst snd returned]; [| discriminate].
      intros _. unfold NodeFromAnalyzerOutput.
      apply orb_true_iff in Hcheck. destruct Hcheck as [Hc | Hc];
        apply bool_decide_eq_true in Hc.
      * destruct Hc as [n ->]. eauto.
      * destruct (resolved_statement (analyzer_output st')); eauto.
    + rewrite Hd. cbn [fst snd returned]. intros Hs.
      pose proof (install_rewrite_result_effect env analyzer_options st1)
        as Heffect. cbn zeta in Heffect. rewrite Hi in Heffect.
      cbn [fst snd] in Heffect.
      destruct (options_for_rewrite st1).
      * destruct Heffect as (_ & _ & Hfail & _).
        rewrite (Hfail s eq_refl) in Hs. discriminate.
      * discriminate.
Qed.

Lemma driver_success_has_root_witness :
  let run :=
    run_driver
      (InternalRewriteResolvedAstNoConvertErrorLocation Example.env
         Example.nulliferror_options 0%nat 0%nat)
      Example.nulliferror_state in
  is_Some (NodeFromAnalyzerOutput (analyzer_output Example.nulliferror_state))
  /\ is_Some (NodeFromAnalyzerOutput (analyzer_output (snd run))).
Proof.
  apply (driver_success_has_root Example.env Example.nulliferror_options
           0%nat 0%nat Example.nulliferror_state).
  vm_compute. reflexivity.
Defined.

(** ** The driver with the NULLIFERROR rewriter *)

Section DriverNullIfError.

Variable env : Collaborators.
Variable analyzer_options : AnalyzerOptions.
Variable catalog : Catalog.
Variable type_factory : TypeFactory.
Variable p : RewriterPtr.

Hypothesis Hregistry :
  registry_Get env REWRITE_NULLIFERROR_FUNCTION = Some p.
Hypothesis Hrewriter : rewriter_at env p = NullIfErrorFunctionRewriter.

Local Abbreviation never := (fun (_ : Status) (_ : DriverState) => False).





Hypothesis Hdebug : ZETASQL_DEBUG_MODE env = false.
Hypothesis Hchecker : FLAGS_zetasql_disable_rewriter_checker env = false.
Hypothesis Horder :
  REWRITE_NULLIFERROR_FUNCTION ∈ registration_order env.
Hypothesis Hvalidator :
  forall t,
    status_ok
      (ValidateResolvedStatement env (language analyzer_options)
         (allowed_hints_and_options analyzer_options) t) = true.
Hypothesis Hleading : leading_rewriters analyzer_options = [].
Hypothesis Htrailing : trailing_rewriters analyzer_options = [].

Variables n n' : ResolvedNode.
Variables detected detected' : gset ResolvedASTRewrite.

Hypothesis Hvisit : VisitAll n = Value n'.
Hypothesis Hstatement : IsStatement n = true.
Hypothesis Hscan : FindRelevantRewriters env (Some n) = Value detected.
Hypothesis Hdetected :
  enabled_rewrites analyzer_options ∩ detected
  = {[ REWRITE_NULLIFERROR_FUNCTION ]}.
Hypothesis Hscan' : FindRelevantRewriters env (Some n') = Value detected'.
Hypothesis Hdetected' :
  (enabled_rewrites analyzer_options ∩ detected')
    ∖ {[ REWRITE_ANONYMIZATION ]} = ∅.






End DriverNullIfError.


(** ** The parser variants *)

(** X14: the shadow parser is never the primary parser. The primary
    parser is never unspecified, and the shadow parser is unspecified
    exactly when shadow parsing is not enabled. *)
Theorem shadow_parser_differs_from_primary (language_options : LanguageOptions) :
  GetShadowParser language_options <> GetPrimaryParser language_options /\
  GetPrimaryParser language_options <> PARSER_UNSPECIFIED /\
  (GetShadowParser language_options = PARSER_UNSPECIFIED <->
   LanguageFeatureEnabled FEATURE_SHADOW_PARSING language_options = false).
Proof.
  unfold GetShadowParser, GetPrimaryParser.
  destruct (LanguageFeatureEnabled FEATURE_SHADOW_PARSING language_options);
    destruct (LanguageFeatureEnabled FEATURE_TEXTMAPPER_PARSER
                language_options); cbn;
    repeat split; try discriminate; try reflexivity; intros H; discriminate H.
Qed.

(** X15: the options that the driver builds for the rewriters select the
    parsers that the caller's options select: the language feature the
    builder enables is neither of the two that the selection reads. *)
Theorem AnalyzerOptionsForRewrite_keeps_parsers
    (analyzer_options : AnalyzerOptions) (analyzer_output : AnalyzerOutput)
    (fallback_sequence_number : SequenceNumber) :
  let options_for_rewrite :=
    fst (AnalyzerOptionsForRewrite analyzer_options analyzer_output
           fallback_sequence_number) in
  GetPrimaryParser (language options_for_rewrite)
  = GetPrimaryParser (language analyzer_options) /\
  GetShadowParser (language options_for_rewrite)
  = GetShadowParser (language analyzer_options).
Proof.
  cbn zeta.
  assert (Hfeature : forall feature,
             feature <> FEATURE_V_1_4_WITH_EXPRESSION ->
             LanguageFeatureEnabled feature
               (language
                  (fst (AnalyzerOptionsForRewrite analyzer_options
                          analyzer_output fallback_sequence_number)))
             = LanguageFeatureEnabled feature (language analyzer_options)).
  { intros feature Hne. unfold AnalyzerOptionsForRewrite.
    destruct (column_id_sequence_number analyzer_options); cbn;
      unfold LanguageFeatureEnabled; cbn;
      apply bool_decide_ext; rewrite elem_of_union, elem_of_singleton; tauto. }
  unfold GetPrimaryParser, GetShadowParser.
  rewrite !Hfeature by discriminate. split; reflexivity.
Qed.

(** ** The token count of the parser runtime info *)

(** X16: the token count after accumulating a list of runtime infos is
    the count before plus the counts of the list, when no count is negative
    and that sum is an [int64_t]; and accumulating one runtime info changes
    the count as adding its tokens does. *)
Theorem AccumulateAll_adds_tokens
    (accumulate : TimedValue -> TimedValue -> TimedValue)
    (rhss : list ParserRuntimeInfo) (info : ParserRuntimeInfo) :
  0 <= num_lexical_tokens info ->
  Forall (fun rhs => 0 <= num_lexical_tokens rhs) rhss ->
  in_int64
    (num_lexical_tokens info + foldr Z.add 0 (map num_lexical_tokens rhss)) ->
  num_lexical_tokens (fold_left (AccumulateAll accumulate) rhss info)
  = num_lexical_tokens info + foldr Z.add 0 (map num_lexical_tokens rhss) /\
  forall rhs,
    num_lexical_tokens (AccumulateAll accumulate info rhs)
    = num_lexical_tokens
        (add_lexical_tokens (num_lexical_tokens rhs) info).
Proof.
  intros Hinfo Hrhss Hrange. split; [| reflexivity].
  revert info Hinfo Hrange.
  induction Hrhss as [| rhs rhss Hrhs Hrest IH]; intros info Hinfo Hrange;
    cbn [fold_left map foldr] in *.
  - lia.
  - assert (Hsum : 0 <= foldr Z.add 0 (map num_lexical_tokens rhss)).
    { clear -Hrest. induction Hrest as [| r l Hr _ IHl]; cbn; lia. }
    assert (Hstep : num_lexical_tokens (AccumulateAll accumulate info rhs)
                    = num_lexical_tokens info + num_lexical_tokens rhs).
    { cbn. apply wrap64_in_range. unfold in_int64 in *. lia. }
    rewrite IH; rewrite Hstep; [lia | lia |].
    unfold in_int64 in *. lia.
Qed.

Lemma AccumulateAll_adds_tokens_witness :
  num_lexical_tokens
    (fold_left (AccumulateAll (fun t _ => t))
       [mkParserRuntimeInfo (mkTimedValue 1) 7;
        mkParserRuntimeInfo (mkTimedValue 0) 0;
        mkParserRuntimeInfo (mkTimedValue 2) 35]
       (mkParserRuntimeInfo (mkTimedValue 0) 0))
  = 42.
Proof.
  apply (AccumulateAll_adds_tokens (fun t _ => t)
           [mkParserRuntimeInfo (mkTimedValue 1) 7;
            mkParserRuntimeInfo (mkTimedValue 0) 0;
            mkParserRuntimeInfo (mkTimedValue 2) 35]
           (mkParserRuntimeInfo (mkTimedValue 0) 0)).
  - cbn. lia.
  - repeat constructor; cbn; lia.
  - unfold in_int64. cbn. lia.
Defined.

(** ** The writers of execute_query *)

Lemma append_assoc (s1 s2 s3 : string) :
  (s1 +:+ s2) +:+ s3 = s1 +:+ s2 +:+ s3.
Proof.
  induction s1 as [| c s1 IH]; [reflexivity |].
  change (String c ((s1 +:+ s2) +:+ s3) = String c (s1 +:+ s2 +:+ s3)).
  f_equal. exact IH.
Qed.

Lemma append_empty_r (s : string) : s +:+ EmptyString = s.
Proof.
  induction s as [| c s IH]; [reflexivity |].
  change (String c (s +:+ EmptyString) = String c s). f_equal. exact IH.
Qed.

(** X17: the stream writer returns OK for every operation that writes a
    string, and after a sequence of such operations the stream holds what
    it held, then the strings of the operations, in the order of the
    calls, each followed by a line feed; the name of the operation is not
    written. *)
Theorem stream_writer_writes_lines
    (ops : list ExecuteQuery.StringOperation)
    (stream_ : ExecuteQuery.ostream) :
  ExecuteQuery.calls ExecuteQuery.ExecuteQueryStreamWriter ops stream_
  = (map (fun _ => OkStatus) ops, stream_ +:+ ExecuteQuery.lines ops).
Proof.
  revert stream_. induction ops as [| op rest IH]; intros stream_; cbn.
  - rewrite append_empty_r. reflexivity.
  - destruct op as [s | s | s]; cbn; rewrite IH;
      rewrite !append_assoc; reflexivity.
Qed.

(** X18: the base writer implements no operation. Each call of an
    operation that writes a string returns an unimplemented error whose
    message names the operation, whatever the string is; the operations on
    a tree return unimplemented errors too, and none changes the writer. *)
Theorem base_writer_implements_nothing
    (ops : list ExecuteQuery.StringOperation) (ast : ResolvedNode)
    (explain : string) (iter : nat) (value : SqlValue) :
  ExecuteQuery.calls ExecuteQuery.BaseWriter ops tt
  = (map (fun op =>
            UnimplementedError
              ("ExecuteQueryWriter does not implement "
               +:+ ExecuteQuery.operation_name op)) ops, tt) /\
  Forall (fun result : Status * unit => code (fst result) = kUnimplemented)
    [@ExecuteQuery.resolved unit ast tt;
     @ExecuteQuery.explained unit ast explain tt;
     @ExecuteQuery.executed unit ast iter tt;
     @ExecuteQuery.ExecutedExpression unit ast value tt].
Proof.
  split; [| repeat constructor].
  induction ops as [| op rest IH]; cbn; [reflexivity |].
  destruct op as [s | s | s]; cbn; rewrite IH; reflexivity.
Qed.

(** ** The timers of the runtime info *)

Section Timers.

Variable env : Collaborators.
Variable analyzer_options : AnalyzerOptions.
Variable catalog : Catalog.
Variable type_factory : TypeFactory.

Lemma detect_rewrites_timers (a b : nat) : preserves (timers a b) (detect_rewrites env).
Proof.
  intros st H.
  destruct (detect_rewrites_state env st) as (calls & Hst & _).
  destruct (detect_rewrites env st) as [[d | s] st']; cbn [snd] in Hst;
    subst st'; exact H.
Qed.

Lemma ensure_options_for_rewrite_timers (a b : nat) :
  preserves (timers a b) (ensure_options_for_rewrite analyzer_options).
Proof.
  intros [output seqs options last calls] H.
  unfold ensure_options_for_rewrite, bind, get, put, ret. cbn.
  destruct options; [exact H |].
  destruct (AnalyzerOptionsForRewrite _ _ _) as [o fallback].
  unfold release_output_node. destruct (resolved_statement output); exact H.
Qed.

Lemma invoke_rewriter_timers who rewriter options (a b : nat) :
  preserves (timers a b)
    (invoke_rewriter catalog type_factory who rewriter options).
Proof.
  intros [output seqs o last calls] H.
  unfold invoke_rewriter, bind, get, put, ret, ASSIGN_OR_RETURN,
    set_last_rewrite_result, return_status. cbn.
  destruct (Rewrite rewriter _ _ _ _ _ _) as [[[root | e] properties] seqs'];
    exact H.
Qed.

Lemma run_user_rewriters_timers who rewriters (a b : nat) :
  preserves (timers a b)
    (run_user_rewriters env analyzer_options catalog type_factory who
       rewriters).
Proof.
  induction rewriters as [| rewriter rest IH]; cbn.
  - apply preserves_ret.
  - eapply triple_bind; [| intros u; exact IH].
    eapply triple_bind; [apply ensure_options_for_rewrite_timers |].
    intros options. apply invoke_rewriter_timers.
Qed.

Lemma apply_builtin_rewriter_timers ast_rewrite (a b : nat) :
  preserves (timers a b)
    (apply_builtin_rewriter env analyzer_options catalog type_factory
       ast_rewrite).
Proof.
  unfold apply_builtin_rewriter.
  eapply triple_bind; [apply ensure_options_for_rewrite_timers |].
  intros options.
  eapply (triple_bind _ _ _ (fun _ => timers a b)).
  { destruct (registry_Get env ast_rewrite);
      [apply preserves_ret | apply preserves_return_status]. }
  intros rewriter.
  eapply (triple_bind _ _ _ (fun _ => timers a b)).
  { intros [output seqs o last calls] H. exact H. }
  intros u.
  eapply triple_bind; [apply invoke_rewriter_timers |].
  intros u1 st H. unfold bind, get, RET_CHECK, ret, return_status.
  destruct (bool_decide _); exact H.
Qed.

Lemma sweep_timers order rewrites_to_apply (a b : nat) :
  preserves (timers a b)
    (sweep env analyzer_options catalog type_factory order
       rewrites_to_apply).
Proof.
  induction order as [| ast_rewrite rest IH]; cbn.
  - apply preserves_ret.
  - eapply triple_bind; [| intros u; exact IH].
    destruct (bool_decide (ast_rewrite ∈ rewrites_to_apply));
      [apply apply_builtin_rewriter_timers | apply preserves_ret].
Qed.

Lemma recompute_rewrites_to_apply_timers (a b : nat) :
  preserves (timers a b) (recompute_rewrites_to_apply env analyzer_options).
Proof.
  intros [output seqs o last calls] H.
  unfold recompute_rewrites_to_apply, bind, get, log, ASSIGN_OR_RETURN, ret,
    return_status. cbn.
  destruct (FindRelevantRewriters env last); exact H.
Qed.

Lemma convergence_loop_timers fuel (a b : nat) :
  forall iterations rewrites_to_apply,
    preserves (timers a b)
      (convergence_loop env analyzer_options catalog type_factory fuel
         iterations rewrites_to_apply).
Proof.
  induction fuel as [| fuel IH]; intros iterations R; cbn.
  - apply preserves_return_status.
  - destruct (kMaxIterations <? iterations + 1);
      [apply preserves_return_status |].
    eapply triple_bind; [apply sweep_timers |]. intros u.
    eapply triple_bind; [apply recompute_rewrites_to_apply_timers |].
    intros R'. destruct (bool_decide (R' = ∅));
      [apply preserves_ret | apply IH].
Qed.

Lemma accumulate_rewriter_timer_timers (a b : nat) :
  triple (timers a b) accumulate_rewriter_timer
    (fun _ => timers (S a) b) (fun _ => timers (S a) b).
Proof.
  intros [output seqs o last calls] [Ha Hb].
  unfold timers, rewriter_intervals, validator_intervals in *. cbn in *.
  split; [f_equal; exact Ha | exact Hb].
Qed.

(** The passes accumulate the rewriter timer once, unless an error ends
    them before. *)
Lemma rewrite_passes_timers (a b : nat) :
  triple (timers a b)
    (rewrite_passes env analyzer_options catalog type_factory)
    (fun _ => timers (S a) b)
    (fun s st =>
       (timers a b st \/ timers (S a) b st) /\
       (status_ok s = true -> timers (S a) b st)).
Proof.
  set (Rerr := fun (s : Status) st =>
                 (timers a b st \/ timers (S a) b st) /\
                 (status_ok s = true -> timers (S a) b st)).
  assert (Hfail : forall {A} (m : M A),
             preserves (timers a b) m -> fails_only m ->
             triple (timers a b) m (fun _ => timers a b) Rerr).
  { intros A m Hm Hf st H. specialize (Hm st H).
    destruct (m st) as [[x | s] st'] eqn:Hrun; [exact Hm |].
    split; [left; exact Hm |]. rewrite (Hf _ _ _ Hrun). discriminate. }
  assert (Hexit : forall c : bool,
             triple (timers a b)
               (if c then accumulate_rewriter_timer;; return_status OkStatus
                else ret tt)
               (fun _ => timers a b) Rerr).
  { intros [|]; [| apply triple_ret; auto].
    intros st H. pose proof (accumulate_rewriter_timer_timers a b st H) as H'.
    cbn in H' |- *. split; auto. }
  unfold rewrite_passes.
  eapply (triple_bind _ _ _ (fun _ => timers a b)).
  { intros [output seqs o last calls] H. exact H. }
  intros u.
  eapply triple_bind;
    [apply Hfail; [apply detect_rewrites_timers
                  | apply detect_rewrites_fails_only] |].
  intros detected. eapply triple_bind; [apply Hexit |].
  intros u1. eapply triple_bind; [apply Hexit |].
  intros u2.
  eapply triple_bind;
    [apply Hfail; [apply run_user_rewriters_timers
                  | apply run_user_rewriters_fails_only] |].
  intros u3.
  eapply (triple_bind _ _ _ (fun _ => timers a b)).
  { destruct (negb _); [| apply triple_ret; auto].
    apply Hfail; [apply convergence_loop_timers
                 | apply convergence_loop_fails_only]. }
  intros u4.
  eapply (triple_bind _ _ _ (fun _ => timers (S a) b)).
  { eapply triple_weaken;
      [apply (accumulate_rewriter_timer_timers a b)
      | intros st H; exact H
      | intros x st H; exact H
      | intros s st H; split; [right; exact H | intros _; exact H]]. }
  intros u5.
  eapply triple_weaken;
    [apply (run_user_rewriters_timers _ _ (S a) b)
    | intros st H; exact H
    | intros x st H; exact H
    | intros s st H; split; [right; exact H | intros _; exact H]].
Qed.

Lemma install_rewrite_result_timers st :
  let result := install_rewrite_result env analyzer_options st in
  rewriter_intervals (snd result) = rewriter_intervals st /\
  exists new,
    trace (snd result) = trace st ++ new /\
    new `sublist_of` [EvUpdate; EvValidate; EvMarkFieldsAccessed] /\
    validator_intervals (snd result)
    = (validator_intervals st + count_events is_validate_event new)%nat.
Proof.
  cbn zeta. destruct st as [output seqs o last calls].
  unfold install_rewrite_result, bind, get, put, ret, RETURN_IF_ERROR,
    accumulate_validator_timer, set_analyzer_output, log, return_status,
    rewriter_intervals, validator_intervals.
  cbn.
  destruct o as [options |];
    [| cbn; split; [reflexivity |]; exists []; rewrite app_nil_r;
       split; [reflexivity |]; split; [repeat constructor | cbn; lia]].
  unfold Update. destruct last as [root |]; cbn.
  - destruct (IsStatement root); cbn;
      change (status_ok OkStatus) with true; cbn;
      repeat match goal with
             | |- context [if ?b then _ else _] => destruct b; cbn
             | |- context [match ?x with Some _ => _ | None => _ end] =>
                 destruct x; cbn
             | |- context [match ?x with
                           | LEGACY_FIELDS_ACCESSED_MODE => _
                           | CLEAR_FIELDS => _
                           end] => destruct x; cbn
             end;
      rewrite <- ?app_assoc; cbn;
      (split; [reflexivity |]); eexists;
      (split; [reflexivity |]);
      (split; [repeat constructor | cbn; lia]).
  - replace (status_ok (RetCheckFailure "node != nullptr")) with false
      by reflexivity.
    cbn. split; [reflexivity |]. eexists. split; [reflexivity |].
    split; [repeat constructor | cbn; lia].
Qed.

(** X19: the timers of the runtime info. A run of the driver proper
    accumulates the validator timer exactly when it reaches the validation,
    which it does at most once, and the rewriter timer at most once; a run
    that returns OK accumulates the rewriter timer exactly once. *)
Theorem driver_timer_accounting (st : DriverState) :
  let run :=
    run_driver
      (InternalRewriteResolvedAstNoConvertErrorLocation env analyzer_options
         catalog type_factory) st in
  exists new,
    trace (snd run) = trace st ++ new /\
    validator_intervals (snd run)
    = (validator_intervals st + count_events is_validate_event new)%nat /\
    (count_events is_validate_event new <= 1)%nat /\
    (rewriter_intervals (snd run) <= rewriter_intervals st + 1)%nat /\
    (status_ok (fst run) = true ->
     rewriter_intervals (snd run) = (rewriter_intervals st + 1)%nat).
Proof.
  cbn zeta. unfold run_driver.
  pose proof (rewrite_passes_timers (rewriter_intervals st)
                (validator_intervals st) st (conj eq_refl eq_refl))
    as Htimers.
  destruct (rewrite_passes_calls env analyzer_options catalog type_factory st)
    as (new1 & Ht1 & scan & Hscan & _ & Hcalls).
  destruct (run_calls_count is_validate_event _ _ _ _ _ _
              ltac:(reflexivity) ltac:(reflexivity) Hcalls)
    as (R & loop & Hloop & Hcount).
  rewrite (count_events_all _ is_scan_event scan) in Hcount by
    (auto; intros [] He; try discriminate; reflexivity).
  rewrite (count_events_all _ is_loop_event loop) in Hcount;
    [| intros [] He; try discriminate; reflexivity
     | exact (loop_calls_events _ _ _ _ _ Hloop)].
  cbn in Hcount.
  destruct (driver_runs env analyzer_options catalog type_factory st)
    as [(s & st' & Hp & Hd) | (st1 & o & st' & Hp & Hi & Hd)].
  - rewrite Hp in Htimers, Ht1. cbn [fst snd] in Ht1.
    destruct Htimers as [Hany Hok]. rewrite Hd. cbn [fst snd returned].
    exists new1. split; [exact Ht1 |]. rewrite Hcount.
    unfold timers in *.
    split; [destruct Hany as [[_ H] | [_ H]]; rewrite H; lia |].
    split; [lia |].
    split; [destruct Hany as [[H _] | [H _]]; rewrite H; lia |].
    intros Hs. destruct (Hok Hs) as [H _]. rewrite H. lia.
  - rewrite Hp in Htimers, Ht1. cbn [fst snd] in Ht1.
    destruct Htimers as [Hr Hv].
    destruct (install_rewrite_result_timers st1)
      as (Hr2 & new2 & Ht2 & Hsub & Hv2).
    cbn zeta in Hr2, Ht2, Hv2. rewrite Hi in Hr2, Ht2, Hv2.
    cbn [fst snd] in Hr2, Ht2, Hv2.
    assert (Hsnd : snd (let '(outcome, st'0) :=
                          InternalRewriteResolvedAstNoConvertErrorLocation env
                            analyzer_options catalog type_factory st in
                        (returned outcome, st'0)) = st').
    { destruct o; rewrite Hd; reflexivity. }
    rewrite Hsnd.
    exists (new1 ++ new2).
    split; [rewrite Ht2, Ht1; symmetry; apply app_assoc |].
    rewrite count_events_app, Hcount.
    pose proof (count_events_sublist is_validate_event _ _ Hsub) as Hle.
    cbn in Hle.
    split; [rewrite Hv2, Hv; lia |]. split; [lia |].
    split; [rewrite Hr2, Hr; lia |].
    intros _. rewrite Hr2, Hr. lia.
Qed.

End Timers.

(** ** The loop is entered on the scan of the input alone *)

Section LoopSkipped.

Variable env : Collaborators.
Variable analyzer_options : AnalyzerOptions.
Variable catalog : Catalog.
Variable type_factory : TypeFactory.

Lemma detect_rewrites_checker st detected d st' :
  FLAGS_zetasql_disable_rewriter_checker env = false ->
  FindRelevantRewriters env (NodeFromAnalyzerOutput (analyzer_output st))
  = Value detected ->
  detect_rewrites env st = (Normal d, st') -> d = detected.
Proof.
  intros Hflag Hscan.
  unfold detect_rewrites, bind, get, RET_CHECK, log, ASSIGN_OR_RETURN, ret,
    return_status.
  rewrite Hflag, orb_true_r. cbn.
  destruct (bool_decide (is_Some _)); cbn; [| discriminate].
  rewrite Hscan. cbn.
  destruct (ZETASQL_DEBUG_MODE env && _); cbn;
    [destruct (bool_decide _); cbn |]; intros [= <- _]; reflexivity.
Qed.

Lemma user_rewriters_only_calls :
  emits (fun _ new => Forall (fun e => is_loop_event e = false) new)
    (run_user_rewriters env analyzer_options catalog type_factory
       LeadingRewriter (leading_rewriters analyzer_options);;
     (if negb (bool_decide ((∅ : gset ResolvedASTRewrite) = ∅)) then
        convergence_loop env analyzer_options catalog type_factory
          (S (Z.to_nat kMaxIterations)) 0 ∅
      else ret tt);;
     accumulate_rewriter_timer;;
     run_user_rewriters env analyzer_options catalog type_factory
       TrailingRewriter (trailing_rewriters analyzer_options)).
Proof.
  assert (Huser : forall who rewriters l,
             (forall ptr, is_loop_event (EvRewrite (who ptr)) = false) ->
             l `prefix_of` user_invocations who rewriters ->
             Forall (fun e => is_loop_event e = false) l).
  { intros who rewriters l Hwho [k Hk].
    pose proof (user_invocations_no_builtin who rewriters is_loop_event Hwho)
      as Hall.
    rewrite Hk in Hall. apply Forall_app in Hall. tauto. }
  rewrite bool_decide_true by reflexivity. cbn [negb].
  eapply (emits_bind _
            (fun _ =>
               phase_calls
                 (user_invocations TrailingRewriter
                    (trailing_rewriters analyzer_options))));
    [apply run_user_rewriters_calls | | |].
  - intros u.
    eapply (emits_bind (fun _ new => new = [])
              (fun _ =>
                 phase_calls
                   (user_invocations TrailingRewriter
                      (trailing_rewriters analyzer_options))));
      [apply (emits_silent (ret tt)); intros st; reflexivity | | |].
    + intros u1. apply emits_after_quiet;
        [apply accumulate_rewriter_timer_quiet |].
      intros u2. apply run_user_rewriters_calls.
    + intros s l ->. exact (phase_calls_nil _ s).
    + intros u1 o l1 l2 -> H. exact H.
  - intros s l [Hpre _].
    exact (Huser LeadingRewriter _ l (fun _ => eq_refl) Hpre).
  - intros u o l1 l2 [Hpre1 _] [Hpre2 _]. apply Forall_app. split.
    + exact (Huser LeadingRewriter _ l1 (fun _ => eq_refl) Hpre1).
    + exact (Huser TrailingRewriter _ l2 (fun _ => eq_refl) Hpre2).
Qed.

Lemma rewrite_passes_loop_skipped st detected :
  FLAGS_zetasql_disable_rewriter_checker env = false ->
  FindRelevantRewriters env (NodeFromAnalyzerOutput (analyzer_output st))
  = Value detected ->
  enabled_rewrites analyzer_options ∩ detected = ∅ ->
  exists scan new,
    trace (snd (rewrite_passes env analyzer_options catalog type_factory st))
    = trace st ++ scan ++ new /\
    (length scan <= 1)%nat /\
    Forall (fun e => is_scan_event e = true) scan /\
    Forall (fun e => is_loop_event e = false) new.
Proof.
  intros Hflag Hscan Hnone. unfold rewrite_passes.
  rewrite (bind_run _ _ st tt (declared st) eq_refl).
  destruct (detect_rewrites_state env (declared st))
    as (scan & Hst & Hshape).
  assert (Hlen : (length scan <= 1)%nat)
    by (destruct Hshape as [-> | ->]; cbn; lia).
  assert (Hscans : Forall (fun e => is_scan_event e = true) scan)
    by (destruct Hshape as [-> | ->]; repeat constructor).
  destruct (detect_rewrites env (declared st)) as [[d | s] st1] eqn:Hdetect;
    cbn [snd] in Hst;
    [rewrite (bind_run _ _ _ _ _ Hdetect)
    | rewrite (bind_return _ _ _ _ _ Hdetect)].
  - assert (d = detected) as ->
      by exact (detect_rewrites_checker (declared st) detected d st1 Hflag
                  Hscan Hdetect).
    assert (Ht1 : trace st1 = trace st ++ scan) by (rewrite Hst; reflexivity).
    clear Hst Hdetect.
    assert (Hexit : forall c : bool,
               emits (fun _ new => new = [])
                 (if c then accumulate_rewriter_timer;; return_status OkStatus
                  else ret tt)).
    { intros [|]; intros st0; exists []; rewrite app_nil_r; auto. }
    cbn zeta. rewrite Hnone.
    match goal with
    | |- context [trace (snd (?m st1))] =>
        assert (Hm : emits
                       (fun _ new => Forall (fun e => is_loop_event e = false) new)
                       m)
    end.
    { eapply (emits_bind (fun _ new => new = [])
                (fun _ _ new =>
                   Forall (fun e => is_loop_event e = false) new));
        [apply Hexit | | |].
      - intros u.
        eapply (emits_bind (fun _ new => new = [])
                  (fun _ _ new =>
                     Forall (fun e => is_loop_event e = false) new));
          [apply Hexit | | |].
        + intros u1. apply user_rewriters_only_calls.
        + intros s l ->. constructor.
        + intros u1 o l1 l2 -> H. exact H.
      - intros s l ->. constructor.
      - intros u o l1 l2 -> H. exact H. }
    destruct (Hm st1) as (new & Ht & Hnew).
    exists scan, new. rewrite Ht, Ht1, <- app_assoc. auto.
  - exists scan, []. rewrite app_nil_r. cbn [snd]. rewrite Hst.
    split; [reflexivity |]. split; [exact Hlen |].
    split; [exact Hscans | constructor].
Qed.

(** X20: the loop is entered on the scan of the input alone. With the
    checker on, when the scan of the input finds no enabled rule, the
    driver proper invokes no built-in rewriter and does not scan again,
    whatever the user-supplied rewriters make of the tree. *)
Theorem loop_skipped_without_detected_rule (st : DriverState)
    (detected : gset ResolvedASTRewrite) :
  FLAGS_zetasql_disable_rewriter_checker env = false ->
  FindRelevantRewriters env (NodeFromAnalyzerOutput (analyzer_output st))
  = Value detected ->
  enabled_rewrites analyzer_options ∩ detected = ∅ ->
  let run :=
    run_driver
      (InternalRewriteResolvedAstNoConvertErrorLocation env analyzer_options
         catalog type_factory) st in
  exists new,
    trace (snd run) = trace st ++ new /\
    Forall (fun e => not_builtin_event e = true) new /\
    (count_events is_scan_event new <= 1)%nat.
Proof.
  intros Hflag Hscan Hnone. cbn zeta. unfold run_driver.
  destruct (rewrite_passes_loop_skipped st detected Hflag Hscan Hnone)
    as (scan & new1 & Ht1 & Hlen & Hscans & Hnew1).
  assert (Hshape : forall inst,
             inst `sublist_of` [EvUpdate; EvValidate; EvMarkFieldsAccessed] ->
             Forall (fun e => not_builtin_event e = true)
               (scan ++ new1 ++ inst)
             /\ (count_events is_scan_event (scan ++ new1 ++ inst) <= 1)%nat).
  { intros inst Hinst. split.
    - apply Forall_app. split; [| apply Forall_app; split].
      + apply (Forall_impl _ _ _ Hscans). intros [] He; try reflexivity;
          discriminate.
      + apply (Forall_impl _ _ _ Hnew1). intros [| | [] | | |] He;
          try reflexivity; discriminate.
      + apply Forall_forall. intros e He.
        pose proof (elem_of_sublist _ _ _ He Hinst) as He'.
        repeat (apply elem_of_cons in He'; destruct He' as [-> | He'];
                [reflexivity |]).
        inversion He'.
    - rewrite !count_events_app.
      pose proof (count_events_length is_scan_event scan).
      rewrite (count_events_none is_scan_event new1);
        [| apply (Forall_impl _ _ _ Hnew1); intros [] He; try reflexivity;
           discriminate].
      pose proof (count_events_sublist is_scan_event _ _ Hinst) as Hi.
      cbn in Hi. lia. }
  destruct (driver_runs env analyzer_options catalog type_factory st)
    as [(s & st' & Hp & Hd) | (st1 & o & st' & Hp & Hi & Hd)].
  - rewrite Hp in Ht1. cbn [snd] in Ht1. rewrite Hd. cbn [fst snd].
    exists (scan ++ new1 ++ []). rewrite app_nil_r.
    split; [exact Ht1 |].
    pose proof (Hshape [] (sublist_nil_l _)) as Hs.
    rewrite app_nil_r in Hs. exact Hs.
  - rewrite Hp in Ht1. cbn [snd] in Ht1.
    destruct (install_rewrite_result_calls env analyzer_options st1)
      as (inst & Ht2 & Hinst).
    rewrite Hi in Ht2. cbn [snd] in Ht2.
    assert (Hsnd : snd (let '(outcome, st'0) :=
                          InternalRewriteResolvedAstNoConvertErrorLocation env
                            analyzer_options catalog type_factory st in
                        (returned outcome, st'0)) = st').
    { destruct o; rewrite Hd; reflexivity. }
    rewrite Hsnd. exists (scan ++ new1 ++ inst).
    split; [rewrite Ht2, Ht1, <- !app_assoc; reflexivity |].
    exact (Hshape inst Hinst).
Qed.

End LoopSkipped.

Lemma loop_skipped_without_detected_rule_witness :
  let run :=
    run_driver
      (InternalRewriteResolvedAstNoConvertErrorLocation Example.env
         (Example.options {[ REWRITE_NULLIFERROR_FUNCTION ]} [2%nat] [] None)
         0%nat 0%nat)
      Example.select_1_state in
  exists new,
    trace (snd run) = trace Example.select_1_state ++ new /\
    Forall (fun e => not_builtin_event e = true) new /\
    (count_events is_scan_event new <= 1)%nat.
Proof.
  assert (Hscan :
            FindRelevantRewriters Example.env
              (NodeFromAnalyzerOutput
                 (analyzer_output Example.select_1_state))
            = Value (∅ ∪ ∅)) by reflexivity.
  apply (loop_skipped_without_detected_rule Example.env
           (Example.options {[ REWRITE_NULLIFERROR_FUNCTION ]} [2%nat] []
              None)
           0%nat 0%nat Example.select_1_state (∅ ∪ ∅) ltac:(reflexivity)
           Hscan).
  apply (bool_decide_unpack _). vm_compute. exact I.
Defined.
